(** * autodns: the service-discovery resolution pipeline

    A shallow embedding of the Go program (the revision with proxy
    discovery: [discoverTraefik], [discover], [main], [makeResponse]) and
    the properties of its hostname -> address table.

    Go values are modelled as follows.
    - [string] is a byte string, as in Go.
    - A Go [map[string]string] that is both indexed and ranged over (the
      container labels) is an association list: its order is the order the
      [range] loop happens to visit the entries in, which Go leaves
      unspecified, so a statement quantified over the list covers every
      iteration order.  Keys are unique in a Go map ([labelsOK]).
    - A Go map that is only indexed (network attachments, the service map)
      is a [gmap].
    - [net.IP] is a byte slice, [nil] being the empty one.
    - Logging, the growing [discovered] slice and the run-time panic of an
      index out of range ([container.Names[0]]) are effects: a small
      writer/error monad [M].
    - Pointers of the Docker API ([NetworkSettings], the endpoint of an
      attachment) are the values they point to: the daemon does not send
      nil there.
    - The inventory is an argument: what [getContainers] returned.  A
      failed call ends the process ([log.Fatal]) before anything of
      interest happens. *)

From Stdlib Require Import Ascii String NArith DecimalString.
From stdpp Require Import gmap strings list fin_maps.

Local Open Scope N_scope.
Local Open Scope nat_scope.

(* ================================================================== *)
(** * Byte strings *)

Module Bytes.

Definition to_list : string -> list ascii := list_ascii_of_string.
Definition of_list : list ascii -> string := string_of_list_ascii.

Definition code (c : ascii) : N := N_of_ascii c.

(** [lo <= c <= hi] on byte values. *)
Definition between (lo hi : N) (c : ascii) : bool :=
  (lo <=? code c)%N && (code c <=? hi)%N.

End Bytes.

(* ================================================================== *)
(** * Package [unicode/utf8]: the width of the rune at the head of a string *)

Module utf8.

(** Go's [utf8.DecodeRuneInString] returns the rune and its width; the
    matcher only needs the width.  [first] and [acceptRanges] are the
    tables of the Go package: a lead byte gives the sequence length and the
    range the second byte must lie in; a malformed or truncated sequence is
    one byte wide (it decodes to [RuneError]). *)
Definition contb (c : ascii) : bool := Bytes.between 128 191 c.

Definition DecodeRuneWidth (s : list ascii) : nat :=
  match s with
  | [] => 0
  | s0 :: rest =>
    let b := Bytes.code s0 in
    let second (lo hi : N) (n : nat) :=
      match rest with
      | s1 :: rest1 =>
        if negb (Bytes.between lo hi s1) then 1
        else match n with
             | 2 => 2
             | 3 => match rest1 with
                    | s2 :: _ => if contb s2 then 3 else 1
                    | [] => 1
                    end
             | _ => match rest1 with
                    | s2 :: s3 :: _ =>
                      if contb s2 then (if contb s3 then 4 else 1) else 1
                    | _ => 1
                    end
             end
      | [] => 1
      end in
    if (b <? 128)%N then 1                          (* ASCII *)
    else if (b <? 194)%N then 1                     (* 0x80-0xC1: invalid *)
    else if (b <? 224)%N then second 128%N 191%N 2  (* 0xC2-0xDF *)
    else if (b =? 224)%N then second 160%N 191%N 3  (* 0xE0 *)
    else if (b =? 237)%N then second 128%N 159%N 3  (* 0xED *)
    else if (b <? 240)%N then second 128%N 191%N 3  (* 0xE1-0xEF *)
    else if (b =? 240)%N then second 144%N 191%N 4  (* 0xF0 *)
    else if (b <? 244)%N then second 128%N 191%N 4  (* 0xF1-0xF3 *)
    else if (b =? 244)%N then second 128%N 143%N 4  (* 0xF4 *)
    else 1                                          (* 0xF5-0xFF: invalid *)
  end.

End utf8.

(* ================================================================== *)
(** * Package [regexp]: a backtracking matcher with submatches

    Go's [regexp] returns the leftmost match and, among the matches that
    start there, the one a backtracking search finds first.  [run] is that
    search in continuation-passing style: [k] is what has to match after
    [r], and the first success wins.  Characters are UTF-8 runes: a class
    or a literal of this program is ASCII and takes one byte, [.] takes one
    rune of any width except a newline. *)

Module regexp.

Inductive Regexp : Type :=
| Lit (c : ascii)                       (* a literal ASCII character *)
| AnyCharNotNL                          (* .  *)
| CharClass (ranges : list (ascii * ascii))  (* [lo-hi ...] *)
| Concat (r1 r2 : Regexp)
| Alternate (r1 r2 : Regexp)            (* r1|r2, r1 preferred *)
| Star (r : Regexp)                     (* greedy r* *)
| Capture (i : nat) (r : Regexp).       (* the i-th parenthesis *)

(** [r+] is [r r*]. *)
Definition Plus (r : Regexp) : Regexp := Concat r (Star r).

Fixpoint Literal (s : list ascii) (tail : Regexp) : Regexp :=
  match s with
  | [] => tail
  | c :: s' => Concat (Lit c) (Literal s' tail)
  end.

Definition inClass (ranges : list (ascii * ascii)) (c : ascii) : bool :=
  existsb (fun r => Bytes.between (Bytes.code (fst r)) (Bytes.code (snd r)) c) ranges.

(** Submatches found so far: group index and captured text, latest first. *)
Definition Caps := list (nat * list ascii).

Fixpoint getCap (i : nat) (caps : Caps) : list ascii :=
  match caps with
  | [] => []
  | (j, t) :: caps' => if Nat.eqb i j then t else getCap i caps'
  end.

(** The text consumed between input [s] and its suffix [s']. *)
Definition consumed (s s' : list ascii) : list ascii :=
  firstn (length s - length s') s.

Section Run.
Context {R : Type}.

(** The loop of a greedy star: one more [step] first, as long as it
    consumes input, then the rest [k].  At most [fuel] iterations; the
    length of the input is enough, each iteration consuming a byte. *)
Section StarLoop.
Variable step : list ascii -> Caps -> (list ascii -> Caps -> option R) -> option R.
Variable k : list ascii -> Caps -> option R.

Fixpoint starLoop (fuel : nat) (s : list ascii) (caps : Caps) : option R :=
  match fuel with
  | 0 => k s caps
  | S fuel' =>
    match step s caps
            (fun s' caps' =>
               if length s' <? length s then starLoop fuel' s' caps' else None) with
    | Some x => Some x
    | None => k s caps
    end
  end.
End StarLoop.

Fixpoint run (r : Regexp) (s : list ascii) (caps : Caps)
    (k : list ascii -> Caps -> option R) {struct r} : option R :=
  match r with
  | Lit c =>
    match s with
    | a :: s' => if Ascii.eqb a c then k s' caps else None
    | [] => None
    end
  | AnyCharNotNL =>
    match utf8.DecodeRuneWidth s with
    | 0 => None
    | S w =>
      match s with
      | a :: s' => if Ascii.eqb a "010"%char then None else k (skipn w s') caps
      | [] => None
      end
    end
  | CharClass ranges =>
    match s with
    | a :: s' => if inClass ranges a then k s' caps else None
    | [] => None
    end
  | Concat r1 r2 => run r1 s caps (fun s' caps' => run r2 s' caps' k)
  | Alternate r1 r2 =>
    match run r1 s caps k with
    | Some x => Some x
    | None => run r2 s caps k
    end
  | Star r1 => starLoop (run r1) k (length s) s caps
  | Capture i r1 =>
    run r1 s caps (fun s' caps' => k s' ((i, consumed s s') :: caps'))
  end.

End Run.

(** Number of parenthesised groups. *)
Fixpoint NumSubexp (r : Regexp) : nat :=
  match r with
  | Lit _ | AnyCharNotNL | CharClass _ => 0
  | Concat r1 r2 | Alternate r1 r2 => NumSubexp r1 `max` NumSubexp r2
  | Star r1 => NumSubexp r1
  | Capture i r1 => i `max` NumSubexp r1
  end.

(** A match anchored at the head of [s]: the matched text and the groups. *)
Definition matchHere (r : Regexp) (s : list ascii) : option (list ascii * Caps) :=
  run r s [] (fun s' caps => Some (consumed s s', caps)).

(** The leftmost match: start positions are tried rune by rune; [skip]
    counts the bytes of the current rune still to step over. *)
Fixpoint search (r : Regexp) (skip : nat) (s : list ascii) : option (list ascii * Caps) :=
  match skip with
  | S skip' =>
    match s with
    | [] => None
    | _ :: s' => search r skip' s'
    end
  | 0 =>
    match matchHere r s with
    | Some m => Some m
    | None =>
      match s with
      | [] => None
      | _ :: s' => search r (utf8.DecodeRuneWidth s - 1) s'
      end
    end
  end.

(** [re.FindStringSubmatch(s)]: [nil] when there is no match, else the
    matched text followed by the text of each group (empty for a group
    that took no part in the match). *)
Definition FindStringSubmatch (r : Regexp) (s : string) : list string :=
  match search r 0 (Bytes.to_list s) with
  | None => []
  | Some (whole, caps) =>
    Bytes.of_list whole ::
    map (fun i => Bytes.of_list (getCap i caps)) (seq 1 (NumSubexp r))
  end.

End regexp.

(* ================================================================== *)
(** * The routing-rule pattern *)

(** The source constant, for reference (a Go string literal, so each
    doubled backslash below is one backslash of the pattern):

    traefik.http.routers.([\\w\\-\\_]+).rule=Host\\(`((?:(?:[a-zA-Z]|[a-zA-Z][a-zA-Z0-9\\-]*[a-zA-Z0-9])\\.)*(?:[A-Za-z]|[A-Za-z][A-Za-z0-9\\-]*[A-Za-z0-9]))`\\)

    The dots of [traefik.http.routers.] and [.rule] are not escaped: each
    matches any character. *)

Module Pattern.
Import regexp.

Definition lower : ascii * ascii := ("a"%char, "z"%char).
Definition upper : ascii * ascii := ("A"%char, "Z"%char).
Definition digit : ascii * ascii := ("0"%char, "9"%char).
Definition dash : ascii * ascii := ("-"%char, "-"%char).
Definition underscore : ascii * ascii := ("_"%char, "_"%char).

(** [[\w\-\_]]: word characters, dash, underscore. *)
Definition routerClass : list (ascii * ascii) :=
  [digit; upper; underscore; lower; dash; underscore].
(** [[a-zA-Z]], [[a-zA-Z0-9\-]], [[a-zA-Z0-9]]. *)
Definition alpha : list (ascii * ascii) := [lower; upper].
Definition alnumDash : list (ascii * ascii) := [lower; upper; digit; dash].
Definition alnum : list (ascii * ascii) := [lower; upper; digit].

(** [(?:[a-zA-Z]|[a-zA-Z][a-zA-Z0-9\-]*[a-zA-Z0-9])]: one DNS label. *)
Definition dnsLabel : Regexp :=
  Alternate (CharClass alpha)
            (Concat (CharClass alpha)
                    (Concat (Star (CharClass alnumDash)) (CharClass alnum))).

(** [(?:label\.)*label]: the captured domain. *)
Definition domain : Regexp :=
  Concat (Star (Concat dnsLabel (Lit "."%char))) dnsLabel.

Definition lit (s : string) (tail : Regexp) : Regexp :=
  Literal (Bytes.to_list s) tail.

Definition TraefikLabelRegex : Regexp :=
  lit "traefik" (Concat AnyCharNotNL
  (lit "http" (Concat AnyCharNotNL
  (lit "routers" (Concat AnyCharNotNL
  (Concat (Capture 1 (Plus (CharClass routerClass)))
  (Concat AnyCharNotNL
  (lit "rule=Host(`"
  (Concat (Capture 2 domain)
  (lit "`" (Lit ")"%char))))))))))).

End Pattern.

(* ================================================================== *)
(** * Package [strings] *)

Module strings.

(** [strings.Split(s, sep)] for a one-byte separator: the pieces of [s]
    between the occurrences of [sep]; never empty; [cur] is the piece
    being read. *)
Fixpoint splitFrom (sep : ascii) (cur : list ascii) (s : list ascii) : list string :=
  match s with
  | [] => [Bytes.of_list (rev cur)]
  | c :: s' =>
    if Ascii.eqb c sep then Bytes.of_list (rev cur) :: splitFrom sep [] s'
    else splitFrom sep (c :: cur) s'
  end.

Definition Split (s : string) (sep : ascii) : list string :=
  splitFrom sep [] (Bytes.to_list s).

End strings.

(* ================================================================== *)
(** * Package [net]: addresses *)

Module net.

(** [net.IP] is [[]byte]; [nil] is the empty slice. *)
Definition IP := list N.

Definition IPv4len := 4.
Definition IPv6len := 16.

(** [ip.To4()]: the 4-byte form of an IPv4 address (given as 4 bytes or as
    an IPv4-mapped 16 bytes), [nil] otherwise. *)
Definition To4 (ip : IP) : IP :=
  match ip with
  | [_; _; _; _] => ip
  | [0%N; 0%N; 0%N; 0%N; 0%N; 0%N; 0%N; 0%N; 0%N; 0%N; 255%N; 255%N; a; b; c; d] =>
    [a; b; c; d]
  | _ => []
  end.

(** Decimal and hexadecimal digits. *)
Definition digitChar (d : N) : ascii := ascii_of_N (48 + d).
Definition hexChar (d : N) : ascii :=
  if (d <? 10)%N then ascii_of_N (48 + d) else ascii_of_N (87 + d).

(** A byte in decimal, no leading zeros. *)
Definition utoa (b : N) : string :=
  if (b <? 10)%N then String (digitChar b) ""
  else if (b <? 100)%N then String (digitChar (b / 10)) (String (digitChar (b mod 10)) "")
  else String (digitChar (b / 100))
         (String (digitChar ((b / 10) mod 10)) (String (digitChar (b mod 10)) "")).

Definition dotted (a b c d : N) : string :=
  utoa a +:+ "." +:+ utoa b +:+ "." +:+ utoa c +:+ "." +:+ utoa d.

(** A 16-bit group in hexadecimal, no leading zeros. *)
Definition hex16 (v : N) : string :=
  let d3 := (v / 4096)%N in
  let d2 := ((v / 256) mod 16)%N in
  let d1 := ((v / 16) mod 16)%N in
  let d0 := (v mod 16)%N in
  if (v <? 16)%N then String (hexChar d0) ""
  else if (v <? 256)%N then String (hexChar d1) (String (hexChar d0) "")
  else if (v <? 4096)%N then
    String (hexChar d2) (String (hexChar d1) (String (hexChar d0) ""))
  else String (hexChar d3)
         (String (hexChar d2) (String (hexChar d1) (String (hexChar d0) ""))).

Fixpoint hexString (ip : IP) : string :=
  match ip with
  | [] => ""
  | b :: ip' => String (hexChar (b / 16)) (String (hexChar (b mod 16)) (hexString ip'))
  end.

(** The eight 16-bit groups of a 16-byte address. *)
Fixpoint groups (ip : IP) : list N :=
  match ip with
  | hi :: lo :: ip' => (hi * 256 + lo)%N :: groups ip'
  | _ => []
  end.

(** Length of the run of zero groups at the head of [g]. *)
Fixpoint zeroRun (g : list N) : nat :=
  match g with
  | 0%N :: g' => S (zeroRun g')
  | _ => 0
  end.

(** The first longest run of at least two zero groups, as (start, end);
    [i] is the index of the head of [g]. *)
Fixpoint longestZeros (i : nat) (g : list N) (best : option (nat * nat)) : option (nat * nat) :=
  match g with
  | [] => best
  | _ :: g' =>
    let l := zeroRun g in
    let longer := match best with
                  | None => true
                  | Some (s, e) => e - s <? l
                  end in
    longestZeros (S i) g' (if (2 <=? l) && longer then Some (i, i + l) else best)
  end.

(** The text of the groups from index [i] on: [::] stands for the run [z],
    the other groups are separated by colons. *)
Fixpoint text6 (z : option (nat * nat)) (i : nat) (g : list N) : string :=
  match g with
  | [] => ""
  | v :: g' =>
    let inRun := match z with Some (s, e) => (s <=? i) && (i <? e) | None => false end in
    let atStart := match z with Some (s, _) => i =? s | None => false end in
    let atEnd := match z with Some (_, e) => i =? e | None => false end in
    (if inRun then (if atStart then "::" else "")
     else (if (0 <? i) && negb atEnd then ":" else "") +:+ hex16 v)
    +:+ text6 z (S i) g'
  end.

(** [ip.String()]. *)
Definition IP_String (ip : IP) : string :=
  if length ip =? 0 then "<nil>"
  else if negb (length ip =? IPv4len) && negb (length ip =? IPv6len) then
    "?" +:+ hexString ip
  else match To4 ip with
       | [a; b; c; d] => dotted a b c d
       | _ => text6 (longestZeros 0 (groups ip) None) 0 (groups ip)
       end.

(** The IPv4-mapped 16-byte form [net.ParseIP] returns for an IPv4 text. *)
Definition IPv4 (a b c d : N) : IP :=
  [0; 0; 0; 0; 0; 0; 0; 0; 0; 0; 255; 255; a; b; c; d]%N.

(** The part of package [net] that is not modelled here in full: the
    address parser.  The properties below hold for every parser. *)
Class Parser := { ParseIP : string -> IP }.

(** ** A parser instance for concrete runs

    [net.ParseIP] on a text without a colon is the dotted-decimal parser
    of package [netip] ([parseIPv4Fields]): four fields of decimal digits,
    none with a leading zero, each at most 255.  Texts with a colon (IPv6)
    are outside this instance, which answers [nil] for them. *)
Record v4state := { val : N; digLen : nat; pos : nat; fields : list N }.

(** [first]: at index 0; [prevDot]: the previous byte was a dot. *)
Fixpoint parseIPv4Fields (s : list ascii) (first prevDot : bool) (st : v4state) : option (list N) :=
  match s with
  | [] =>
    if pos st <? 3 then None else Some (fields st ++ [val st])
  | c :: s' =>
    if Bytes.between 48 57 c then
      if (digLen st =? 1) && (val st =? 0)%N then None
      else
        let v := (val st * 10 + (Bytes.code c - 48))%N in
        if (255 <? v)%N then None
        else parseIPv4Fields s' false false
               {| val := v; digLen := S (digLen st); pos := pos st; fields := fields st |}
    else if Ascii.eqb c "."%char then
      if first || (match s' with [] => true | _ => false end) || prevDot then None
      else if pos st =? 3 then None
      else parseIPv4Fields s' false true
             {| val := 0; digLen := 0; pos := S (pos st); fields := fields st ++ [val st] |}
    else None
  end.

Definition parseIPv4 (s : string) : IP :=
  match parseIPv4Fields (Bytes.to_list s) true false
          {| val := 0; digLen := 0; pos := 0; fields := [] |} with
  | Some [a; b; c; d] => IPv4 a b c d
  | _ => []
  end.

Definition dottedParser : Parser := {| ParseIP := parseIPv4 |}.

End net.

(* ================================================================== *)
(** * Package [dns] (github.com/miekg/dns): messages *)

Module dns.

Definition TypeA : N := 1.
Definition ClassINET : N := 1.
Definition OpcodeQuery : N := 0.
Definition RcodeSuccess : N := 0.

Record Question := { Name : string; Qtype : N; Qclass : N }.

(** [Hdr_Name] is the field [Name] of [dns.RR_Header]. *)
Record RR_Header := { Hdr_Name : string; Rrtype : N; Class : N; Ttl : N }.

(** A resource record; the program only builds A records. *)
Inductive RR : Type :=
| A (Hdr : RR_Header) (a : net.IP)
| Other (Hdr : RR_Header) (rdata : list N).

(** [dns.Msg] with its header fields; [Questions] is the field
    [Question]. *)
Record Msg := {
  Id : N;
  Response : bool;
  Opcode : N;
  Authoritative : bool;
  Truncated : bool;
  RecursionDesired : bool;
  RecursionAvailable : bool;
  Zero : bool;
  AuthenticatedData : bool;
  CheckingDisabled : bool;
  Rcode : N;
  Compress : bool;
  Questions : list Question;
  Answer : list RR;
  Ns : list RR;
  Extra : list RR
}.

(** [new(dns.Msg)], [&dns.Msg{}]: the zero message. *)
Definition zero : Msg :=
  {| Id := 0; Response := false; Opcode := 0; Authoritative := false;
     Truncated := false; RecursionDesired := false; RecursionAvailable := false;
     Zero := false; AuthenticatedData := false; CheckingDisabled := false;
     Rcode := 0; Compress := false; Questions := []; Answer := []; Ns := [];
     Extra := [] |}.

(** [m.SetReply(request)]: turns [m] into a reply to [request]: the id,
    the opcode and (for a query) the RD and CD bits are copied, the
    response bit is set, the rcode is success, the first question is
    copied; the other fields of [m] are left alone. *)
Definition SetReply (m request : Msg) : Msg :=
  let isQuery := (Opcode request =? OpcodeQuery)%N in
  {| Id := Id request;
     Response := true;
     Opcode := Opcode request;
     Authoritative := Authoritative m;
     Truncated := Truncated m;
     RecursionDesired := if isQuery then RecursionDesired request else RecursionDesired m;
     RecursionAvailable := RecursionAvailable m;
     Zero := Zero m;
     AuthenticatedData := AuthenticatedData m;
     CheckingDisabled := if isQuery then CheckingDisabled request else CheckingDisabled m;
     Rcode := RcodeSuccess;
     Compress := Compress m;
     Questions := match Questions request with
                  | q :: _ => [q]
                  | [] => Questions m
                  end;
     Answer := Answer m;
     Ns := Ns m;
     Extra := Extra m |}.

End dns.

(* ================================================================== *)
(** * Docker API types (github.com/docker/docker/api/types) *)

Module network.
(** [network.EndpointSettings]: the program reads the address only. *)
Record EndpointSettings := { IPAddress : string }.
End network.

Module container.
(** [container.Summary]: [Networks] is [NetworkSettings.Networks]. *)
Record Summary := {
  Names : list string;
  Image : string;
  Labels : list (string * string);
  Networks : gmap string network.EndpointSettings
}.
End container.

(** [v, ok := m[key]] on a label map: the value (or the zero value, the
    empty string) and whether the key is present. *)
Fixpoint mapIndex (m : list (string * string)) (key : string) : string * bool :=
  match m with
  | [] => ("", false)
  | (k, v) :: m' => if String.eqb k key then (v, true) else mapIndex m' key
  end.

(** A Go map has one entry per key. *)
Definition labelsOK (m : list (string * string)) : Prop := NoDup (m.*1).

(* ================================================================== *)
(** * Effects: log output and run-time panics *)

Inductive Level : Type := Debug | Info | Warn | Error.

Definition Entry : Type := Level * string.

(** A computation yields a value, or panics ([None]); either way it has
    written log entries. *)
Definition M (A : Type) : Type := option A * list Entry.

Definition ret {A} (a : A) : M A := (Some a, []).

Definition bind {A B} (m : M A) (f : A -> M B) : M B :=
  match m with
  | (Some a, l) => let '(r, l') := f a in (r, l ++ l')
  | (None, l) => (None, l)
  end.

Definition panic {A} : M A := (None, []).

Definition logf (lvl : Level) (msg : string) : M unit := (Some tt, [(lvl, msg)]).

Declare Scope go_scope.
Delimit Scope go_scope with go.
Notation "x <- m ; k" := (bind m (fun x => k))
  (at level 20, m at level 100, k at level 200, only parsing) : go_scope.
Notation "m ;; k" := (bind m (fun _ => k))
  (at level 100, k at level 200, only parsing, right associativity) : go_scope.
Local Open Scope go_scope.

(** [xs[0]]: an index out of range panics. *)
Definition index0 {A} (xs : list A) : M A :=
  match xs with
  | x :: _ => ret x
  | [] => panic
  end.

(** [%d] of a length. *)
Definition itoa (n : nat) : string := NilEmpty.string_of_uint (Nat.to_uint n).

(* ================================================================== *)
(** * The program *)

Record Service := {
  ContainerName : string;
  HostnameLabel : string;
  IPAddress : net.IP
}.

(** [traefikRe.FindStringSubmatch], with [traefikRe] the compiled
    [TraefikLabelRegex]. *)
Definition traefikRe_FindStringSubmatch (s : string) : list string :=
  regexp.FindStringSubmatch Pattern.TraefikLabelRegex s.

(** The loop variables the label scan of [discover] assigns to. *)
Record scan := {
  hostname : string;
  routed : bool;
  discovered : list Service
}.

Section Program.
Context `{net.Parser}.

(** [makeResponse(h, ip)]. *)
Definition makeResponse (h : string) (ip : net.IP) : M dns.Msg :=
  logf Debug ("Creating DNS response for: " +:+ h) ;;
  let records :=
    [dns.A {| dns.Hdr_Name := h; dns.Rrtype := dns.TypeA;
              dns.Class := dns.ClassINET; dns.Ttl := 3600 |} ip] in
  let m := dns.SetReply dns.zero dns.zero in
  ret {| dns.Id := dns.Id m;
         dns.Response := dns.Response m;
         dns.Opcode := dns.Opcode m;
         dns.Authoritative := true;
         dns.Truncated := dns.Truncated m;
         dns.RecursionDesired := dns.RecursionDesired m;
         dns.RecursionAvailable := true;
         dns.Zero := dns.Zero m;
         dns.AuthenticatedData := dns.AuthenticatedData m;
         dns.CheckingDisabled := dns.CheckingDisabled m;
         dns.Rcode := dns.Rcode m;
         dns.Compress := false;
         dns.Questions := dns.Questions m;
         dns.Answer := records;
         dns.Ns := dns.Ns m;
         dns.Extra := dns.Extra m |}.

(** The [for] loop of [discoverTraefik] over the containers that
    [getContainers] returned. *)
Fixpoint discoverTraefikLoop (containers : list container.Summary) : M (option Service) :=
  match containers with
  | [] => ret None
  | c :: rest =>
    imageName <- index0 (strings.Split (container.Image c) ":"%char) ;
    if negb (String.eqb imageName "traefik") then discoverTraefikLoop rest
    else
      let '(ipAddressLabel, ok) := mapIndex (container.Labels c) "com.autodns.ip" in
      if ok && negb (String.eqb ipAddressLabel "") then
        n <- index0 (container.Names c) ;
        logf Info ("Container `" +:+ n +:+ "` has its own IP address specified: `"
                   +:+ ipAddressLabel +:+ "`") ;;
        n <- index0 (container.Names c) ;
        ret (Some {| ContainerName := n;
                     HostnameLabel := "traefik";
                     IPAddress := net.ParseIP ipAddressLabel |})
      else
        let '(network, ok) := mapIndex (container.Labels c) "com.autodns.network" in
        let network := if negb ok then "bridge" else network in
        match container.Networks c !! network with
        | None =>
          n <- index0 (container.Names c) ;
          logf Warn ("Container `" +:+ n +:+ "` is not on network `" +:+ network
                     +:+ "`, skipping") ;;
          discoverTraefikLoop rest
        | Some ep =>
          let ip := network.IPAddress ep in
          if String.eqb ip "" then
            n <- index0 (container.Names c) ;
            logf Warn ("Container `" +:+ n +:+ "` does not have an IP address in network `"
                       +:+ network +:+ "`, skipping") ;;
            discoverTraefikLoop rest
          else
            n <- index0 (container.Names c) ;
            logf Info ("Found Traefik service in container `" +:+ n +:+ "` with IP `"
                       +:+ ip +:+ "` on network `" +:+ network +:+ "`") ;;
            n <- index0 (container.Names c) ;
            ret (Some {| ContainerName := n;
                         HostnameLabel := "traefik";
                         IPAddress := net.ParseIP ip |})
        end
  end.

(** [discoverTraefik()]; [containers] is what its call of [getContainers]
    returned (a failed call ends the process). *)
Definition discoverTraefik (containers : list container.Summary) : M (option Service) :=
  logf Info "Searching for Traefik services..." ;;
  discoverTraefikLoop containers.

(** The inner loop of [discover], [for label, value := range
    container.Labels]; its [continue] statements go on with the next
    label. *)
Fixpoint scanLabels (traefikIP : option Service) (c : container.Summary)
    (labels : list (string * string)) (st : scan) : M scan :=
  match labels with
  | [] => ret st
  | (label, value) :: rest =>
    let matches := traefikRe_FindStringSubmatch (label +:+ "=" +:+ value) in
    if length matches =? 3 then
      let hostname' := nth 2 matches "" in
      n <- index0 (container.Names c) ;
      logf Debug ("Extracted Traefik hostname `" +:+ hostname' +:+ "` for service `"
                  +:+ nth 1 matches "" +:+ "` from container `" +:+ n +:+ "`") ;;
      match traefikIP with
      | None =>
        n <- index0 (container.Names c) ;
        logf Warn ("Container `" +:+ n +:+ "` has Traefik hostname `" +:+ hostname'
                   +:+ "`, but no Traefik service discovered, skipping") ;;
        scanLabels traefikIP c rest
          {| hostname := hostname'; routed := routed st; discovered := discovered st |}
      | Some t =>
        n <- index0 (container.Names c) ;
        let discovered' :=
          discovered st ++ [{| ContainerName := n;
                               HostnameLabel := hostname';
                               IPAddress := IPAddress t |}] in
        n <- index0 (container.Names c) ;
        logf Debug ("Container `" +:+ n +:+ "` has Traefik hostname `" +:+ hostname'
                    +:+ "`, routing to Traefik IP `" +:+ net.IP_String (IPAddress t)
                    +:+ "`") ;;
        scanLabels traefikIP c rest
          {| hostname := hostname'; routed := true; discovered := discovered' |}
      end
    else scanLabels traefikIP c rest st
  end.

(** The end of an iteration of the outer loop of [discover], from
    [// Check if the container wants its own IP address] on: the address
    of a container that is not routed to the proxy, for its [hostname]. *)
Definition resolveAddress (c : container.Summary) (hostname : string)
    (discovered : list Service) : M (list Service) :=
  let '(ipAddressLabel, ok) := mapIndex (container.Labels c) "com.autodns.ip" in
  if ok && negb (String.eqb ipAddressLabel "") then
    n <- index0 (container.Names c) ;
    logf Info ("Container `" +:+ n +:+ "` has its own IP address specified: `"
               +:+ ipAddressLabel +:+ "`") ;;
    n <- index0 (container.Names c) ;
    ret (discovered ++ [{| ContainerName := n;
                           HostnameLabel := hostname;
                           IPAddress := net.ParseIP ipAddressLabel |}])
  else
    let '(network, ok) := mapIndex (container.Labels c) "com.autodns.network" in
    let network := if negb ok then "bridge" else network in
    match container.Networks c !! network with
    | None =>
      n <- index0 (container.Names c) ;
      logf Warn ("Container `" +:+ n +:+ "` is not on network `" +:+ network
                 +:+ "`, skipping") ;;
      ret discovered
    | Some ep =>
      n <- index0 (container.Names c) ;
      ret (discovered ++ [{| ContainerName := n;
                             HostnameLabel := hostname;
                             IPAddress := net.ParseIP (network.IPAddress ep) |}])
    end.

(** One iteration of the outer loop of [discover]: the value of
    [discovered] after the container [c]. *)
Definition discoverContainer (traefikIP : option Service) (c : container.Summary)
    (discovered0 : list Service) : M (list Service) :=
  let '(hostname0, ok) := mapIndex (container.Labels c) "com.autodns.hostname" in
  let st0 := {| hostname := hostname0; routed := false; discovered := discovered0 |} in
  st <- (if negb ok || String.eqb hostname0 ""
         then scanLabels traefikIP c (container.Labels c) st0
         else ret st0) ;
  if routed st then ret (discovered st)
  else if String.eqb (hostname st) "" then ret (discovered st)
  else resolveAddress c (hostname st) (discovered st).

Fixpoint discoverLoop (traefikIP : option Service) (containers : list container.Summary)
    (discovered0 : list Service) : M (list Service) :=
  match containers with
  | [] => ret discovered0
  | c :: rest =>
    discovered1 <- discoverContainer traefikIP c discovered0 ;
    discoverLoop traefikIP rest discovered1
  end.

Fixpoint logServices (services : list Service) : M unit :=
  match services with
  | [] => ret tt
  | service :: rest =>
    logf Info (" - " +:+ ContainerName service +:+ " (" +:+ HostnameLabel service
               +:+ ") -> " +:+ net.IP_String (IPAddress service)) ;;
    logServices rest
  end.

(** [discover()]; [containers] is the inventory both calls of
    [getContainers] (here and in [discoverTraefik]) returned. *)
Definition discover (containers : list container.Summary) : M (list Service) :=
  logf Info "Discovering services..." ;;
  traefikIP <- discoverTraefik containers ;
  discovered1 <- discoverLoop traefikIP containers [] ;
  logf Info ("Discovered " +:+ itoa (length discovered1) +:+ " services:") ;;
  logServices discovered1 ;;
  ret discovered1.

(** The loop of [main] that fills [serviceMap]. *)
Definition buildServiceMap (services : list Service) : gmap string string :=
  foldl (fun serviceMap service =>
           <[HostnameLabel service +:+ "." := net.IP_String (IPAddress service)]> serviceMap)
        ∅ services.

(** The start of [main] up to the table: discovery, then the map. *)
Definition mainTable (containers : list container.Summary) : M (gmap string string) :=
  logf Info "Starting AutoDNS..." ;;
  services <- discover containers ;
  (if length services =? 0
   then logf Warn "No services discovered, DNS server will not respond to queries"
   else ret tt) ;;
  ret (buildServiceMap services).

(** The handler [main] registers for every name: the message it hands to
    [w.WriteMsg], if any; [writeOK] is whether that write succeeds. *)
Definition handler (serviceMap : gmap string string) (writeOK : bool) (r : dns.Msg)
    : M (option dns.Msg) :=
  match dns.Questions r with
  | [] =>
    logf Warn "Received DNS query with no questions" ;;
    ret None
  | q :: _ =>
    let name := dns.Name q in
    match serviceMap !! name with
    | None =>
      logf Warn ("No service found for hostname: " +:+ name) ;;
      let m := dns.SetReply dns.zero r in
      ret (Some m)
    | Some ip =>
      resp <- makeResponse name (net.ParseIP ip) ;
      let resp := dns.SetReply resp r in
      if negb writeOK then
        logf Error ("Failed to write DNS response for " +:+ name) ;;
        ret (Some resp)
      else
        logf Info ("DNS response sent for " +:+ name +:+ ": " +:+ ip) ;;
        ret (Some resp)
    end
  end.

End Program.

Arguments traefikRe_FindStringSubmatch : simpl never.

(* ================================================================== *)
(** * Notions used in the statements *)

(** The host a label carries as a routing rule, if it matches the
    pattern: the test [len(matches) == 3] and [matches[2]] of the scan. *)
Definition ruleHost (kv : string * string) : option string :=
  let matches := traefikRe_FindStringSubmatch (kv.1 +:+ "=" +:+ kv.2) in
  if length matches =? 3 then Some (nth 2 matches "") else None.

(** The hosts of all matching labels, in iteration order. *)
Definition ruleHosts (labels : list (string * string)) : list string :=
  omap ruleHost labels.

(** The explicit hostname of a container, when the label is present and
    not empty. *)
Definition explicitHostname (c : container.Summary) : option string :=
  let '(h, ok) := mapIndex (container.Labels c) "com.autodns.hostname" in
  if ok && negb (String.eqb h "") then Some h else None.

(** The address override, when the label is present and not empty. *)
Definition ipOverride (c : container.Summary) : option string :=
  let '(v, ok) := mapIndex (container.Labels c) "com.autodns.ip" in
  if ok && negb (String.eqb v "") then Some v else None.

(** The network the address is read from. *)
Definition selectedNetwork (c : container.Summary) : string :=
  let '(network, ok) := mapIndex (container.Labels c) "com.autodns.network" in
  if negb ok then "bridge" else network.

(** The name before the first colon of the image reference. *)
Definition imageName (c : container.Summary) : string :=
  hd "" (strings.Split (container.Image c) ":"%char).

(** What one matching label does to the loop variables of the scan, for
    a container named [n], and what the whole scan leaves in them. *)
Definition scanStep (traefikIP : option Service) (n : string) (st : scan)
    (kv : string * string) : scan :=
  match ruleHost kv with
  | None => st
  | Some h =>
    match traefikIP with
    | None => {| hostname := h; routed := routed st; discovered := discovered st |}
    | Some t =>
      {| hostname := h; routed := true;
         discovered := discovered st ++
                       [{| ContainerName := n; HostnameLabel := h;
                           IPAddress := IPAddress t |}] |}
    end
  end.

Definition scanResult (traefikIP : option Service) (n : string)
    (labels : list (string * string)) (st : scan) : scan :=
  foldl (scanStep traefikIP n) st labels.

(** [container.Names[0]] when there is one. *)
Definition name0 (c : container.Summary) : string := hd "" (container.Names c).

(** The container has a name, so [container.Names[0]] does not panic. *)
Definition named (c : container.Summary) : Prop := container.Names c <> [].

Section Results.
Context `{net.Parser}.

Definition service (n h : string) (ip : net.IP) : Service :=
  {| ContainerName := n; HostnameLabel := h; IPAddress := ip |}.

(** The value of [discovered] after the address part of an iteration of
    [discover], for the hostname [h]. *)
Definition selfResolve (n h : string) (c : container.Summary) (d : list Service)
    : list Service :=
  match ipOverride c with
  | Some v => d ++ [service n h (net.ParseIP v)]
  | None =>
    match container.Networks c !! selectedNetwork c with
    | None => d
    | Some ep => d ++ [service n h (net.ParseIP (network.IPAddress ep))]
    end
  end.

(** The value of [discovered] after the iteration for [c], named [n]. *)
Definition containerResult (traefikIP : option Service) (n : string)
    (c : container.Summary) (d : list Service) : list Service :=
  match explicitHostname c with
  | Some h => selfResolve n h c d
  | None =>
    let st := scanResult traefikIP n (container.Labels c)
                {| hostname := ""; routed := false; discovered := d |} in
    if routed st then discovered st
    else if String.eqb (hostname st) "" then discovered st
    else selfResolve n (hostname st) c (discovered st)
  end.

(** The Services one container adds. *)
Definition servicesOf (traefikIP : option Service) (c : container.Summary) : list Service :=
  containerResult traefikIP (name0 c) c [].

(** The text the proxy address is parsed from, for a container that
    [discoverTraefik] accepts: a [traefik] image with an override, or
    with a non-empty address on the selected network. *)
Definition proxyAddressText (c : container.Summary) : option string :=
  if String.eqb (imageName c) "traefik" then
    match ipOverride c with
    | Some v => Some v
    | None =>
      match container.Networks c !! selectedNetwork c with
      | Some ep =>
        if String.eqb (network.IPAddress ep) "" then None
        else Some (network.IPAddress ep)
      | None => None
      end
    end
  else None.

Definition proxyOf (c : container.Summary) : option Service :=
  match proxyAddressText c with
  | Some a => Some (service (name0 c) "traefik" (net.ParseIP a))
  | None => None
  end.

(** The first container in inventory order that [discoverTraefik]
    accepts. *)
Fixpoint findProxy (containers : list container.Summary) : option Service :=
  match containers with
  | [] => None
  | c :: rest =>
    match proxyOf c with
    | Some p => Some p
    | None => findProxy rest
    end
  end.

End Results.

(* ================================================================== *)
(** * The language of a pattern, and the shape of a routing rule *)

Module regexpSem.
Import regexp.

(** The language of a pattern without [.] and without groups. *)
Inductive Matches : Regexp -> list ascii -> Prop :=
| MLit c : Matches (Lit c) [c]
| MClass ranges c : inClass ranges c = true -> Matches (CharClass ranges) [c]
| MConcat r1 r2 s1 s2 :
    Matches r1 s1 -> Matches r2 s2 -> Matches (Concat r1 r2) (s1 ++ s2)
| MAltL r1 r2 s : Matches r1 s -> Matches (Alternate r1 r2) s
| MAltR r1 r2 s : Matches r2 s -> Matches (Alternate r1 r2) s
| MStarNil r : Matches (Star r) []
| MStarCons r s1 s2 :
    Matches r s1 -> Matches (Star r) s2 -> Matches (Star r) (s1 ++ s2).

Fixpoint plain (r : Regexp) : bool :=
  match r with
  | Lit _ | CharClass _ => true
  | AnyCharNotNL | Capture _ _ => false
  | Concat r1 r2 | Alternate r1 r2 => plain r1 && plain r2
  | Star r1 => plain r1
  end.

(** The bytes the words of a plain pattern are made of. *)
Fixpoint mayContain (r : Regexp) (c : ascii) : bool :=
  match r with
  | Lit a => Ascii.eqb c a
  | CharClass ranges => inClass ranges c
  | AnyCharNotNL => true
  | Concat r1 r2 | Alternate r1 r2 => mayContain r1 c || mayContain r2 c
  | Star r1 | Capture _ r1 => mayContain r1 c
  end.

End regexpSem.

(** The shape of a routing rule: the router name is made of word
    characters, dashes and underscores; the domain is made of labels
    separated by dots, each starting with a letter, ending with a letter
    or a digit, with letters, digits and dashes in between. *)
Module Rule.
Import regexp Pattern.

Definition isRouterName (s : string) : bool :=
  negb (String.eqb s "") && forallb (inClass routerClass) (Bytes.to_list s).

Definition isDNSLabel (l : string) : bool :=
  match Bytes.to_list l with
  | [] => false
  | a :: rest =>
    inClass alpha a &&
    match rest with
    | [] => true
    | _ => forallb (inClass alnumDash) (removelast rest) && inClass alnum (List.last rest a)
    end
  end.

Definition isDomain (s : string) : bool :=
  forallb isDNSLabel (strings.Split s "."%char).

(** The label key and value of the rule for router [name] and host [fqdn]. *)
Definition key (name : string) : string := "traefik.http.routers." +:+ name +:+ ".rule".
Definition value (fqdn : string) : string := "Host(`" +:+ fqdn +:+ "`)".

End Rule.


(* ================================================================== *)
(** * Sample inventories *)

Module Samples.

Definition attach (nets : list (string * string)) : gmap string network.EndpointSettings :=
  list_to_map (map (fun p => (p.1, {| network.IPAddress := p.2 |})) nets).

Definition mk (name image : string) (labels nets : list (string * string))
    : container.Summary :=
  {| container.Names := [name]; container.Image := image;
     container.Labels := labels; container.Networks := attach nets |}.

(** An explicit hostname on the default network. *)
Definition web1 : container.Summary :=
  mk "web1" "nginx:latest" [("com.autodns.hostname", "app.local")]
     [("bridge", "172.17.0.5")].

(** The proxy. *)
Definition proxy1 : container.Summary :=
  mk "proxy1" "traefik:v2" [] [("bridge", "172.17.0.9")].

(** A proxy image without any network attachment. *)
Definition proxy0 : container.Summary := mk "proxy0" "traefik:v3" [] [].

(** A container behind the proxy: one routing rule, no explicit hostname. *)
Definition svc1 : container.Summary :=
  mk "svc1" "whoami" [(Rule.key "svc", Rule.value "site.io")]
     [("bridge", "172.17.0.7")].

(** Two routing rules on one container. *)
Definition svc2 : container.Summary :=
  mk "svc2" "whoami"
     [(Rule.key "a", Rule.value "a.io"); (Rule.key "b", Rule.value "b.io")]
     [("bridge", "172.17.0.8")].

(** An explicit hostname equal to the host of [svc1]'s rule. *)
Definition web2 : container.Summary :=
  mk "web2" "nginx:latest" [("com.autodns.hostname", "site.io")]
     [("bridge", "172.17.0.6")].

(** An address override that is not an address. *)
Definition bad : container.Summary :=
  mk "bad" "whoami"
     [("com.autodns.hostname", "bad.local"); ("com.autodns.ip", "not-an-ip")]
     [("bridge", "172.17.0.8")].

(** An explicit hostname, attached to another network than the selected one. *)
Definition lonely : container.Summary :=
  mk "lonely" "whoami" [("com.autodns.hostname", "lonely.local")]
     [("backend", "10.0.0.4")].


(** An explicit hostname next to a routing rule. *)
Definition both : container.Summary :=
  mk "both" "whoami"
     [(Rule.key "svc", Rule.value "site.io"); ("com.autodns.hostname", "app.local")]
     [("bridge", "172.17.0.4")].

(** The hostname label present and empty, next to a routing rule. *)
Definition hollow : container.Summary :=
  mk "hollow" "whoami"
     [("com.autodns.hostname", ""); (Rule.key "svc", Rule.value "site.io")]
     [("bridge", "172.17.0.2")].

(** A query for [name], type A, class Internet. *)
Definition query (id : N) (name : string) : dns.Msg :=
  {| dns.Id := id; dns.Response := false; dns.Opcode := dns.OpcodeQuery;
     dns.Authoritative := false; dns.Truncated := false;
     dns.RecursionDesired := true; dns.RecursionAvailable := false;
     dns.Zero := false; dns.AuthenticatedData := false;
     dns.CheckingDisabled := false; dns.Rcode := 0; dns.Compress := false;
     dns.Questions := [{| dns.Name := name; dns.Qtype := dns.TypeA;
                          dns.Qclass := dns.ClassINET |}];
     dns.Answer := []; dns.Ns := []; dns.Extra := [] |}.

End Samples.

(** The container without the label [key]. *)
Definition dropLabel (key : string) (c : container.Summary) : container.Summary :=
  {| container.Names := container.Names c;
     container.Image := container.Image c;
     container.Labels := filter (fun kv => kv.1 <> key) (container.Labels c);
     container.Networks := container.Networks c |}.

(** The text the address of a container is parsed from. *)
Definition addressText (c : container.Summary) : option string :=
  match ipOverride c with
  | Some v => Some v
  | None => network.IPAddress <$> container.Networks c !! selectedNetwork c
  end.

(** A dotted-decimal IPv4 text: four bytes in decimal. *)
Definition isIPv4Text (v : string) : Prop :=
  exists w x y z : N,
    (w < 256 /\ x < 256 /\ y < 256 /\ z < 256)%N /\ v = net.dotted w x y z.

(** The log entry of the address part of an iteration. *)
Definition selfLog (n : string) (c : container.Summary) : list Entry :=
  match ipOverride c with
  | Some v => [(Info, "Container `" +:+ n +:+ "` has its own IP address specified: `"
                      +:+ v +:+ "`")]
  | None =>
    match container.Networks c !! selectedNetwork c with
    | None => [(Warn, "Container `" +:+ n +:+ "` is not on network `"
                      +:+ selectedNetwork c +:+ "`, skipping")]
    | Some _ => []
    end
  end.

(** What the proxy search logs for a container it passes over (one
    that is not accepted as the proxy): nothing for another image, a
    warning for a [traefik] image. *)
Definition proxySkipLog (c : container.Summary) : list Entry :=
  if String.eqb (imageName c) "traefik" then
    match container.Networks c !! selectedNetwork c with
    | None =>
      [(Warn, "Container `" +:+ name0 c +:+ "` is not on network `"
              +:+ selectedNetwork c +:+ "`, skipping")]
    | Some _ =>
      [(Warn, "Container `" +:+ name0 c +:+ "` does not have an IP address in network `"
              +:+ selectedNetwork c +:+ "`, skipping")]
    end
  else [].

(** What the proxy search logs for the container it accepts. *)
Definition proxyFoundLog (c : container.Summary) : list Entry :=
  match ipOverride c with
  | Some v =>
    [(Info, "Container `" +:+ name0 c +:+ "` has its own IP address specified: `"
            +:+ v +:+ "`")]
  | None =>
    match container.Networks c !! selectedNetwork c with
    | Some ep =>
      [(Info, "Found Traefik service in container `" +:+ name0 c +:+ "` with IP `"
              +:+ network.IPAddress ep +:+ "` on network `" +:+ selectedNetwork c +:+ "`")]
    | None => []
    end
  end.

(* ================================================================== *)
(** * A run of the matcher as a derivation

    [Derives r s caps s' caps']: the pattern [r] takes a prefix of the
    input [s], leaving [s'], and turns the submatches [caps] into
    [caps'].  Unlike [Matches] it covers [.], whose width depends on the
    bytes that follow, and groups. *)
Module regexpTrace.
Import regexp.

Inductive Derives : Regexp -> list ascii -> Caps -> list ascii -> Caps -> Prop :=
| DLit c s caps : Derives (Lit c) (c :: s) caps s caps
| DAny a s w caps :
    utf8.DecodeRuneWidth (a :: s) = S w -> Ascii.eqb a "010"%char = false ->
    Derives AnyCharNotNL (a :: s) caps (skipn w s) caps
| DClass ranges c s caps :
    inClass ranges c = true -> Derives (CharClass ranges) (c :: s) caps s caps
| DConcat r1 r2 s s1 s2 caps caps1 caps2 :
    Derives r1 s caps s1 caps1 -> Derives r2 s1 caps1 s2 caps2 ->
    Derives (Concat r1 r2) s caps s2 caps2
| DAltL r1 r2 s s' caps caps' :
    Derives r1 s caps s' caps' -> Derives (Alternate r1 r2) s caps s' caps'
| DAltR r1 r2 s s' caps caps' :
    Derives r2 s caps s' caps' -> Derives (Alternate r1 r2) s caps s' caps'
| DStarNil r s caps : Derives (Star r) s caps s caps
| DStarCons r s s1 s2 caps caps1 caps2 :
    Derives r s caps s1 caps1 -> Derives (Star r) s1 caps1 s2 caps2 ->
    Derives (Star r) s caps s2 caps2
| DCapture i r s s' caps caps' :
    Derives r s caps s' caps' ->
    Derives (Capture i r) s caps s' ((i, consumed s s') :: caps').

End regexpTrace.

(* ================================================================== *)
(** * Iteration order of the labels *)

(** [c'] is [c] with its labels met in another iteration order. *)
Definition relabelled (c c' : container.Summary) : Prop :=
  container.Names c' = container.Names c /\
  container.Image c' = container.Image c /\
  container.Networks c' = container.Networks c /\
  container.Labels c' ≡ₚ container.Labels c.

(* ================================================================== *)
(** * The earlier revisions *)

(** [src/unnamed/part_000]: only [com.autodns.hostname] names a
    container, and a Service keeps the address as the text Docker
    reports. *)
Module part_000.

Record Service := {
  ContainerName : string;
  HostnameLabel : string;
  IPAddress : string
}.

(** One iteration of the loop of [discover]. *)
Definition discoverContainer (c : container.Summary) (discovered0 : list Service)
    : M (list Service) :=
  let '(hostname, ok) := mapIndex (container.Labels c) "com.autodns.hostname" in
  if negb ok then
    n <- index0 (container.Names c) ;
    logf Debug ("Container `" +:+ n
                +:+ "` does not have `com.autodns.hostname` label, skipping") ;;
    ret discovered0
  else
    let '(network, ok) := mapIndex (container.Labels c) "com.autodns.network" in
    let network := if negb ok then "bridge" else network in
    match container.Networks c !! network with
    | None =>
      n <- index0 (container.Names c) ;
      logf Warn ("Container `" +:+ n +:+ "` is not on network `" +:+ network
                 +:+ "`, skipping") ;;
      ret discovered0
    | Some ep =>
      n <- index0 (container.Names c) ;
      ret (discovered0 ++ [{| ContainerName := n;
                              HostnameLabel := hostname;
                              IPAddress := network.IPAddress ep |}])
    end.

Fixpoint discoverLoop (containers : list container.Summary) (discovered0 : list Service)
    : M (list Service) :=
  match containers with
  | [] => ret discovered0
  | c :: rest =>
    discovered1 <- discoverContainer c discovered0 ;
    discoverLoop rest discovered1
  end.

(** [discover()]; [containers] is what [cli.ContainerList] returned. *)
Definition discover (containers : list container.Summary) : M (list Service) :=
  logf Info "Discovering services..." ;;
  discovered1 <- discoverLoop containers [] ;
  logf Info ("Discovered " +:+ itoa (length discovered1) +:+ " services") ;;
  ret discovered1.

(** The loop of [main] that fills [serviceMap]: the value is the address
    text as it is. *)
Definition buildServiceMap (services : list Service) : gmap string string :=
  foldl (fun serviceMap service =>
           <[HostnameLabel service +:+ "." := IPAddress service]> serviceMap)
        ∅ services.

(** The start of [main] up to the table. *)
Definition mainTable (containers : list container.Summary) : M (gmap string string) :=
  logf Info "Starting AutoDNS..." ;;
  services <- discover containers ;
  (if length services =? 0
   then logf Warn "No services discovered, DNS server will not respond to queries"
   else ret tt) ;;
  ret (buildServiceMap services).

(** What a named container adds. *)
Definition serviceOf (c : container.Summary) : option Service :=
  let '(h, ok) := mapIndex (container.Labels c) "com.autodns.hostname" in
  if ok then
    (fun ep => {| ContainerName := name0 c; HostnameLabel := h;
                  IPAddress := network.IPAddress ep |})
      <$> container.Networks c !! selectedNetwork c
  else None.

End part_000.

(** [src/main.go]: the routing rules are read, the scan stops at the
    first label that matches; there is no proxy and no address override.
    [Service], the table loop of [main] and its handler are those of
    [part_000], word for word. *)
Module main_go.

Definition Service : Type := part_000.Service.

(** The inner loop of [discover]: [break] at the first match. *)
Fixpoint scanLabels (c : container.Summary) (labels : list (string * string))
    (hostname : string) : M string :=
  match labels with
  | [] => ret hostname
  | (label, value) :: rest =>
    let matches := traefikRe_FindStringSubmatch (label +:+ "=" +:+ value) in
    if length matches =? 3 then
      let hostname' := nth 2 matches "" in
      n <- index0 (container.Names c) ;
      logf Debug ("Extracted Traefik hostname '" +:+ hostname' +:+ "' from container '"
                  +:+ n +:+ "'") ;;
      ret hostname'
    else scanLabels c rest hostname
  end.

(** One iteration of the outer loop of [discover]. *)
Definition discoverContainer (c : container.Summary) (discovered0 : list Service)
    : M (list Service) :=
  let '(hostname0, ok) := mapIndex (container.Labels c) "com.autodns.hostname" in
  hostname <- (if negb ok || String.eqb hostname0 ""
               then scanLabels c (container.Labels c) hostname0
               else ret hostname0) ;
  if String.eqb hostname "" then
    n <- index0 (container.Names c) ;
    logf Debug ("Container `" +:+ n
                +:+ "` does not have autodns or Traefik hostname, skipping") ;;
    ret discovered0
  else
    let '(network, ok) := mapIndex (container.Labels c) "com.autodns.network" in
    let network := if negb ok then "bridge" else network in
    match container.Networks c !! network with
    | None =>
      n <- index0 (container.Names c) ;
      logf Warn ("Container `" +:+ n +:+ "` is not on network `" +:+ network
                 +:+ "`, skipping") ;;
      ret discovered0
    | Some ep =>
      n <- index0 (container.Names c) ;
      ret (discovered0 ++ [{| part_000.ContainerName := n;
                              part_000.HostnameLabel := hostname;
                              part_000.IPAddress := network.IPAddress ep |}])
    end.

Fixpoint discoverLoop (containers : list container.Summary) (discovered0 : list Service)
    : M (list Service) :=
  match containers with
  | [] => ret discovered0
  | c :: rest =>
    discovered1 <- discoverContainer c discovered0 ;
    discoverLoop rest discovered1
  end.

Fixpoint logServices (services : list Service) : M unit :=
  match services with
  | [] => ret tt
  | service :: rest =>
    logf Info (" - " +:+ part_000.ContainerName service +:+ " ("
               +:+ part_000.HostnameLabel service +:+ ") -> "
               +:+ part_000.IPAddress service) ;;
    logServices rest
  end.

(** [discover()]; [containers] is what [cli.ContainerList] returned. *)
Definition discover (containers : list container.Summary) : M (list Service) :=
  logf Info "Discovering services..." ;;
  discovered1 <- discoverLoop containers [] ;
  logf Info ("Discovered " +:+ itoa (length discovered1) +:+ " services:") ;;
  logServices discovered1 ;;
  ret discovered1.

(** The start of [main] up to the table. *)
Definition mainTable (containers : list container.Summary) : M (gmap string string) :=
  logf Info "Starting AutoDNS..." ;;
  services <- discover containers ;
  (if length services =? 0
   then logf Warn "No services discovered, DNS server will not respond to queries"
   else ret tt) ;;
  ret (part_000.buildServiceMap services).

(** The hostname a container is registered under: the explicit one, else
    the host of the first label that matches the rule pattern; empty when
    there is neither. *)
Definition hostnameOf (c : container.Summary) : string :=
  match explicitHostname c with
  | Some h => h
  | None => hd "" (ruleHosts (container.Labels c))
  end.

(** What a named container adds. *)
Definition serviceOf (c : container.Summary) : option Service :=
  if String.eqb (hostnameOf c) "" then None
  else
    (fun ep => {| part_000.ContainerName := name0 c;
                  part_000.HostnameLabel := hostnameOf c;
                  part_000.IPAddress := network.IPAddress ep |})
      <$> container.Networks c !! selectedNetwork c.

End main_go.

(** More sample containers. *)
Module Cases.

(** A container without a name, a hostname or a routing rule. *)
Definition anonymous : container.Summary :=
  {| container.Names := []; container.Image := "redis:7";
     container.Labels := [("maintainer", "ops")];
     container.Networks := Samples.attach [("bridge", "172.17.0.11")] |}.

(** [Samples.svc2] with its two labels met in the other order. *)
Definition svc2r : container.Summary :=
  Samples.mk "svc2" "whoami"
     [(Rule.key "b", Rule.value "b.io"); (Rule.key "a", Rule.value "a.io")]
     [("bridge", "172.17.0.8")].



End Cases.

(* ================================================================== *)
(** * Properties *)

Section Effects.

Lemma bind_ret_l {A B} (a : A) (f : A -> M B) : bind (ret a) f = f a.
Proof. unfold bind, ret. destruct (f a) as [r l]. reflexivity. Qed.

Lemma bind_logf {B} lvl msg (f : unit -> M B) :
  bind (logf lvl msg) f = ((f tt).1, (lvl, msg) :: (f tt).2).
Proof. unfold bind, logf. destruct (f tt) as [r l]. reflexivity. Qed.

Lemma index0_cons {A} (x : A) xs : index0 (x :: xs) = ret x.
Proof. reflexivity. Qed.

Lemma bind_fst_Some {A B} (m : M A) (f : A -> M B) a :
  m.1 = Some a -> (bind m f).1 = (f a).1.
Proof. destruct m as [[x|] l]; cbn; [|done]. intros [= ->]. by destruct (f a). Qed.

End Effects.

(** Runs the binds of a computation on a container whose name is known. *)
Ltac run_named Hn :=
  repeat (rewrite ?Hn, ?index0_cons, ?bind_ret_l, ?bind_logf; cbn [fst snd]).

(** ** The label scan *)

Section Scan.
Context `{net.Parser}.

Lemma scanLabels_named traefikIP c n ns labels st :
  container.Names c = n :: ns ->
  (scanLabels traefikIP c labels st).1 = Some (scanResult traefikIP n labels st).
Proof.
  intros Hn. revert st.
  induction labels as [|[label value] rest IH]; intros st; [reflexivity|].
  cbn [scanLabels]. unfold scanResult. cbn [foldl].
  unfold scanStep at 2, ruleHost. cbn [fst snd].
  destruct (length (traefikRe_FindStringSubmatch (label +:+ "=" +:+ value)) =? 3).
  - destruct traefikIP as [t|]; run_named Hn; apply IH.
  - apply IH.
Qed.

Lemma last_cons_default {A} (x d : A) l : List.last (x :: l) d = List.last l x.
Proof.
  revert x d. induction l as [|y l IH]; intros x d; [reflexivity|].
  change (List.last (y :: l) d = List.last (y :: l) x). by rewrite !IH.
Qed.

Lemma scanResult_hostname traefikIP n labels st :
  hostname (scanResult traefikIP n labels st) = List.last (ruleHosts labels) (hostname st).
Proof.
  revert st. induction labels as [|kv rest IH]; intros st; [reflexivity|].
  unfold scanResult in *. cbn [foldl]. rewrite IH.
  unfold ruleHosts, scanStep. cbn [omap list_omap].
  destruct (ruleHost kv) as [h|]; [|reflexivity].
  rewrite last_cons_default. by destruct traefikIP.
Qed.

Lemma scanResult_None n labels st :
  routed (scanResult None n labels st) = routed st /\
  discovered (scanResult None n labels st) = discovered st.
Proof.
  revert st. induction labels as [|kv rest IH]; intros st; [done|].
  unfold scanResult in *. cbn [foldl].
  destruct (IH (scanStep None n st kv)) as [-> ->].
  unfold scanStep. destruct (ruleHost kv); done.
Qed.

Lemma scanResult_Some t n labels st :
  routed (scanResult (Some t) n labels st)
    = routed st || negb (length (ruleHosts labels) =? 0) /\
  discovered (scanResult (Some t) n labels st) =
    discovered st ++ map (fun h => service n h (IPAddress t)) (ruleHosts labels).
Proof.
  revert st. induction labels as [|kv rest IH]; intros st.
  - cbn. by rewrite orb_false_r, app_nil_r.
  - unfold scanResult in *. cbn [foldl].
    destruct (IH (scanStep (Some t) n st kv)) as [-> ->].
    unfold scanStep, ruleHosts. cbn [omap list_omap].
    destruct (ruleHost kv); cbn; [|done].
    by rewrite orb_true_r, <- app_assoc.
Qed.

Lemma scan_eta (st : scan) :
  st = {| hostname := hostname st; routed := routed st; discovered := discovered st |}.
Proof. by destruct st. Qed.

(** The scan in closed form: the last matching host; with a proxy, one
    Service per matching label. *)
Lemma scanResult_eq traefikIP n labels st :
  scanResult traefikIP n labels st =
  {| hostname := List.last (ruleHosts labels) (hostname st);
     routed := match traefikIP with
               | Some _ => routed st || negb (length (ruleHosts labels) =? 0)
               | None => routed st
               end;
     discovered := match traefikIP with
                   | Some t => discovered st ++ map (fun h => service n h (IPAddress t))
                                                    (ruleHosts labels)
                   | None => discovered st
                   end |}.
Proof.
  rewrite (scan_eta (scanResult _ _ _ _)), scanResult_hostname.
  destruct traefikIP as [t|].
  - by destruct (scanResult_Some t n labels st) as [-> ->].
  - by destruct (scanResult_None n labels st) as [-> ->].
Qed.

Lemma scanResult_app traefikIP n labels h r d :
  scanResult traefikIP n labels {| hostname := h; routed := r; discovered := d |} =
  let st := scanResult traefikIP n labels {| hostname := h; routed := r; discovered := [] |} in
  {| hostname := hostname st; routed := routed st; discovered := d ++ discovered st |}.
Proof.
  rewrite !scanResult_eq. cbn. destruct traefikIP; by rewrite ?app_nil_r.
Qed.

(** Labels that match no rule do not change what the scan leaves. *)
Lemma scanResult_filter traefikIP n (P : string * string -> Prop)
    `{forall kv, Decision (P kv)} labels st :
  (forall kv, kv ∈ labels -> ~ P kv -> ruleHost kv = None) ->
  scanResult traefikIP n (filter P labels) st = scanResult traefikIP n labels st.
Proof.
  unfold scanResult. revert st. induction labels as [|kv rest IH]; intros st Hno; [done|].
  rewrite filter_cons. cbn [foldl]. case_decide as Hk.
  - cbn [foldl]. apply IH. intros kv' Hin. apply Hno. by apply elem_of_cons; right.
  - unfold scanStep at 3. rewrite (Hno kv); [|by apply elem_of_cons; left|done].
    apply IH. intros kv' Hin. apply Hno. by apply elem_of_cons; right.
Qed.

End Scan.

(** ** Label lookup *)

Section Labels.

Lemma mapIndex_absent m key v : mapIndex m key = (v, false) -> v = "".
Proof.
  induction m as [|[k x] m IH]; cbn; [by intros [= <-]|].
  destruct (String.eqb k key); [done|exact IH].
Qed.

Lemma mapIndex_unique m key v kv :
  labelsOK m -> mapIndex m key = (v, true) -> kv ∈ m -> kv.1 = key -> kv.2 = v.
Proof.
  unfold labelsOK. induction m as [|[k x] m IH]; cbn [mapIndex fmap list_fmap fst];
    intros Hnd Hidx Hin Hk; [by apply elem_of_nil in Hin|].
  apply NoDup_cons in Hnd as [Hk' Hnd].
  apply elem_of_cons in Hin as [->|Hin].
  - cbn in Hk. subst k. rewrite String.eqb_refl in Hidx. by injection Hidx.
  - destruct (String.eqb_spec k key) as [->|Hne]; [|by apply IH].
    exfalso. apply Hk'. apply list_elem_of_fmap. exists kv. by split.
Qed.

Lemma mapIndex_filter_ne m key key' :
  key' <> key ->
  mapIndex (filter (fun kv : string * string => kv.1 <> key) m) key' = mapIndex m key'.
Proof.
  intros Hne. induction m as [|[k x] m IH]; [done|].
  rewrite filter_cons. cbn [mapIndex fst]. case_decide as Hk.
  - cbn [mapIndex]. by destruct (String.eqb k key').
  - cbn in Hk. subst k.
    destruct (String.eqb_spec key key'); [congruence|done].
Qed.

Lemma mapIndex_filter_eq m key :
  mapIndex (filter (fun kv : string * string => kv.1 <> key) m) key = ("", false).
Proof.
  induction m as [|[k x] m IH]; [done|].
  rewrite filter_cons. case_decide as Hk; [|done].
  cbn [mapIndex]. cbn in Hk. by destruct (String.eqb_spec k key).
Qed.

Lemma explicitHostname_Some c h :
  explicitHostname c = Some h <->
  mapIndex (container.Labels c) "com.autodns.hostname" = (h, true) /\ h <> "".
Proof.
  unfold explicitHostname.
  destruct (mapIndex (container.Labels c) "com.autodns.hostname") as [h0 ok].
  destruct ok; cbn [andb]; [|by split; [|intros [[=] _]]].
  destruct (String.eqb_spec h0 ""); cbn [negb]; split; try done.
  - by intros [[= ->] ?].
  - by intros [= ->].
  - by intros [[= ->] _].
Qed.

End Labels.

(** ** One iteration of [discover], and the loop *)

Section Container.
Context `{net.Parser}.

(** The address part, for a container that has a name. *)
Lemma resolveAddress_named n ns h c d :
  container.Names c = n :: ns ->
  resolveAddress c h d = (Some (selfResolve n h c d), selfLog n c).
Proof.
  intros Hn. unfold resolveAddress, selfResolve, selfLog, ipOverride, selectedNetwork.
  destruct (mapIndex (container.Labels c) "com.autodns.ip") as [v ok].
  destruct (ok && negb (String.eqb v "")).
  - run_named Hn. reflexivity.
  - destruct (mapIndex (container.Labels c) "com.autodns.network") as [nw ok'].
    cbv zeta.
    destruct (container.Networks c !! (if negb ok' then "bridge" else nw));
      run_named Hn; reflexivity.
Qed.

Lemma discoverContainer_named traefikIP c n ns d :
  container.Names c = n :: ns ->
  (discoverContainer traefikIP c d).1 = Some (containerResult traefikIP n c d).
Proof.
  intros Hn. unfold discoverContainer, containerResult, explicitHostname.
  destruct (mapIndex (container.Labels c) "com.autodns.hostname") as [h0 ok] eqn:Hh.
  destruct ok; cbn [negb orb andb].
  - destruct (String.eqb_spec h0 "") as [->|Hne]; cbn [negb].
    + erewrite bind_fst_Some by (eapply scanLabels_named; eassumption).
      destruct (routed _); [reflexivity|].
      destruct (String.eqb _ ""); [reflexivity|].
      by rewrite (resolveAddress_named n ns).
    + rewrite bind_ret_l. cbn [routed hostname discovered].
      apply String.eqb_neq in Hne. rewrite Hne.
      by rewrite (resolveAddress_named n ns).
  - rewrite (mapIndex_absent _ _ _ Hh).
    erewrite bind_fst_Some by (eapply scanLabels_named; eassumption).
    destruct (routed _); [reflexivity|].
    destruct (String.eqb _ ""); [reflexivity|].
    by rewrite (resolveAddress_named n ns).
Qed.

(** An iteration for a container with a usable explicit hostname. *)
Lemma discoverContainer_explicit traefikIP c n ns h d :
  container.Names c = n :: ns ->
  explicitHostname c = Some h ->
  discoverContainer traefikIP c d = (Some (selfResolve n h c d), selfLog n c).
Proof.
  intros Hn [Hh Hne]%explicitHostname_Some. unfold discoverContainer. rewrite Hh.
  apply String.eqb_neq in Hne. rewrite Hne. cbn [negb orb].
  rewrite bind_ret_l. cbn [routed hostname discovered]. rewrite Hne.
  by apply (resolveAddress_named n ns).
Qed.

Lemma selfResolve_app n h c d : selfResolve n h c d = d ++ selfResolve n h c [].
Proof.
  unfold selfResolve. destruct (ipOverride c); [done|].
  destruct (container.Networks c !! selectedNetwork c); [done|by rewrite app_nil_r].
Qed.

Lemma selfResolve_ext n h c c' d :
  container.Networks c' = container.Networks c ->
  mapIndex (container.Labels c') "com.autodns.ip"
    = mapIndex (container.Labels c) "com.autodns.ip" ->
  mapIndex (container.Labels c') "com.autodns.network"
    = mapIndex (container.Labels c) "com.autodns.network" ->
  selfResolve n h c' d = selfResolve n h c d /\ selfLog n c' = selfLog n c.
Proof.
  intros Hnet Hip Hnw. unfold selfResolve, selfLog, ipOverride, selectedNetwork.
  by rewrite Hnet, Hip, Hnw.
Qed.

Lemma containerResult_app traefikIP n c d :
  containerResult traefikIP n c d = d ++ containerResult traefikIP n c [].
Proof.
  unfold containerResult. destruct (explicitHostname c); [apply selfResolve_app|].
  rewrite scanResult_app. cbv zeta. cbn [hostname routed discovered].
  destruct (routed _); [done|].
  destruct (String.eqb _ ""); [done|].
  rewrite selfResolve_app, (selfResolve_app _ _ _ (discovered _)). by rewrite app_assoc.
Qed.

(** What a container without a usable explicit hostname adds when there
    is a proxy: one Service per matching label. *)
Lemma servicesOf_routed p c :
  explicitHostname c = None ->
  servicesOf (Some p) c =
  map (fun h => service (name0 c) h (IPAddress p)) (ruleHosts (container.Labels c)).
Proof.
  intros Hh. unfold servicesOf, containerResult.
  rewrite Hh, scanResult_eq. cbn [hostname routed discovered orb app].
  by destruct (ruleHosts (container.Labels c)).
Qed.

(** What it adds when there is no proxy: the inner [continue] leaves the
    last matching host in [hostname], and the container goes on as
    self-resolved under that name. *)
Lemma servicesOf_unrouted c :
  explicitHostname c = None ->
  servicesOf None c =
  match ruleHosts (container.Labels c) with
  | [] => []
  | h :: hs =>
    if String.eqb (List.last hs h) "" then []
    else selfResolve (name0 c) (List.last hs h) c []
  end.
Proof.
  intros Hh. unfold servicesOf, containerResult.
  rewrite Hh, scanResult_eq. cbn [hostname routed discovered].
  destruct (ruleHosts (container.Labels c)) as [|h hs]; [done|].
  by rewrite last_cons_default.
Qed.

(** The loop of [discover] adds the Services of each container in turn. *)
Lemma discoverLoop_named traefikIP containers d :
  Forall named containers ->
  (discoverLoop traefikIP containers d).1
    = Some (d ++ flat_map (servicesOf traefikIP) containers).
Proof.
  intros Hall. revert d. induction Hall as [|c rest Hc _ IH]; intros d; cbn.
  - by rewrite app_nil_r.
  - unfold named in Hc. destruct (container.Names c) as [|n ns] eqn:Hn; [done|].
    erewrite bind_fst_Some by (eapply discoverContainer_named; eassumption).
    rewrite IH. unfold servicesOf, name0. rewrite Hn. cbn [hd].
    by rewrite (containerResult_app _ _ _ d), app_assoc.
Qed.

End Container.

(** ** The proxy search, and the whole of discovery *)

Section Discovery.
Context `{net.Parser}.

(** [strings.Split] never returns an empty slice. *)
Lemma Split_index0 s sep :
  index0 (strings.Split s sep) = ret (hd "" (strings.Split s sep)).
Proof.
  unfold strings.Split. generalize (@nil ascii) as cur.
  induction (Bytes.to_list s) as [|c l IH]; intros cur; cbn; [done|].
  destruct (Ascii.eqb c sep); [done|apply IH].
Qed.

(** One step of the proxy search. *)
Lemma discoverTraefikLoop_cons c rest n ns :
  container.Names c = n :: ns ->
  (discoverTraefikLoop (c :: rest)).1 =
  match proxyOf c with
  | Some p => Some (Some p)
  | None => (discoverTraefikLoop rest).1
  end.
Proof.
  intros Hn. cbn [discoverTraefikLoop].
  rewrite Split_index0, bind_ret_l.
  unfold proxyOf, proxyAddressText, imageName, ipOverride, selectedNetwork, name0.
  rewrite Hn. cbn [hd].
  destruct (String.eqb (hd "" _) "traefik"); cbn [negb]; [|done].
  destruct (mapIndex (container.Labels c) "com.autodns.ip") as [v ok].
  destruct (ok && negb (String.eqb v "")).
  - run_named Hn. reflexivity.
  - destruct (mapIndex (container.Labels c) "com.autodns.network") as [nw ok'].
    cbv zeta.
    destruct (container.Networks c !! (if negb ok' then "bridge" else nw)) as [ep|].
    + destruct (String.eqb (network.IPAddress ep) ""); run_named Hn; reflexivity.
    + run_named Hn. reflexivity.
Qed.

Lemma discoverTraefikLoop_named containers :
  Forall named containers ->
  (discoverTraefikLoop containers).1 = Some (findProxy containers).
Proof.
  induction 1 as [|c rest Hc _ IH]; [reflexivity|].
  unfold named in Hc. destruct (container.Names c) as [|n ns] eqn:Hn; [done|].
  rewrite (discoverTraefikLoop_cons c rest n ns Hn). cbn [findProxy].
  by destruct (proxyOf c).
Qed.

Lemma discoverTraefik_named containers :
  Forall named containers ->
  (discoverTraefik containers).1 = Some (findProxy containers).
Proof.
  intros Hall. unfold discoverTraefik. rewrite bind_logf. cbn [fst].
  by apply discoverTraefikLoop_named.
Qed.

Lemma findProxy_app l1 l2 :
  findProxy (l1 ++ l2) =
  match findProxy l1 with Some p => Some p | None => findProxy l2 end.
Proof.
  induction l1 as [|c l1 IH]; cbn [findProxy app]; [done|].
  by destruct (proxyOf c).
Qed.

(** Discovery does not panic on named containers, and yields the
    Services of each container in inventory order. *)
Lemma discover_named containers :
  Forall named containers ->
  (discover containers).1 =
  Some (flat_map (servicesOf (findProxy containers)) containers).
Proof.
  intros Hall. unfold discover. rewrite bind_logf. cbn [fst].
  erewrite bind_fst_Some by (by apply discoverTraefik_named).
  erewrite bind_fst_Some by (by apply discoverLoop_named).
  rewrite bind_logf. cbn [fst app].
  assert (Hlog : forall l, (logServices l).1 = Some tt).
  { induction l as [|x l IHl]; [done|]. cbn [logServices]. by rewrite bind_logf. }
  erewrite bind_fst_Some by apply Hlog. reflexivity.
Qed.

Lemma mainTable_named containers :
  Forall named containers ->
  (mainTable containers).1 =
  Some (buildServiceMap (flat_map (servicesOf (findProxy containers)) containers)).
Proof.
  intros Hall. unfold mainTable. rewrite bind_logf. cbn [fst].
  erewrite bind_fst_Some by (by apply discover_named).
  destruct (length _ =? 0); [by rewrite bind_logf|by rewrite bind_ret_l].
Qed.

End Discovery.

(* ================================================================== *)
(** * The matcher finds the words of a plain pattern *)

Module regexpFacts.
Import regexp regexpSem.

Lemma Matches_Lit_inv c s : Matches (Lit c) s -> s = [c].
Proof. by inversion 1. Qed.

Lemma Matches_Class_inv ranges s :
  Matches (CharClass ranges) s -> exists c, s = [c] /\ inClass ranges c = true.
Proof. inversion 1; eauto. Qed.

Lemma Matches_Concat_inv r1 r2 s :
  Matches (Concat r1 r2) s ->
  exists s1 s2, s = s1 ++ s2 /\ Matches r1 s1 /\ Matches r2 s2.
Proof. inversion 1; eauto. Qed.

Lemma Matches_Alt_inv r1 r2 s :
  Matches (Alternate r1 r2) s -> Matches r1 s \/ Matches r2 s.
Proof. inversion 1; eauto. Qed.

Section Run.
Context {R : Type}.
Implicit Types (k : list ascii -> Caps -> option R).

Lemma starLoop_sound r k caps :
  (forall s k x, run r s caps k = Some x ->
      exists s1 s2, s = s1 ++ s2 /\ Matches r s1 /\ k s2 caps = Some x) ->
  forall fuel s x, starLoop (run r) k fuel s caps = Some x ->
    exists s1 s2, s = s1 ++ s2 /\ Matches (Star r) s1 /\ k s2 caps = Some x.
Proof.
  intros IHr. induction fuel as [|fuel IH]; intros s x; cbn [starLoop].
  - intros Hk. exists [], s. repeat split; [constructor|done].
  - destruct (run r s caps _) as [x'|] eqn:Hstep.
    + intros [= ->]. apply IHr in Hstep as (a & s' & -> & Ha & Hk').
      destruct (length s' <? length (a ++ s')); [|done].
      apply IH in Hk' as (b & s2 & -> & Hb & Hk).
      exists (a ++ b), s2. rewrite <- app_assoc. repeat split; [by constructor|done].
    + intros Hk. exists [], s. repeat split; [constructor|done].
Qed.

Lemma run_sound r :
  plain r = true ->
  forall s caps k x, run r s caps k = Some x ->
    exists s1 s2, s = s1 ++ s2 /\ Matches r s1 /\ k s2 caps = Some x.
Proof.
  induction r as [c| |ranges|r1 IH1 r2 IH2|r1 IH1 r2 IH2|r1 IH1|i r1 IH1];
    cbn [plain]; intros Hp s caps k x; try done; cbn [run].
  - destruct s as [|a s']; [done|].
    destruct (Ascii.eqb_spec a c) as [->|]; [|done].
    intros Hk. exists [c], s'. repeat split; [constructor|done].
  - destruct s as [|a s']; [done|].
    destruct (inClass ranges a) eqn:Hin; [|done].
    intros Hk. exists [a], s'. repeat split; [by constructor|done].
  - apply andb_prop in Hp as [Hp1 Hp2]. intros Hrun.
    apply (IH1 Hp1) in Hrun as (a & s' & -> & Ha & Hrun).
    apply (IH2 Hp2) in Hrun as (b & s2 & -> & Hb & Hk).
    exists (a ++ b), s2. rewrite <- app_assoc. repeat split; [by constructor|done].
  - apply andb_prop in Hp as [Hp1 Hp2].
    destruct (run r1 s caps k) as [x'|] eqn:H1.
    + intros [= ->]. apply (IH1 Hp1) in H1 as (a & s2 & -> & Ha & Hk).
      exists a, s2. repeat split; [by apply MAltL|done].
    + intros H2. apply (IH2 Hp2) in H2 as (a & s2 & -> & Ha & Hk).
      exists a, s2. repeat split; [by apply MAltR|done].
  - apply starLoop_sound. intros s0 k0 x0. by apply IH1.
Qed.

Lemma starLoop_complete r k caps s1 :
  (forall s1, Matches r s1 -> forall s2 k y, k s2 caps = Some y ->
      exists x, run r (s1 ++ s2) caps k = Some x) ->
  Matches (Star r) s1 ->
  forall s2 y fuel, k s2 caps = Some y -> length (s1 ++ s2) <= fuel ->
    exists x, starLoop (run r) k fuel (s1 ++ s2) caps = Some x.
Proof.
  intros IHr Hm. remember (Star r) as r' eqn:Hr'.
  induction Hm as [| | | | |r0|r0 a b Ha _ Hb IHb]; try done; intros s2 y fuel Hk Hfuel.
  - cbn [app]. destruct fuel as [|fuel]; cbn [starLoop]; [eauto|].
    destruct (run _ _ _ _); eauto.
  - injection Hr' as ->.
    destruct a as [|c a]; [by apply (IHb eq_refl s2 y)|].
    destruct fuel as [|fuel]; [cbn in Hfuel; lia|].
    cbn [starLoop]. rewrite <- app_assoc.
    destruct (IHb eq_refl s2 y fuel Hk) as [x Hx].
    { cbn in Hfuel. rewrite !length_app in *. lia. }
    edestruct (IHr _ Ha (b ++ s2)) as [x' Hx'].
    2: { rewrite Hx'. eauto. }
    cbn beta. rewrite Hx.
    replace (length (b ++ s2) <? length ((c :: a) ++ b ++ s2)) with true; [done|].
    symmetry. apply Nat.ltb_lt. cbn. rewrite !length_app. lia.
Qed.

Lemma run_complete r :
  plain r = true ->
  forall s1, Matches r s1 -> forall s2 caps k y, k s2 caps = Some y ->
    exists x, run r (s1 ++ s2) caps k = Some x.
Proof.
  induction r as [c| |ranges|r1 IH1 r2 IH2|r1 IH1 r2 IH2|r1 IH1|i r1 IH1];
    cbn [plain]; intros Hp s1 Hm s2 caps k y Hk; try done; cbn [run].
  - apply Matches_Lit_inv in Hm as ->. cbn. rewrite Ascii.eqb_refl. eauto.
  - apply Matches_Class_inv in Hm as (c & -> & Hc). cbn. rewrite Hc. eauto.
  - apply andb_prop in Hp as [Hp1 Hp2].
    apply Matches_Concat_inv in Hm as (a & b & -> & Ha & Hb).
    rewrite <- app_assoc.
    destruct (IH2 Hp2 _ Hb s2 caps k y Hk) as [x2 Hx2].
    eapply (IH1 Hp1 _ Ha). cbn beta. exact Hx2.
  - apply andb_prop in Hp as [Hp1 Hp2].
    destruct (run r1 _ caps k) as [x'|] eqn:H1; [eauto|].
    apply Matches_Alt_inv in Hm as [Hm|Hm].
    + destruct (IH1 Hp1 _ Hm s2 caps k y Hk) as [x Hx]. congruence.
    + by apply (IH2 Hp2 _ Hm s2 caps k y).
  - eapply starLoop_complete; [|exact Hm|exact Hk|done].
    intros s0 Hs0 s3 k0 y0. by apply IH1.
Qed.

End Run.

Lemma Matches_chars r s : Matches r s -> Forall (fun c => mayContain r c = true) s.
Proof.
  induction 1; cbn [mayContain].
  - constructor; [apply Ascii.eqb_refl|constructor].
  - by repeat constructor.
  - apply Forall_app. split; eapply Forall_impl; eauto; cbn; intros ? ->; [done|apply orb_true_r].
  - eapply Forall_impl; eauto. cbn. by intros ? ->.
  - eapply Forall_impl; eauto. cbn. intros ? ->. apply orb_true_r.
  - constructor.
  - apply Forall_app. split; [done|]. done.
Qed.

End regexpFacts.

Module RuleFacts.
Import regexp regexpSem regexpFacts Pattern Rule.

Lemma to_list_app a b : Bytes.to_list (a +:+ b) = Bytes.to_list a ++ Bytes.to_list b.
Proof. induction a as [|c a IH]; cbn; [done|]. by rewrite <- IH. Qed.

Lemma of_to_list s : Bytes.of_list (Bytes.to_list s) = s.
Proof. apply string_of_list_ascii_of_string. Qed.

Lemma to_of_list l : Bytes.to_list (Bytes.of_list l) = l.
Proof. apply list_ascii_of_string_of_list_ascii. Qed.

Lemma Matches_star_class ranges l :
  forallb (inClass ranges) l = true -> Matches (Star (CharClass ranges)) l.
Proof.
  induction l as [|c l IH]; cbn; [constructor|].
  intros [Hc Hl]%andb_prop. apply (MStarCons _ [c] l); [by constructor|by apply IH].
Qed.

Lemma isDNSLabel_Matches l : isDNSLabel l = true -> Matches dnsLabel (Bytes.to_list l).
Proof.
  unfold isDNSLabel. destruct (Bytes.to_list l) as [|a rest]; [done|].
  intros [Ha Hrest]%andb_prop. destruct rest as [|b rest'].
  - apply MAltL. by constructor.
  - apply andb_prop in Hrest as [Hmid Hlast].
    apply MAltR. apply (MConcat _ _ [a]); [by constructor|].
    rewrite (app_removelast_last a (l:=b :: rest')) by done.
    apply MConcat; [by apply Matches_star_class|by constructor].
Qed.

Lemma splitFrom_Matches cur s :
  forallb isDNSLabel (strings.splitFrom "."%char cur s) = true ->
  Matches domain (rev cur ++ s).
Proof.
  revert cur. induction s as [|c s IH]; intros cur; cbn [strings.splitFrom].
  - cbn [forallb]. rewrite andb_true_r, app_nil_r. intros Hl%isDNSLabel_Matches.
    rewrite to_of_list in Hl. apply (MConcat _ _ []); [constructor|done].
  - destruct (Ascii.eqb_spec c ".") as [->|Hc].
    + cbn [forallb]. intros [Hl%isDNSLabel_Matches Hrest%IH]%andb_prop.
      rewrite to_of_list in Hl. cbn [rev app] in Hrest.
      apply Matches_Concat_inv in Hrest as (u & v & -> & Hu & Hv).
      replace (rev cur ++ "."%char :: u ++ v) with (((rev cur ++ ["."%char]) ++ u) ++ v)
        by (by rewrite <- !app_assoc).
      apply MConcat; [|done]. apply MStarCons; [|done].
      apply MConcat; [done|constructor].
    + intros Hrest%IH. cbn [rev] in Hrest. by rewrite <- app_assoc in Hrest.
Qed.

Lemma isDomain_Matches s : isDomain s = true -> Matches domain (Bytes.to_list s).
Proof. intros Hs. by apply (splitFrom_Matches []). Qed.

Section Steps.
Context {R : Type}.
Implicit Types (k : list ascii -> Caps -> option R).

Lemma run_Literal p tail s caps k :
  run (Literal p tail) (p ++ s) caps k = run tail s caps k.
Proof.
  induction p as [|c p IH]; cbn [Literal app]; [done|].
  cbn [run]. by rewrite Ascii.eqb_refl.
Qed.

Lemma run_AnyChar_ascii r c s caps k :
  (Bytes.code c <? 128)%N = true -> Ascii.eqb c "010"%char = false ->
  run (Concat AnyCharNotNL r) (c :: s) caps k = run r s caps k.
Proof.
  intros Hc Hnl. cbn [run]. unfold utf8.DecodeRuneWidth. rewrite Hc, Hnl. done.
Qed.

(** A greedy class loop takes the whole run of class bytes when what
    follows accepts that. *)
Lemma starLoop_class_greedy ranges k caps l rest x fuel :
  forallb (inClass ranges) l = true ->
  match rest with c :: _ => inClass ranges c = false | [] => True end ->
  k rest caps = Some x ->
  length (l ++ rest) <= fuel ->
  starLoop (run (CharClass ranges)) k fuel (l ++ rest) caps = Some x.
Proof.
  intros Hl Hrest Hk. revert fuel.
  induction l as [|c l IH]; intros fuel Hfuel.
  - cbn [app]. destruct fuel as [|fuel]; cbn [starLoop]; [done|].
    cbn [run]. destruct rest as [|c rest]; [done|]. by rewrite Hrest.
  - apply andb_prop in Hl as [Hc Hl].
    destruct fuel as [|fuel]; [cbn in Hfuel; lia|].
    cbn [starLoop app run]. rewrite Hc.
    replace (length (l ++ rest) <? length (c :: l ++ rest)) with true
      by (symmetry; apply Nat.ltb_lt; cbn; lia).
    rewrite IH; [done|done|cbn in Hfuel; lia].
Qed.

Lemma consumed_app (a b : list ascii) : consumed (a ++ b) b = a.
Proof.
  unfold consumed. rewrite length_app.
  replace (length a + length b - length b) with (length a) by lia.
  by rewrite firstn_app, Nat.sub_diag, firstn_all, firstn_O, app_nil_r.
Qed.

(** A plain pattern followed by a delimiter its words cannot contain
    takes exactly the text before the delimiter. *)
Lemma run_until_delimiter r f delim rest caps k y :
  plain r = true ->
  Matches r f ->
  mayContain r delim = false ->
  (forall s', k s' caps <> None -> exists t, s' = delim :: t) ->
  k (delim :: rest) caps = Some y ->
  run r (f ++ delim :: rest) caps k = Some y.
Proof.
  intros Hp Hf Hd Hk Hy.
  destruct (run_complete r Hp f Hf _ caps k y Hy) as [x Hx].
  rewrite Hx. f_equal.
  apply (run_sound r Hp) in Hx as (s1 & s2 & Heq & Hs1 & Hx).
  destruct (Hk s2) as [t ->]; [congruence|].
  assert (Hnot : forall s, Matches r s -> delim ∉ s).
  { intros s Hs Hin. apply Matches_chars in Hs.
    rewrite List.Forall_forall in Hs. apply list_elem_of_In in Hin.
    specialize (Hs _ Hin). congruence. }
  assert (f = s1 /\ rest = t) as [<- <-]; [|congruence].
  clear -Heq Hnot Hf Hs1. apply Hnot in Hf, Hs1.
  revert s1 Heq Hs1. induction f as [|c f IH]; intros [|c1 s1]; cbn; intros Heq Hs1.
  - by injection Heq.
  - injection Heq as <- _. exfalso. apply Hs1. constructor.
  - injection Heq as -> _. exfalso. apply Hf. constructor.
  - injection Heq as <- Heq. destruct (IH (fun Hi => Hf (list_elem_of_further _ _ _ Hi)) s1 Heq) as [-> ->];
      [intros Hi; apply Hs1; by constructor|done].
Qed.

End Steps.

Section RuleRun.
Context {R : Type}.
Implicit Types (k : list ascii -> Caps -> option R).

(** The second group and the closing [`)]. *)
Lemma run_domain_group f caps k y :
  Matches domain f ->
  k [] ((2, f) :: caps) = Some y ->
  run (Concat (Capture 2 domain) (Literal (Bytes.to_list "`") (Lit ")"%char)))
      (f ++ Bytes.to_list "`)") caps k = Some y.
Proof.
  intros Hf Hk. cbn [run Literal Bytes.to_list list_ascii_of_string].
  apply run_until_delimiter; [done|done|done| |].
  - intros [|a s']; [done|]. destruct (Ascii.eqb_spec a "`") as [->|]; [eauto|done].
  - cbn. change ("`"%char :: [")"%char]) with (Bytes.to_list "`)").
    by rewrite consumed_app.
Qed.

(** The first group: the class loop takes the whole router name. *)
Lemma run_router_group r n rest caps k y :
  n <> [] ->
  forallb (inClass routerClass) n = true ->
  match rest with c :: _ => inClass routerClass c = false | [] => True end ->
  run r rest ((1, n) :: caps) k = Some y ->
  run (Concat (Capture 1 (Plus (CharClass routerClass))) r) (n ++ rest) caps k = Some y.
Proof.
  intros Hn Hall Hrest Hk. destruct n as [|c n]; [done|].
  apply andb_prop in Hall as [Hc Hall].
  unfold Plus. cbn [run app]. rewrite Hc.
  apply starLoop_class_greedy; [done|done| |done].
  change (c :: n ++ rest) with ((c :: n) ++ rest). by rewrite consumed_app.
Qed.

Lemma run_rule n f k y :
  n <> [] ->
  forallb (inClass routerClass) n = true ->
  Matches domain f ->
  k [] [(2, f); (1, n)] = Some y ->
  run TraefikLabelRegex
      (Bytes.to_list "traefik.http.routers." ++ n ++
       Bytes.to_list ".rule=Host(`" ++ f ++ Bytes.to_list "`)") [] k = Some y.
Proof.
  intros Hn Hall Hf Hk. unfold TraefikLabelRegex, lit.
  change (Bytes.to_list "traefik.http.routers." ++ ?x)
    with (Bytes.to_list "traefik" ++ "."%char :: Bytes.to_list "http" ++
          "."%char :: Bytes.to_list "routers" ++ "."%char :: x).
  rewrite run_Literal, run_AnyChar_ascii by done.
  rewrite run_Literal, run_AnyChar_ascii by done.
  rewrite run_Literal, run_AnyChar_ascii by done.
  apply run_router_group; [done|done|done|].
  change (Bytes.to_list ".rule=Host(`" ++ ?x)
    with ("."%char :: Bytes.to_list "rule=Host(`" ++ x).
  rewrite run_AnyChar_ascii, run_Literal by done.
  by apply run_domain_group.
Qed.

End RuleRun.

Lemma consumed_nil (s : list ascii) : consumed s [] = s.
Proof. unfold consumed. cbn. by rewrite Nat.sub_0_r, firstn_all. Qed.

Lemma search_here r s m : matchHere r s = Some m -> search r 0 s = Some m.
Proof. intros Hm. destruct s; cbn [search]; by rewrite Hm. Qed.

(** A label of the rule shape matches, and the groups are the router
    name and the domain. *)
Lemma FindStringSubmatch_rule name fqdn :
  isRouterName name = true -> isDomain fqdn = true ->
  traefikRe_FindStringSubmatch (key name +:+ "=" +:+ value fqdn) =
  [key name +:+ "=" +:+ value fqdn; name; fqdn].
Proof.
  intros [Hne Hname]%andb_prop Hdom%isDomain_Matches.
  unfold traefikRe_FindStringSubmatch, FindStringSubmatch.
  set (s := key name +:+ "=" +:+ value fqdn).
  assert (Hs : Bytes.to_list s =
               Bytes.to_list "traefik.http.routers." ++ Bytes.to_list name ++
               Bytes.to_list ".rule=Host(`" ++ Bytes.to_list fqdn ++ Bytes.to_list "`)").
  { subst s. unfold key, value. rewrite !to_list_app, <- !app_assoc. reflexivity. }
  assert (Hm : matchHere TraefikLabelRegex (Bytes.to_list s) =
               Some (Bytes.to_list s, [(2, Bytes.to_list fqdn); (1, Bytes.to_list name)])).
  { unfold matchHere. rewrite Hs at 1. apply run_rule; [|done|done|by rewrite consumed_nil].
    destruct name; [done|]. done. }
  rewrite (search_here _ _ _ Hm).
  change (NumSubexp TraefikLabelRegex) with 2. cbn [seq map getCap Nat.eqb].
  by rewrite !of_to_list.
Qed.

End RuleFacts.

(* ================================================================== *)
(** * The table *)

Section Table.
Context `{net.Parser}.

Lemma append_inj_r (a b t : string) : a +:+ t = b +:+ t -> a = b.
Proof.
  intros Heq. apply (f_equal Bytes.to_list) in Heq.
  rewrite !RuleFacts.to_list_app in Heq. apply app_inv_tail in Heq.
  apply (f_equal Bytes.of_list) in Heq. by rewrite !RuleFacts.of_to_list in Heq.
Qed.

Lemma buildServiceMap_snoc l s :
  buildServiceMap (l ++ [s]) =
  <[HostnameLabel s +:+ "." := net.IP_String (IPAddress s)]> (buildServiceMap l).
Proof. unfold buildServiceMap. by rewrite foldl_app. Qed.

(** Every entry of the table comes from a Service. *)
Lemma buildServiceMap_entry l k v :
  buildServiceMap l !! k = Some v ->
  exists s, s ∈ l /\ k = HostnameLabel s +:+ "." /\ v = net.IP_String (IPAddress s).
Proof.
  induction l as [|s l IH] using rev_ind; [done|].
  rewrite buildServiceMap_snoc, lookup_insert. case_decide as Hk.
  - intros [= <-]. exists s. split; [|done]. apply elem_of_app. right. constructor.
  - intros Hl. destruct (IH Hl) as (s' & Hin & Hk' & Hv'). exists s'. split; [|done]. apply elem_of_app. by left.
Qed.

(** The last Service of a hostname decides its entry. *)
Lemma buildServiceMap_last_writer l1 s l2 :
  Forall (fun s' => HostnameLabel s' = HostnameLabel s ->
                    net.IP_String (IPAddress s') = net.IP_String (IPAddress s)) l2 ->
  buildServiceMap (l1 ++ s :: l2) !! (HostnameLabel s +:+ ".") =
  Some (net.IP_String (IPAddress s)).
Proof.
  induction l2 as [|x l2 IH] using rev_ind; intros Hall.
  - rewrite buildServiceMap_snoc. apply lookup_insert_eq.
  - apply Forall_app in Hall as [Hall Hx]. rewrite Forall_singleton in Hx.
    change (l1 ++ s :: l2 ++ [x]) with (l1 ++ (s :: l2) ++ [x]).
    rewrite app_assoc, buildServiceMap_snoc, lookup_insert. case_decide as Hk.
    + f_equal. apply Hx. by apply append_inj_r in Hk.
    + by apply IH.
Qed.

End Table.

Section Addresses.
Context `{net.Parser}.

Lemma proxyOf_address c p :
  proxyOf c = Some p ->
  exists a, addressText c = Some a /\ IPAddress p = net.ParseIP a.
Proof.
  unfold proxyOf, proxyAddressText, addressText.
  destruct (String.eqb (imageName c) "traefik"); [|done].
  destruct (ipOverride c) as [v|]; [intros [= <-]; eauto|].
  destruct (container.Networks c !! selectedNetwork c) as [ep|]; [|done].
  destruct (String.eqb (network.IPAddress ep) ""); [done|]. intros [= <-]. eauto.
Qed.

Lemma findProxy_address containers p :
  findProxy containers = Some p ->
  exists c a, c ∈ containers /\ addressText c = Some a /\ IPAddress p = net.ParseIP a.
Proof.
  induction containers as [|c rest IH]; [done|]. cbn [findProxy].
  destruct (proxyOf c) as [p'|] eqn:Hp.
  - intros [= ->]. destruct (proxyOf_address c p Hp) as (a & Ha & Hip).
    exists c, a. split; [by apply elem_of_cons; left|done].
  - intros (c' & a & Hin & Ha)%IH. exists c', a. split; [by apply elem_of_cons; right|done].
Qed.

Lemma selfResolve_address n h c s :
  s ∈ selfResolve n h c [] ->
  HostnameLabel s = h /\ exists a, addressText c = Some a /\ IPAddress s = net.ParseIP a.
Proof.
  unfold selfResolve, addressText. destruct (ipOverride c) as [v|].
  - intros ->%list_elem_of_singleton. eauto.
  - destruct (container.Networks c !! selectedNetwork c) as [ep|]; cbn.
    + intros ->%list_elem_of_singleton. eauto.
    + by intros ?%elem_of_nil.
Qed.

(** Where the address of a Service comes from: the container itself, or
    the proxy. *)
Lemma servicesOf_address traefikIP c s :
  s ∈ servicesOf traefikIP c ->
  (exists a, addressText c = Some a /\ IPAddress s = net.ParseIP a) \/
  (exists p, traefikIP = Some p /\ IPAddress s = IPAddress p).
Proof.
  unfold servicesOf, containerResult.
  destruct (explicitHostname c) as [h|].
  { intros [_ ?]%selfResolve_address. by left. }
  rewrite scanResult_eq. cbn [hostname routed discovered orb app].
  destruct traefikIP as [p|].
  - destruct (ruleHosts (container.Labels c)) as [|h0 hs] eqn:Hr; cbn [length Nat.eqb negb].
    + cbn [List.last map]. rewrite String.eqb_refl. by intros ?%elem_of_nil.
    + intros (h & -> & _)%list_elem_of_fmap. right. eauto.
  - destruct (String.eqb _ ""); [by intros ?%elem_of_nil|].
    intros [_ ?]%selfResolve_address. by left.
Qed.


Lemma ruleHost_rule name fqdn :
  Rule.isRouterName name = true -> Rule.isDomain fqdn = true ->
  ruleHost (Rule.key name, Rule.value fqdn) = Some fqdn.
Proof.
  intros Hname Hdom. unfold ruleHost. cbn [fst snd].
  by rewrite RuleFacts.FindStringSubmatch_rule.
Qed.

End Addresses.

(* ================================================================== *)
(** * What the rule pattern matches *)

Module regexpTraceFacts.
Import regexp regexpSem regexpTrace.

Section Run.
Context {R : Type}.
Implicit Types (k : list ascii -> Caps -> option R).

Lemma starLoop_derives r k :
  (forall s caps k x, run r s caps k = Some x ->
      exists s' caps', Derives r s caps s' caps' /\ k s' caps' = Some x) ->
  forall fuel s caps x, starLoop (run r) k fuel s caps = Some x ->
    exists s' caps', Derives (Star r) s caps s' caps' /\ k s' caps' = Some x.
Proof.
  intros IHr. induction fuel as [|fuel IH]; intros s caps x; cbn [starLoop].
  - intros Hk. exists s, caps. split; [constructor|done].
  - destruct (run r s caps _) as [x'|] eqn:Hstep.
    + intros [= ->]. apply IHr in Hstep as (s1 & caps1 & H1 & Hk').
      destruct (length s1 <? length s); [|done].
      apply IH in Hk' as (s2 & caps2 & H2 & Hk).
      exists s2, caps2. split; [by eapply DStarCons|done].
    + intros Hk. exists s, caps. split; [constructor|done].
Qed.

(** Whatever the matcher finds is a derivation. *)
Lemma run_derives r :
  forall s caps k x, run r s caps k = Some x ->
    exists s' caps', Derives r s caps s' caps' /\ k s' caps' = Some x.
Proof.
  induction r as [c| |ranges|r1 IH1 r2 IH2|r1 IH1 r2 IH2|r1 IH1|i r1 IH1];
    intros s caps k x; cbn [run].
  - destruct s as [|a s']; [done|].
    destruct (Ascii.eqb_spec a c) as [->|]; [|done].
    intros Hk. exists s', caps. split; [constructor|done].
  - destruct (utf8.DecodeRuneWidth s) as [|w] eqn:Hw; [done|].
    destruct s as [|a s']; [done|].
    destruct (Ascii.eqb a "010") eqn:Hnl; [done|].
    intros Hk. exists (skipn w s'), caps. split; [by constructor|done].
  - destruct s as [|a s']; [done|].
    destruct (inClass ranges a) eqn:Hin; [|done].
    intros Hk. exists s', caps. split; [by constructor|done].
  - intros Hrun.
    apply IH1 in Hrun as (s1 & caps1 & H1 & Hrun).
    apply IH2 in Hrun as (s2 & caps2 & H2 & Hk).
    exists s2, caps2. split; [by econstructor|done].
  - destruct (run r1 s caps k) as [x'|] eqn:H1.
    + intros [= ->]. apply IH1 in H1 as (s' & caps' & H1 & Hk).
      exists s', caps'. split; [by apply DAltL|done].
    + intros H2. apply IH2 in H2 as (s' & caps' & H2 & Hk).
      exists s', caps'. split; [by apply DAltR|done].
  - apply starLoop_derives. exact IH1.
  - intros Hrun. apply IH1 in Hrun as (s' & caps' & H1 & Hk).
    eexists _, _. split; [by constructor|done].
Qed.

End Run.

(** What a derivation leaves is a suffix of its input. *)
Lemma Derives_suffix r s caps s' caps' :
  Derives r s caps s' caps' -> exists s1, s = s1 ++ s'.
Proof.
  induction 1 as [c s caps|a s w caps Hw Hnl|ranges c s caps Hc
                  |r1 r2 s s1 s2 caps caps1 caps2 _ [u ->] _ [v ->]
                  |r1 r2 s s' caps caps' _ IH|r1 r2 s s' caps caps' _ IH
                  |r s caps|r s s1 s2 caps caps1 caps2 _ [u ->] _ [v ->]
                  |i r s s' caps caps' _ IH].
  - by exists [c].
  - exists (a :: firstn w s). cbn. by rewrite firstn_skipn.
  - by exists [c].
  - exists (u ++ v). by rewrite <- app_assoc.
  - done.
  - done.
  - by exists [].
  - exists (u ++ v). by rewrite <- app_assoc.
  - done.
Qed.

(** A derivation of a plain pattern is a word of its language, and
    leaves the submatches alone. *)
Lemma Derives_plain r s caps s' caps' :
  plain r = true -> Derives r s caps s' caps' ->
  caps' = caps /\ exists s1, s = s1 ++ s' /\ Matches r s1.
Proof.
  intros Hp Hd. induction Hd as [c s caps|a s w caps Hw Hnl|ranges c s caps Hc
                  |r1 r2 s s1 s2 caps caps1 caps2 _ IH1 _ IH2
                  |r1 r2 s s' caps caps' _ IH|r1 r2 s s' caps caps' _ IH
                  |r s caps|r s s1 s2 caps caps1 caps2 _ IH1 _ IH2
                  |i r s s' caps caps' _ IH]; cbn [plain] in Hp; try done.
  - split; [done|]. exists [c]. split; [done|constructor].
  - split; [done|]. exists [c]. split; [done|by constructor].
  - apply andb_prop in Hp as [Hp1 Hp2].
    destruct (IH1 Hp1) as (-> & u & -> & Hu). destruct (IH2 Hp2) as (-> & v & -> & Hv).
    split; [done|]. exists (u ++ v). rewrite <- app_assoc. split; [done|by constructor].
  - apply andb_prop in Hp as [Hp1 Hp2].
    destruct (IH Hp1) as (-> & u & -> & Hu). split; [done|]. exists u. split; [done|by apply MAltL].
  - apply andb_prop in Hp as [Hp1 Hp2].
    destruct (IH Hp2) as (-> & u & -> & Hu). split; [done|]. exists u. split; [done|by apply MAltR].
  - split; [done|]. exists []. split; [done|constructor].
  - destruct (IH1 Hp) as (-> & u & -> & Hu). destruct (IH2 Hp) as (-> & v & -> & Hv).
    split; [done|]. exists (u ++ v). rewrite <- app_assoc. split; [done|by constructor].
Qed.

Lemma Derives_Lit_inv c s caps s' caps' :
  Derives (Lit c) s caps s' caps' -> s = c :: s' /\ caps' = caps.
Proof. by inversion 1. Qed.

Lemma Derives_Any_inv s caps s' caps' :
  Derives AnyCharNotNL s caps s' caps' -> caps' = caps.
Proof. by inversion 1. Qed.

Lemma Derives_Concat_inv r1 r2 s caps s' caps' :
  Derives (Concat r1 r2) s caps s' caps' ->
  exists s1 caps1, Derives r1 s caps s1 caps1 /\ Derives r2 s1 caps1 s' caps'.
Proof. inversion 1; eauto. Qed.

Lemma Derives_Capture_inv i r s caps s' caps' :
  Derives (Capture i r) s caps s' caps' ->
  exists caps0, Derives r s caps s' caps0 /\ caps' = (i, consumed s s') :: caps0.
Proof. inversion 1; eauto. Qed.

Lemma Derives_Literal_inv p tail s caps s' caps' :
  Derives (Literal p tail) s caps s' caps' ->
  exists s0, s = p ++ s0 /\ Derives tail s0 caps s' caps'.
Proof.
  revert s. induction p as [|c p IH]; intros s; cbn [Literal].
  - intros Hd. by exists s.
  - intros (s1 & caps1 & [-> ->]%Derives_Lit_inv & (s0 & -> & Hd)%IH)%Derives_Concat_inv.
    by exists s0.
Qed.

(** A group around a plain pattern records a word of that pattern. *)
Lemma Derives_group i r s caps s' caps' :
  plain r = true ->
  Derives (Capture i r) s caps s' caps' ->
  exists w, caps' = (i, w) :: caps /\ Matches r w.
Proof.
  intros Hp (caps0 & Hd & ->)%Derives_Capture_inv.
  destruct (Derives_plain r s caps s' caps0 Hp Hd) as (-> & w & -> & Hw).
  exists w. split; [|done]. unfold consumed. rewrite length_app.
  replace (length w + length s' - length s') with (length w) by lia.
  by rewrite firstn_app, Nat.sub_diag, firstn_all, firstn_O, app_nil_r.
Qed.

End regexpTraceFacts.

Module RuleSound.
Import regexp regexpSem regexpTrace regexpTraceFacts Pattern Rule.

(** The groups of any match of the routing-rule pattern: a router name
    and a domain. *)
Lemma Derives_rule s s' caps' :
  Derives TraefikLabelRegex s [] s' caps' ->
  exists n f, caps' = [(2, f); (1, n)] /\
              Matches (Plus (CharClass routerClass)) n /\ Matches domain f.
Proof.
  unfold TraefikLabelRegex, lit. intros Hd.
  apply Derives_Literal_inv in Hd as (s0 & _ & Hd).
  apply Derives_Concat_inv in Hd as (s1 & c1 & ->%Derives_Any_inv & Hd).
  apply Derives_Literal_inv in Hd as (s2 & _ & Hd).
  apply Derives_Concat_inv in Hd as (s3 & c3 & ->%Derives_Any_inv & Hd).
  apply Derives_Literal_inv in Hd as (s4 & _ & Hd).
  apply Derives_Concat_inv in Hd as (s5 & c5 & ->%Derives_Any_inv & Hd).
  apply Derives_Concat_inv in Hd as (s6 & c6 & Hg1 & Hd).
  apply Derives_group in Hg1 as (n & -> & Hn); [|done].
  apply Derives_Concat_inv in Hd as (s7 & c7 & ->%Derives_Any_inv & Hd).
  apply Derives_Literal_inv in Hd as (s8 & _ & Hd).
  apply Derives_Concat_inv in Hd as (s9 & c9 & Hg2 & Hd).
  apply Derives_group in Hg2 as (f & -> & Hf); [|done].
  apply Derives_Literal_inv in Hd as (s10 & _ & [_ ->]%Derives_Lit_inv).
  by exists n, f.
Qed.

Lemma search_derives r skip s m :
  search r skip s = Some m -> exists s0 s', Derives r s0 [] s' m.2.
Proof.
  revert skip. induction s as [|a s IH]; intros skip.
  - destruct skip; cbn [search]; [|done].
    destruct (matchHere r []) as [m'|] eqn:Hm; [|done]. intros [= ->].
    apply run_derives in Hm as (s' & caps' & Hd & [= <-]). eauto.
  - destruct skip as [|skip]; cbn [search]; [|by apply IH].
    destruct (matchHere r (a :: s)) as [m'|] eqn:Hm; [|by apply IH].
    intros [= ->]. apply run_derives in Hm as (s' & caps' & Hd & [= <-]). eauto.
Qed.

Lemma Matches_star_class_inv ranges l :
  Matches (Star (CharClass ranges)) l -> forallb (inClass ranges) l = true.
Proof.
  intros Hm. remember (Star (CharClass ranges)) as r eqn:Hr.
  induction Hm as [| | | | |r0|r0 a b Ha _ Hb IHb]; try done.
  injection Hr as ->. apply regexpFacts.Matches_Class_inv in Ha as (c & -> & Hc).
  cbn. by rewrite Hc, IHb.
Qed.

Lemma Matches_plus_class_inv ranges l :
  Matches (Plus (CharClass ranges)) l ->
  l <> [] /\ forallb (inClass ranges) l = true.
Proof.
  intros (a & b & -> & (c & -> & Hc)%regexpFacts.Matches_Class_inv
          & Hb%Matches_star_class_inv)%regexpFacts.Matches_Concat_inv.
  split; [done|]. cbn. by rewrite Hc, Hb.
Qed.

Lemma Matches_dnsLabel_inv v :
  Matches dnsLabel v -> isDNSLabel (Bytes.of_list v) = true /\ "."%char ∉ v.
Proof.
  intros Hm. split.
  - unfold isDNSLabel. rewrite RuleFacts.to_of_list.
    apply regexpFacts.Matches_Alt_inv in Hm as [Hm|Hm].
    + apply regexpFacts.Matches_Class_inv in Hm as (a & -> & Ha). by rewrite Ha.
    + apply regexpFacts.Matches_Concat_inv in Hm
        as (x & y & -> & (a & -> & Ha)%regexpFacts.Matches_Class_inv & Hy).
      apply regexpFacts.Matches_Concat_inv in Hy
        as (mid & z' & -> & Hmid%Matches_star_class_inv
            & (z & -> & Hz)%regexpFacts.Matches_Class_inv).
      cbn [app]. rewrite Ha. cbn [andb].
      destruct (mid ++ [z]) as [|b t] eqn:Heq; [by destruct mid|].
      rewrite <- Heq, removelast_last, last_last. by rewrite Hmid, Hz.
  - intros Hin. apply regexpFacts.Matches_chars in Hm.
    rewrite List.Forall_forall in Hm. apply list_elem_of_In in Hin.
    by specialize (Hm _ Hin).
Qed.

Lemma splitFrom_no_sep sep cur l rest :
  sep ∉ l ->
  strings.splitFrom sep cur (l ++ rest) = strings.splitFrom sep (rev l ++ cur) rest.
Proof.
  revert cur. induction l as [|c l IH]; intros cur Hl; [done|].
  cbn [app strings.splitFrom]. destruct (Ascii.eqb_spec c sep) as [->|Hne].
  - exfalso. apply Hl. constructor.
  - rewrite IH by (intros Hin; apply Hl; by constructor).
    cbn [rev]. by rewrite <- app_assoc.
Qed.

Lemma Matches_labels_inv u :
  Matches (Star (Concat dnsLabel (Lit "."%char))) u ->
  forall v, forallb isDNSLabel (strings.splitFrom "."%char [] v) = true ->
            forallb isDNSLabel (strings.splitFrom "."%char [] (u ++ v)) = true.
Proof.
  intros Hm. remember (Star (Concat dnsLabel (Lit "."%char))) as r eqn:Hr.
  induction Hm as [| | | | |r0|r0 a b Ha _ Hb IHb]; try done; intros v Hv.
  injection Hr as ->.
  apply regexpFacts.Matches_Concat_inv in Ha
    as (l & d & -> & [Hl Hdot]%Matches_dnsLabel_inv & ->%regexpFacts.Matches_Lit_inv).
  rewrite <- !app_assoc. rewrite splitFrom_no_sep by done.
  cbn [app strings.splitFrom]. rewrite Ascii.eqb_refl. cbn [forallb].
  rewrite app_nil_r, rev_involutive, Hl. cbn [andb]. by apply IHb.
Qed.

Lemma Matches_domain_inv f : Matches domain f -> isDomain (Bytes.of_list f) = true.
Proof.
  intros (u & v & -> & Hu & [Hv Hdot]%Matches_dnsLabel_inv)%regexpFacts.Matches_Concat_inv.
  unfold isDomain, strings.Split. rewrite RuleFacts.to_of_list.
  apply Matches_labels_inv; [done|].
  rewrite <- (app_nil_r v), splitFrom_no_sep by done.
  cbn [strings.splitFrom forallb]. by rewrite app_nil_r, rev_involutive, Hv.
Qed.

End RuleSound.

Section RuleGroups.

(** What a match of the routing-rule pattern looks like. *)
Lemma FindStringSubmatch_groups s :
  traefikRe_FindStringSubmatch s = [] \/
  (length (traefikRe_FindStringSubmatch s) = 3 /\
   Rule.isRouterName (nth 1 (traefikRe_FindStringSubmatch s) "") = true /\
   Rule.isDomain (nth 2 (traefikRe_FindStringSubmatch s) "") = true).
Proof.
  unfold traefikRe_FindStringSubmatch, regexp.FindStringSubmatch.
  destruct (regexp.search _ 0 _) as [[whole caps]|] eqn:Hs; [right|by left].
  apply RuleSound.search_derives in Hs as (s0 & s' & Hd). cbn [snd] in Hd.
  apply RuleSound.Derives_rule in Hd as (n & f & -> & Hn & Hf).
  change (regexp.NumSubexp Pattern.TraefikLabelRegex) with 2.
  cbn [seq map regexp.getCap Nat.eqb length nth]. split; [done|]. split.
  - apply RuleSound.Matches_plus_class_inv in Hn as [Hne Hall].
    unfold Rule.isRouterName. rewrite RuleFacts.to_of_list, Hall, andb_true_r.
    by destruct n.
  - by apply RuleSound.Matches_domain_inv.
Qed.

Lemma ruleHost_domain kv h : ruleHost kv = Some h -> Rule.isDomain h = true.
Proof.
  unfold ruleHost. destruct (FindStringSubmatch_groups (kv.1 +:+ "=" +:+ kv.2)) as [->|(-> & _ & Hd)].
  - done.
  - by intros [= <-].
Qed.

Lemma isDomain_nonempty h : Rule.isDomain h = true -> h <> "".
Proof. by intros Hd ->. Qed.

(** X1. Whatever string the routing-rule pattern is run on, the result
    is either empty (no match) or has exactly three elements; in a match
    the router name (group 1) is a non-empty run of word characters,
    dashes and underscores, and the host (group 2) is a domain:
    dot-separated labels that start with a letter, end with a letter or
    a digit and hold letters, digits and dashes in between.  So the test
    [len(matches) == 3] of the scan is the test for a match, and a host
    read from a label is never empty. *)
Theorem rule_match_groups s :
  traefikRe_FindStringSubmatch s = [] \/
  (length (traefikRe_FindStringSubmatch s) = 3 /\
   Rule.isRouterName (nth 1 (traefikRe_FindStringSubmatch s) "") = true /\
   Rule.isDomain (nth 2 (traefikRe_FindStringSubmatch s) "") = true).
Proof. exact (FindStringSubmatch_groups s). Qed.

End RuleGroups.

(* ================================================================== *)
(** * Where hostnames and addresses come from *)

Section Provenance.
Context `{net.Parser}.

(** One step of the proxy search, with its log. *)
Lemma discoverTraefikLoop_step c rest n ns :
  container.Names c = n :: ns ->
  discoverTraefikLoop (c :: rest) =
  match proxyAddressText c with
  | Some a => (Some (Some (service n "traefik" (net.ParseIP a))), proxyFoundLog c)
  | None => ((discoverTraefikLoop rest).1, proxySkipLog c ++ (discoverTraefikLoop rest).2)
  end.
Proof.
  intros Hn. cbn [discoverTraefikLoop].
  rewrite Split_index0, bind_ret_l.
  unfold proxyAddressText, proxyFoundLog, proxySkipLog, imageName, ipOverride,
    selectedNetwork, name0.
  rewrite Hn. cbn [hd].
  destruct (String.eqb (hd "" _) "traefik"); cbn [negb];
    [|by destruct (discoverTraefikLoop rest)].
  destruct (mapIndex (container.Labels c) "com.autodns.ip") as [v ok].
  destruct (ok && negb (String.eqb v "")).
  - run_named Hn. reflexivity.
  - destruct (mapIndex (container.Labels c) "com.autodns.network") as [nw ok'].
    cbv zeta.
    destruct (container.Networks c !! (if negb ok' then "bridge" else nw)) as [ep|].
    + destruct (String.eqb (network.IPAddress ep) ""); run_named Hn; reflexivity.
    + run_named Hn. reflexivity.
Qed.

Lemma discoverTraefikLoop_none containers :
  Forall named containers ->
  Forall (fun c => proxyAddressText c = None) containers ->
  discoverTraefikLoop containers = (Some None, flat_map proxySkipLog containers).
Proof.
  intros Hnamed Hnone. induction Hnamed as [|c rest Hc _ IH]; [reflexivity|].
  apply Forall_cons in Hnone as [Hx Hrest].
  unfold named in Hc. destruct (container.Names c) as [|n ns] eqn:Hn; [done|].
  rewrite (discoverTraefikLoop_step c rest n ns Hn), Hx, (IH Hrest). reflexivity.
Qed.

Lemma discoverTraefikLoop_first before c after a :
  Forall named (before ++ c :: after) ->
  Forall (fun c' => proxyAddressText c' = None) before ->
  proxyAddressText c = Some a ->
  discoverTraefikLoop (before ++ c :: after) =
  (Some (Some (service (name0 c) "traefik" (net.ParseIP a))),
   flat_map proxySkipLog before ++ proxyFoundLog c).
Proof.
  intros Hnamed Hbefore Hc. induction Hbefore as [|x l Hx _ IH]; cbn [app] in *.
  - apply Forall_cons in Hnamed as [Hcn _].
    unfold named in Hcn. destruct (container.Names c) as [|n ns] eqn:Hn; [done|].
    rewrite (discoverTraefikLoop_step c after n ns Hn), Hc.
    unfold name0. by rewrite Hn.
  - apply Forall_cons in Hnamed as [Hxn Hrest].
    unfold named in Hxn. destruct (container.Names x) as [|n ns] eqn:Hn; [done|].
    rewrite (discoverTraefikLoop_step x _ n ns Hn), Hx, (IH Hrest).
    cbn [fst snd flat_map]. by rewrite app_assoc.
Qed.

(** The proxy the search returns is the first container it accepts. *)
Lemma findProxy_first containers p :
  findProxy containers = Some p ->
  exists before c after a,
    containers = before ++ c :: after /\
    Forall (fun c' => proxyAddressText c' = None) before /\
    proxyAddressText c = Some a /\
    p = service (name0 c) "traefik" (net.ParseIP a).
Proof.
  induction containers as [|c rest IH]; [done|]. cbn [findProxy]. unfold proxyOf at 1.
  destruct (proxyAddressText c) as [a|] eqn:Hc.
  - intros [= <-]. exists [], c, rest, a. by repeat split.
  - intros (before & c' & after & a & -> & Hb & Hc' & ->)%IH.
    exists (c :: before), c', after, a. repeat split; try done. by constructor.
Qed.

Lemma findProxy_none containers :
  findProxy containers = None ->
  Forall (fun c => proxyAddressText c = None) containers.
Proof.
  induction containers as [|c rest IH]; [done|]. cbn [findProxy]. unfold proxyOf at 1.
  destruct (proxyAddressText c) as [a|] eqn:Hc; [done|]. intros Hr. constructor; [done|by apply IH].
Qed.

Lemma selfResolve_addressText n h c d :
  selfResolve n h c d =
  d ++ match addressText c with
       | Some a => [service n h (net.ParseIP a)]
       | None => []
       end.
Proof.
  unfold selfResolve, addressText. destruct (ipOverride c); [done|].
  destruct (container.Networks c !! selectedNetwork c); cbn; [done|by rewrite app_nil_r].
Qed.

Lemma last_in_hosts {A} (l : list A) d : l <> [] -> List.last l d ∈ l.
Proof.
  induction l as [|x l IH]; [done|]. intros _. destruct l as [|y l].
  - constructor.
  - change (List.last (x :: y :: l) d) with (List.last (y :: l) d).
    apply list_elem_of_further. by apply IH.
Qed.

(** Where a Service of a container comes from: its hostname and its
    address. *)
Lemma servicesOf_origin traefikIP c s :
  s ∈ servicesOf traefikIP c ->
  (explicitHostname c = Some (HostnameLabel s) /\
   exists a, addressText c = Some a /\ IPAddress s = net.ParseIP a) \/
  (explicitHostname c = None /\ HostnameLabel s ∈ ruleHosts (container.Labels c) /\
   match traefikIP with
   | Some p => IPAddress s = IPAddress p
   | None => exists a, addressText c = Some a /\ IPAddress s = net.ParseIP a
   end).
Proof.
  destruct (explicitHostname c) as [h|] eqn:Hh.
  - unfold servicesOf, containerResult. rewrite Hh.
    intros [<- Ha]%selfResolve_address. by left.
  - intros Hs. right. split; [done|]. destruct traefikIP as [p|].
    + rewrite (servicesOf_routed p c Hh) in Hs.
      by apply list_elem_of_fmap in Hs as (h & -> & Hin).
    + rewrite (servicesOf_unrouted c Hh) in Hs.
      destruct (ruleHosts (container.Labels c)) as [|h0 hs] eqn:Hr;
        [by apply elem_of_nil in Hs|].
      destruct (String.eqb (List.last hs h0) ""); [by apply elem_of_nil in Hs|].
      apply selfResolve_address in Hs as [Hhost Ha]. split; [|done].
      rewrite Hhost, <- (last_cons_default h0 ""). by apply last_in_hosts.
Qed.

Lemma ruleHosts_nonempty labels h : h ∈ ruleHosts labels -> h <> "".
Proof.
  intros (kv & _ & Hkv)%list_elem_of_omap.
  apply isDomain_nonempty. by apply (ruleHost_domain kv).
Qed.

(** What an iteration adds for a container without a usable explicit
    hostname. *)
Lemma discoverContainer_inferred traefikIP c d n ns :
  container.Names c = n :: ns ->
  explicitHostname c = None ->
  (discoverContainer traefikIP c d).1 =
  Some match traefikIP with
       | Some p => d ++ map (fun h' => service n h' (IPAddress p))
                            (ruleHosts (container.Labels c))
       | None =>
         match ruleHosts (container.Labels c) with
         | [] => d
         | h0 :: hs =>
           d ++ match addressText c with
                | Some a => [service n (List.last hs h0) (net.ParseIP a)]
                | None => []
                end
         end
       end.
Proof.
  intros Hn Hh. rewrite (discoverContainer_named traefikIP c n ns d Hn). f_equal.
  rewrite containerResult_app.
  assert (Hname : name0 c = n) by (unfold name0; by rewrite Hn).
  change (containerResult traefikIP n c []) with
    (containerResult traefikIP n c []). rewrite <- Hname at 1.
  change (containerResult traefikIP (name0 c) c []) with (servicesOf traefikIP c).
  destruct traefikIP as [p|].
  - by rewrite (servicesOf_routed p c Hh), Hname.
  - rewrite (servicesOf_unrouted c Hh).
    destruct (ruleHosts (container.Labels c)) as [|h0 hs] eqn:Hr; [by rewrite app_nil_r|].
    assert (Hne : List.last hs h0 <> "").
    { apply (ruleHosts_nonempty (container.Labels c)). rewrite Hr.
      rewrite <- (last_cons_default h0 ""). by apply last_in_hosts. }
    apply String.eqb_neq in Hne. rewrite Hne, Hname.
    by rewrite selfResolve_addressText.
Qed.

End Provenance.

(* ================================================================== *)
(** * The properties of the specification *)

Section Specification.
Context `{net.Parser}.

(** C2. When [com.autodns.hostname] is present and not empty, its value
    is the hostname the container is registered under, whatever rule
    labels it carries: the iteration adds exactly one Service with that
    hostname and the parse of the address text of the container (its
    non-empty override, else its address on the selected network), or
    nothing when the container has neither; no host of a rule label is
    added, and what the iteration does is the same for any other labels
    and any proxy.  When the label is present and empty it counts as
    absent: the iteration does what it does for the container without
    that label, and the rule labels are read: with a proxy, one Service
    per matching label; without one, the host of the last matching label
    with the address of the container itself. *)
Theorem C2_explicit_hostname traefikIP c d n ns h :
  container.Names c = n :: ns ->
  mapIndex (container.Labels c) "com.autodns.hostname" = (h, true) ->
  (h <> "" ->
     (discoverContainer traefikIP c d).1 =
       Some (d ++ match addressText c with
                  | Some a => [service n h (net.ParseIP a)]
                  | None => []
                  end) /\
     (forall traefikIP' c',
        container.Names c' = container.Names c ->
        container.Networks c' = container.Networks c ->
        mapIndex (container.Labels c') "com.autodns.hostname" = (h, true) ->
        mapIndex (container.Labels c') "com.autodns.ip"
          = mapIndex (container.Labels c) "com.autodns.ip" ->
        mapIndex (container.Labels c') "com.autodns.network"
          = mapIndex (container.Labels c) "com.autodns.network" ->
        discoverContainer traefikIP' c' d = discoverContainer traefikIP c d)) /\
  (h = "" ->
     labelsOK (container.Labels c) ->
     (discoverContainer traefikIP c d).1 =
       (discoverContainer traefikIP (dropLabel "com.autodns.hostname" c) d).1 /\
     (discoverContainer traefikIP c d).1 =
       Some match traefikIP with
            | Some p => d ++ map (fun h' => service n h' (IPAddress p))
                                 (ruleHosts (container.Labels c))
            | None =>
              match ruleHosts (container.Labels c) with
              | [] => d
              | h0 :: hs =>
                d ++ match addressText c with
                     | Some a => [service n (List.last hs h0) (net.ParseIP a)]
                     | None => []
                     end
              end
            end).
Proof.
  intros Hn Hh. split.
  - intros Hne.
    assert (He : explicitHostname c = Some h) by (by apply explicitHostname_Some).
    split.
    + rewrite (discoverContainer_explicit traefikIP c n ns h d Hn He). cbn [fst].
      by rewrite selfResolve_addressText.
    + intros t' c' Hn' Hnet Hh' Hip Hnw.
      assert (He' : explicitHostname c' = Some h) by (by apply explicitHostname_Some).
      rewrite Hn in Hn'.
      rewrite (discoverContainer_explicit t' c' n ns h d Hn' He').
      rewrite (discoverContainer_explicit traefikIP c n ns h d Hn He).
      destruct (selfResolve_ext n h c c' d Hnet Hip Hnw) as [-> ->]. done.
  - intros -> Hok.
    assert (He : explicitHostname c = None) by (unfold explicitHostname; by rewrite Hh).
    split; [|by apply (discoverContainer_inferred traefikIP c d n ns)].
    rewrite (discoverContainer_named traefikIP c n ns d Hn).
    rewrite (discoverContainer_named traefikIP (dropLabel "com.autodns.hostname" c) n ns d Hn).
    f_equal. unfold containerResult.
    assert (He' : explicitHostname (dropLabel "com.autodns.hostname" c) = None).
    { unfold explicitHostname, dropLabel. cbn [container.Labels].
      by rewrite mapIndex_filter_eq. }
    rewrite He, He'. cbn [dropLabel container.Labels].
    rewrite scanResult_filter.
    2: { intros [k v] Hin Hk. apply dec_stable in Hk. cbn in Hk. subst k.
         rewrite (mapIndex_unique _ _ _ _ Hok Hh Hin eq_refl : v = "").
         by vm_compute. }
    destruct (selfResolve_ext n (hostname (scanResult traefikIP n (container.Labels c)
                {| hostname := ""; routed := false; discovered := d |}))
                c (dropLabel "com.autodns.hostname" c)
                (discovered (scanResult traefikIP n (container.Labels c)
                {| hostname := ""; routed := false; discovered := d |}))) as [-> _];
      [done|by apply mapIndex_filter_ne|by apply mapIndex_filter_ne|done].
Qed.

(** C3 (amended). For a container without a usable explicit hostname
    that carries a label of the rule shape for the host [fqdn], when the
    proxy search found a proxy with address A, a Service for [fqdn] with
    address A is discovered; the table maps [fqdn] with a trailing dot to
    the text of A provided no Service discovered after it carries the
    same hostname with another address (the last Service of a hostname
    decides its entry). *)
Theorem C3_proxy_routed_entry containers before c after name fqdn proxy :
  Forall named containers ->
  containers = before ++ c :: after ->
  explicitHostname c = None ->
  (Rule.key name, Rule.value fqdn) ∈ container.Labels c ->
  Rule.isRouterName name = true ->
  Rule.isDomain fqdn = true ->
  (discoverTraefik containers).1 = Some (Some proxy) ->
  exists services s1 s2,
    (discover containers).1 = Some services /\
    services = s1 ++ service (name0 c) fqdn (IPAddress proxy) :: s2 /\
    (Forall (fun s' => HostnameLabel s' = fqdn ->
                       net.IP_String (IPAddress s') = net.IP_String (IPAddress proxy)) s2 ->
     exists tbl,
       (mainTable containers).1 = Some tbl /\
       tbl !! (fqdn +:+ ".") = Some (net.IP_String (IPAddress proxy))).
Proof.
  intros Hall Hinv Hh Hin Hname Hdom Hp.
  rewrite (discoverTraefik_named _ Hall) in Hp. injection Hp as Hp.
  rewrite (discover_named _ Hall), (mainTable_named _ Hall), Hp.
  assert (Hhost : fqdn ∈ ruleHosts (container.Labels c)).
  { apply list_elem_of_omap. eexists. split; [exact Hin|by apply ruleHost_rule]. }
  apply list_elem_of_split in Hhost as (h1 & h2 & Hhosts).
  set (mk := fun h => service (name0 c) h (IPAddress proxy)).
  exists (flat_map (servicesOf (Some proxy)) containers),
         (flat_map (servicesOf (Some proxy)) before ++ map mk h1),
         (map mk h2 ++ flat_map (servicesOf (Some proxy)) after).
  assert (Hsplit : flat_map (servicesOf (Some proxy)) containers =
                   (flat_map (servicesOf (Some proxy)) before ++ map mk h1) ++
                   mk fqdn :: map mk h2 ++ flat_map (servicesOf (Some proxy)) after).
  { rewrite Hinv, flat_map_app. cbn [flat_map].
    rewrite (servicesOf_routed proxy c Hh), Hhosts, map_app. cbn [map].
    by rewrite <- !app_assoc. }
  split; [done|]. split; [exact Hsplit|].
  intros Hlater. eexists. split; [reflexivity|].
  rewrite Hsplit. by apply (buildServiceMap_last_writer _ (mk fqdn)).
Qed.

(** C4 (amended). The proxy search returns at most one Service.  A
    [traefik] image without a non-empty override whose selected network
    has no attachment or an empty address is passed over with a warning,
    and the search goes on with the later containers: the result comes
    from the first container in inventory order that has the image name
    [traefik] and either a non-empty override or a non-empty address on
    its selected network; it is none when there is no such container.
    The log is the opening line, one warning for each [traefik] image
    passed over, and the line of the container that is returned. *)
Theorem C4_proxy_first_usable containers :
  Forall named containers ->
  ((forall c, c ∈ containers -> proxyAddressText c = None) ->
     discoverTraefik containers =
     (Some None,
      (Info, "Searching for Traefik services...") :: flat_map proxySkipLog containers)) /\
  (forall before c after a,
     containers = before ++ c :: after ->
     Forall (fun c' => proxyAddressText c' = None) before ->
     proxyAddressText c = Some a ->
     discoverTraefik containers =
     (Some (Some (service (name0 c) "traefik" (net.ParseIP a))),
      (Info, "Searching for Traefik services...")
        :: flat_map proxySkipLog before ++ proxyFoundLog c)).
Proof.
  intros Hall. unfold discoverTraefik. rewrite bind_logf. split.
  - intros Hnone. rewrite discoverTraefikLoop_none; [done|done|].
    apply Forall_forall. intros c Hc. by apply Hnone.
  - intros before c after a -> Hbefore Hc.
    by rewrite (discoverTraefikLoop_first before c after a Hall Hbefore Hc).
Qed.

(** C5 (amended). A non-empty [com.autodns.ip] is used whether it
    parses or not.  A container with a usable explicit hostname is not
    skipped: its iteration adds one Service whose address is the result of
    [net.ParseIP] on the value ([nil] when it does not parse) and logs the
    override at level info; the loop then goes on with the next
    container.  The proxy search likewise returns the [traefik] container
    with the parsed override as its address. *)
Theorem C5_override_emitted traefikIP c rest d n ns v :
  container.Names c = n :: ns ->
  ipOverride c = Some v ->
  let entry := (Info, "Container `" +:+ n +:+ "` has its own IP address specified: `"
                      +:+ v +:+ "`") in
  (forall h, explicitHostname c = Some h ->
     let d' := d ++ [service n h (net.ParseIP v)] in
     discoverContainer traefikIP c d = (Some d', [entry]) /\
     discoverLoop traefikIP (c :: rest) d =
       ((discoverLoop traefikIP rest d').1, entry :: (discoverLoop traefikIP rest d').2)) /\
  (imageName c = "traefik" ->
     (discoverTraefikLoop (c :: rest)).1 =
     Some (Some (service n "traefik" (net.ParseIP v)))).
Proof.
  intros Hn Hip entry. split.
  - intros h Hh d'.
    assert (Hc : discoverContainer traefikIP c d = (Some d', [entry])).
    { rewrite (discoverContainer_explicit traefikIP c n ns h d Hn Hh).
      unfold selfResolve, selfLog. by rewrite Hip. }
    split; [done|]. cbn [discoverLoop]. rewrite Hc. unfold bind.
    by destruct (discoverLoop traefikIP rest d').
  - intros Himg. rewrite (discoverTraefikLoop_cons c rest n ns Hn).
    unfold proxyOf, proxyAddressText, name0. by rewrite Himg, Hip, Hn.
Qed.

(** C6. A query for a name of the table is answered with exactly one A
    record: the query name, class Internet, TTL 3600, the address parsed
    from the stored value; the reply is authoritative, has recursion
    available set and compression off.  A query for any other name is
    answered with no answer record.  Both replies carry the id of the
    query. *)
Theorem C6_query_answer (serviceMap : gmap string string) writeOK r q qs :
  dns.Questions r = q :: qs ->
  exists resp,
    (handler serviceMap writeOK r).1 = Some (Some resp) /\
    dns.Id resp = dns.Id r /\
    match serviceMap !! dns.Name q with
    | Some ip =>
      dns.Answer resp =
        [dns.A {| dns.Hdr_Name := dns.Name q; dns.Rrtype := dns.TypeA;
                  dns.Class := dns.ClassINET; dns.Ttl := 3600 |} (net.ParseIP ip)] /\
      dns.Authoritative resp = true /\
      dns.RecursionAvailable resp = true /\
      dns.Compress resp = false
    | None => dns.Answer resp = []
    end.
Proof.
  intros Hq. unfold handler. rewrite Hq.
  destruct (serviceMap !! dns.Name q) as [ip|].
  - unfold makeResponse. rewrite bind_logf. cbn [fst snd ret].
    unfold bind at 1. cbn [fst snd ret].
    destruct writeOK; cbn [negb]; rewrite bind_logf; cbn [fst ret]; eauto 10.
  - rewrite bind_logf. cbn [fst ret]. eauto.
Qed.

(** C7 (amended). A container with a usable explicit hostname adds at
    most one Service.  For a container without one, when a proxy has been
    discovered, the scan does not stop at the first matching label: it
    adds one Service per label that matches the rule pattern, in
    iteration order, each with the address of the proxy. *)
Theorem C7_services_per_container traefikIP c d n ns :
  container.Names c = n :: ns ->
  (forall h, explicitHostname c = Some h ->
     exists extra,
       (discoverContainer traefikIP c d).1 = Some (d ++ extra) /\ length extra <= 1) /\
  (forall p, explicitHostname c = None -> traefikIP = Some p ->
     (discoverContainer traefikIP c d).1 =
     Some (d ++ map (fun h => service n h (IPAddress p)) (ruleHosts (container.Labels c)))).
Proof.
  intros Hn. split.
  - intros h Hh. rewrite (discoverContainer_explicit traefikIP c n ns h d Hn Hh). cbn [fst].
    rewrite selfResolve_app. eexists. split; [reflexivity|].
    unfold selfResolve. destruct (ipOverride c); [done|].
    destruct (container.Networks c !! selectedNetwork c); cbn; lia.
  - intros p Hh ->. rewrite (discoverContainer_named (Some p) c n ns d Hn). f_equal.
    unfold containerResult. rewrite Hh, scanResult_eq. cbn [hostname routed discovered orb].
    destruct (ruleHosts (container.Labels c)) as [|h0 hs]; cbn; [by rewrite app_nil_r|done].
Qed.

(** C8 (amended). Every key of the table is a hostname followed by a
    dot, and some container of the inventory declares that hostname; the
    value is the text [IP.String()] of the result of [net.ParseIP] on an
    address text: that of the container itself (its non-empty override,
    else its address on its selected network) when the hostname is its
    explicit hostname, and that of the proxy (the first container the
    proxy search accepts) when the hostname is the host of one of its rule
    labels and a proxy was found (without a proxy, again that of the
    container itself).  Nothing checks the result of the parse: the value
    is a dotted-decimal IPv4 text when the parse gives an IPv4 address,
    and it is the text of the [nil] address when the parse fails. *)
Theorem C8_entry_values containers :
  Forall named containers ->
  exists tbl,
    (mainTable containers).1 = Some tbl /\
    forall k v, tbl !! k = Some v ->
      exists h c a,
        k = h +:+ "." /\ c ∈ containers /\
        v = net.IP_String (net.ParseIP a) /\
        (net.ParseIP a = [] -> v = "<nil>") /\
        (forall w x y z, net.ParseIP a = net.IPv4 w x y z -> v = net.dotted w x y z) /\
        ((explicitHostname c = Some h /\ addressText c = Some a) \/
         (explicitHostname c = None /\ h ∈ ruleHosts (container.Labels c) /\
          ((exists before c' after,
              containers = before ++ c' :: after /\
              Forall (fun x => proxyAddressText x = None) before /\
              proxyAddressText c' = Some a) \/
           (Forall (fun x => proxyAddressText x = None) containers /\
            addressText c = Some a)))).
Proof.
  intros Hall. eexists. split; [by apply mainTable_named|].
  intros k v (s & Hs & -> & ->)%buildServiceMap_entry.
  apply list_elem_of_In, in_flat_map in Hs as (c & Hc%list_elem_of_In & Hs%list_elem_of_In).
  assert (Hval : forall a, IPAddress s = net.ParseIP a ->
            net.IP_String (IPAddress s) = net.IP_String (net.ParseIP a) /\
            (net.ParseIP a = [] -> net.IP_String (IPAddress s) = "<nil>") /\
            (forall w x y z, net.ParseIP a = net.IPv4 w x y z ->
                             net.IP_String (IPAddress s) = net.dotted w x y z)).
  { intros a ->. split; [done|]. split; [by intros ->|by intros w x y z ->]. }
  apply servicesOf_origin in Hs as [(Hh & a & Ha & Hip)|(Hh & Hin & Hsrc)].
  - exists (HostnameLabel s), c, a. destruct (Hval a Hip) as (? & ? & ?).
    repeat split; try done. by left.
  - destruct (findProxy containers) as [p|] eqn:Hp.
    + apply findProxy_first in Hp as (before & c' & after & a & Hsplit & Hb & Hc' & ->).
      cbn [IPAddress service] in Hsrc. exists (HostnameLabel s), c, a.
      destruct (Hval a Hsrc) as (? & ? & ?). repeat split; try done.
      right. repeat split; try done. left. by exists before, c', after.
    + destruct Hsrc as (a & Ha & Hip). exists (HostnameLabel s), c, a.
      destruct (Hval a Hip) as (? & ? & ?). repeat split; try done.
      right. repeat split; try done. right. split; [by apply findProxy_none|done].
Qed.

(** C9. A container with a usable explicit hostname and no address
    override that has no attachment on its selected network (the value of
    [com.autodns.network], [bridge] when the label is absent) adds no
    Service: its iteration leaves [discovered] as it was and logs the
    warning, and the table is the one of the inventory without it. *)
Theorem C9_unattached_no_entry before c after h :
  Forall named (before ++ c :: after) ->
  explicitHostname c = Some h ->
  ipOverride c = None ->
  container.Networks c !! selectedNetwork c = None ->
  (forall traefikIP d,
     discoverContainer traefikIP c d =
     (Some d, [(Warn, "Container `" +:+ name0 c +:+ "` is not on network `"
                      +:+ selectedNetwork c +:+ "`, skipping")])) /\
  (mainTable (before ++ c :: after)).1 = (mainTable (before ++ after)).1.
Proof.
  intros Hall Hh Hip Hnet.
  assert (Hall' : Forall named (before ++ after)).
  { apply Forall_app in Hall as [? Hc]. apply Forall_app. split; [done|].
    by apply Forall_cons in Hc as [_ ?]. }
  assert (Hc : named c).
  { apply Forall_app in Hall as [_ Hc]. by apply Forall_cons in Hc as [? _]. }
  unfold named in Hc. destruct (container.Names c) as [|n ns] eqn:Hn; [done|].
  assert (Hn0 : name0 c = n) by (unfold name0; by rewrite Hn).
  split.
  - intros t d. rewrite (discoverContainer_explicit t c n ns h d Hn Hh).
    unfold selfResolve, selfLog. by rewrite Hip, Hnet, Hn0.
  - rewrite !mainTable_named by done. do 2 f_equal.
    assert (Hp : proxyOf c = None).
    { unfold proxyOf, proxyAddressText. rewrite Hip, Hnet. by destruct (String.eqb _ _). }
    assert (Hf : findProxy (before ++ c :: after) = findProxy (before ++ after)).
    { rewrite !findProxy_app. cbn [findProxy]. by rewrite Hp. }
    rewrite Hf, !flat_map_app. cbn [flat_map]. f_equal.
    unfold servicesOf at 1, containerResult, selfResolve. by rewrite Hh, Hip, Hnet.
Qed.


End Specification.

(* ================================================================== *)
(** * Concrete runs *)

(** The matcher on a few labels: a rule; a match that starts inside the
    text, with other characters where the pattern has dots; a greedy
    router name that has to give characters back; a router name with a
    dot, a host with an underscore and a rule that does not start with
    [Host], which do not match; a three-byte rune and a newline under a
    dot. *)
Example match_rule :
  traefikRe_FindStringSubmatch "traefik.http.routers.svc.rule=Host(`site.io`)"
  = ["traefik.http.routers.svc.rule=Host(`site.io`)"; "svc"; "site.io"].
Proof. by vm_compute. Qed.

Example match_inside :
  traefikRe_FindStringSubmatch "xxtraefik-http/routers_svc-1_a!rule=Host(`a-b.c9.site.io`) && Path"
  = ["traefik-http/routers_svc-1_a!rule=Host(`a-b.c9.site.io`)"; "svc-1_a"; "a-b.c9.site.io"].
Proof. by vm_compute. Qed.

Example match_backtrack :
  traefikRe_FindStringSubmatch "traefik.http.routers.a-rule=Host(`x.y`)"
  = ["traefik.http.routers.a-rule=Host(`x.y`)"; "a"; "x.y"].
Proof. by vm_compute. Qed.

Example no_match :
  traefikRe_FindStringSubmatch "traefik.http.routers.a.b.rule=Host(`x.y`)" = [] /\
  traefikRe_FindStringSubmatch "traefik.http.routers.a.rule=Host(`a_b.c`)" = [] /\
  traefikRe_FindStringSubmatch "traefik.http.routers.a.rule=PathPrefix(`/x`) && Host(`x.y`)" = [] /\
  traefikRe_FindStringSubmatch "com.autodns.hostname=" = [].
Proof. repeat split; by vm_compute. Qed.

Example match_rune :
  let snowman := String "226" (String "152" (String "131" "")) in
  let newline := String "010" "" in
  length (traefikRe_FindStringSubmatch
            ("traefik" +:+ snowman +:+ "http.routers.a.rule=Host(`a`)")) = 3 /\
  traefikRe_FindStringSubmatch
    ("traefik" +:+ newline +:+ "http.routers.a.rule=Host(`a`)") = [].
Proof. cbv zeta. split; by vm_compute. Qed.

(** The two scenarios of the specification. *)
Example scenario_explicit_hostname :
  let tbl := (@mainTable net.dottedParser [Samples.web1]).1 in
  tbl = Some {["app.local." := "172.17.0.5"]} /\
  (dns.Answer <$>
     (@handler net.dottedParser {["app.local." := "172.17.0.5"]} true
        (Samples.query 1 "app.local.")).1 ≫= id)
    = Some [dns.A {| dns.Hdr_Name := "app.local."; dns.Rrtype := dns.TypeA;
                     dns.Class := dns.ClassINET; dns.Ttl := 3600 |}
                  (net.IPv4 172 17 0 5)] /\
  (dns.Answer <$>
     (@handler net.dottedParser {["app.local." := "172.17.0.5"]} true
        (Samples.query 2 "other.local.")).1 ≫= id)
    = Some [].
Proof. cbv zeta. repeat split; by vm_compute. Qed.

Example scenario_proxy_routed :
  (@mainTable net.dottedParser [Samples.proxy1; Samples.svc1]).1
    = Some {["site.io." := "172.17.0.9"]}.
Proof. by vm_compute. Qed.

(** C1. An inventory without a proxy and one container whose hostname
    comes from a routing rule only: the proxy search finds nothing and the
    warning is logged, yet the [continue] after it only moves on to the
    next label, so the container goes on as self-resolved and its rule
    host is in the table, under the container's own address. *)
Theorem C1_rule_host_registered_without_proxy :
  (@discoverTraefik net.dottedParser [Samples.svc1]).1 = Some None /\
  explicitHostname Samples.svc1 = None /\
  ruleHosts (container.Labels Samples.svc1) = ["site.io"] /\
  (Warn, "Container `svc1` has Traefik hostname `site.io`, but no Traefik service discovered, skipping")
    ∈ (@discover net.dottedParser [Samples.svc1]).2 /\
  (@discover net.dottedParser [Samples.svc1]).1 =
    Some [service "svc1" "site.io" (net.IPv4 172 17 0 7)] /\
  ((@mainTable net.dottedParser [Samples.svc1]).1 ≫= (fun tbl => tbl !! "site.io."))
    = Some "172.17.0.7".
Proof.
  repeat split; try by vm_compute.
  vm_compute. do 3 right. left.
Qed.

Lemma C2_explicit_hostname_witness :
  ((container.Names Samples.both = ["both"] /\
    mapIndex (container.Labels Samples.both) "com.autodns.hostname" = ("app.local", true) /\
    "app.local" <> "") /\
   (@discoverContainer net.dottedParser
      (Some (service "proxy1" "traefik" (net.IPv4 172 17 0 9))) Samples.both []).1
     = Some [service "both" "app.local" (net.IPv4 172 17 0 4)]) /\
  ((container.Names Samples.hollow = ["hollow"] /\
    mapIndex (container.Labels Samples.hollow) "com.autodns.hostname" = ("", true) /\
    labelsOK (container.Labels Samples.hollow)) /\
   (@discoverContainer net.dottedParser
      (Some (service "proxy1" "traefik" (net.IPv4 172 17 0 9))) Samples.hollow []).1 =
   (@discoverContainer net.dottedParser
      (Some (service "proxy1" "traefik" (net.IPv4 172 17 0 9)))
      (dropLabel "com.autodns.hostname" Samples.hollow) []).1 /\
   (@discoverContainer net.dottedParser
      (Some (service "proxy1" "traefik" (net.IPv4 172 17 0 9))) Samples.hollow []).1 =
   Some [service "hollow" "site.io" (net.IPv4 172 17 0 9)]).
Proof.
  assert (Hok : labelsOK (container.Labels Samples.hollow)).
  { unfold labelsOK. apply (bool_decide_unpack _). by vm_compute. }
  split; (split; [repeat split; (exact Hok || reflexivity || discriminate)|]).
  - refine (proj1 (proj1 (@C2_explicit_hostname net.dottedParser
              (Some (service "proxy1" "traefik" (net.IPv4 172 17 0 9)))
              Samples.both [] "both" [] "app.local" eq_refl eq_refl) _)).
    discriminate.
  - exact (proj2 (@C2_explicit_hostname net.dottedParser
                    (Some (service "proxy1" "traefik" (net.IPv4 172 17 0 9)))
                    Samples.hollow [] "hollow" [] "" eq_refl eq_refl) eq_refl Hok).
Defined.

Lemma C3_proxy_routed_entry_witness :
  (Forall named [Samples.proxy1; Samples.svc1] /\
   explicitHostname Samples.svc1 = None /\
   (Rule.key "svc", Rule.value "site.io") ∈ container.Labels Samples.svc1 /\
   Rule.isRouterName "svc" = true /\
   Rule.isDomain "site.io" = true /\
   (@discoverTraefik net.dottedParser [Samples.proxy1; Samples.svc1]).1
     = Some (Some (service "proxy1" "traefik" (net.IPv4 172 17 0 9)))) /\
  exists services s1 s2,
    (@discover net.dottedParser [Samples.proxy1; Samples.svc1]).1 = Some services /\
    services = s1 ++ service "svc1" "site.io" (net.IPv4 172 17 0 9) :: s2 /\
    (Forall (fun s' => HostnameLabel s' = "site.io" ->
                       net.IP_String (IPAddress s') = "172.17.0.9") s2 ->
     exists tbl,
       (@mainTable net.dottedParser [Samples.proxy1; Samples.svc1]).1 = Some tbl /\
       tbl !! "site.io." = Some "172.17.0.9").
Proof.
  assert (Hall : Forall named [Samples.proxy1; Samples.svc1])
    by (repeat constructor; discriminate).
  assert (Hin : (Rule.key "svc", Rule.value "site.io") ∈ container.Labels Samples.svc1)
    by constructor.
  split; [repeat split; (exact Hall || exact Hin || by vm_compute)|].
  exact (@C3_proxy_routed_entry net.dottedParser [Samples.proxy1; Samples.svc1]
           [Samples.proxy1] Samples.svc1 [] "svc" "site.io"
           (service "proxy1" "traefik" (net.IPv4 172 17 0 9))
           Hall eq_refl eq_refl Hin eq_refl eq_refl eq_refl).
Defined.

(** C3 as stated fails: a later container registers the host of the
    rule under its own address, and the table keeps the later one. *)
Lemma C3_counterexample :
  let inv := [Samples.proxy1; Samples.svc1; Samples.web2] in
  (@discoverTraefik net.dottedParser inv).1
    = Some (Some (service "proxy1" "traefik" (net.IPv4 172 17 0 9))) /\
  explicitHostname Samples.svc1 = None /\
  (Rule.key "svc", Rule.value "site.io") ∈ container.Labels Samples.svc1 /\
  Rule.isRouterName "svc" = true /\ Rule.isDomain "site.io" = true /\
  ((@mainTable net.dottedParser inv).1 ≫= (fun tbl => tbl !! "site.io."))
    = Some "172.17.0.6" /\
  ((@mainTable net.dottedParser inv).1 ≫= (fun tbl => tbl !! "site.io."))
    <> Some (net.IP_String (net.IPv4 172 17 0 9)).
Proof.
  cbv zeta. repeat split; try by vm_compute. constructor.
Qed.

Lemma C4_proxy_first_usable_witness :
  (Forall named [Samples.proxy0; Samples.proxy1] /\
   Forall (fun c' => @proxyAddressText c' = None) [Samples.proxy0] /\
   proxyAddressText Samples.proxy1 = Some "172.17.0.9") /\
  @discoverTraefik net.dottedParser [Samples.proxy0; Samples.proxy1] =
  (Some (Some (service "proxy1" "traefik" (net.IPv4 172 17 0 9))),
   [(Info, "Searching for Traefik services...");
    (Warn, "Container `proxy0` is not on network `bridge`, skipping");
    (Info, "Found Traefik service in container `proxy1` with IP `172.17.0.9` on network `bridge`")]).
Proof.
  assert (Hall : Forall named [Samples.proxy0; Samples.proxy1])
    by (repeat constructor; discriminate).
  assert (Hbefore : Forall (fun c' => @proxyAddressText c' = None) [Samples.proxy0])
    by (repeat constructor).
  split; [repeat split; (exact Hall || exact Hbefore || reflexivity)|].
  exact (proj2 (@C4_proxy_first_usable net.dottedParser
                  [Samples.proxy0; Samples.proxy1] Hall)
               [Samples.proxy0] Samples.proxy1 [] "172.17.0.9" eq_refl Hbefore eq_refl).
Defined.

(** C4 as stated fails: the first [traefik] image has no attachment on
    its network, and the search returns the second one instead of none. *)
Lemma C4_counterexample :
  let inv := [Samples.proxy0; Samples.proxy1] in
  imageName Samples.proxy0 = "traefik" /\
  ipOverride Samples.proxy0 = None /\
  container.Networks Samples.proxy0 !! selectedNetwork Samples.proxy0 = None /\
  (@discoverTraefik net.dottedParser inv).1
    = Some (Some (service "proxy1" "traefik" (net.IPv4 172 17 0 9))) /\
  (@discoverTraefik net.dottedParser inv).1 <> Some None.
Proof. cbv zeta. repeat split; by vm_compute. Qed.

Lemma C5_override_emitted_witness :
  (container.Names Samples.bad = ["bad"] /\
   ipOverride Samples.bad = Some "not-an-ip" /\
   explicitHostname Samples.bad = Some "bad.local") /\
  @discoverContainer net.dottedParser None Samples.bad [] =
  (Some [service "bad" "bad.local" []],
   [(Info, "Container `bad` has its own IP address specified: `not-an-ip`")]).
Proof.
  split; [repeat split; reflexivity|].
  exact (proj1 (proj1 (@C5_override_emitted net.dottedParser None Samples.bad [] []
                         "bad" [] "not-an-ip" eq_refl eq_refl)
                      "bad.local" eq_refl)).
Defined.

(** C5 as stated fails: the override does not parse, and the container
    is not skipped: a Service with the [nil] address is discovered. *)
Lemma C5_counterexample :
  ipOverride Samples.bad = Some "not-an-ip" /\
  net.parseIPv4 "not-an-ip" = [] /\
  (@discover net.dottedParser [Samples.bad]).1 = Some [service "bad" "bad.local" []] /\
  (@discover net.dottedParser [Samples.bad]).1 <> Some [].
Proof. repeat split; by vm_compute. Qed.

Lemma C6_query_answer_witness :
  dns.Questions (Samples.query 7 "app.local.") =
    [{| dns.Name := "app.local."; dns.Qtype := dns.TypeA; dns.Qclass := dns.ClassINET |}] /\
  exists resp,
    (@handler net.dottedParser {["app.local." := "172.17.0.5"]} true
       (Samples.query 7 "app.local.")).1 = Some (Some resp) /\
    dns.Id resp = 7%N /\
    dns.Answer resp =
      [dns.A {| dns.Hdr_Name := "app.local."; dns.Rrtype := dns.TypeA;
                dns.Class := dns.ClassINET; dns.Ttl := 3600 |}
             (net.IPv4 172 17 0 5)] /\
    dns.Authoritative resp = true /\
    dns.RecursionAvailable resp = true /\
    dns.Compress resp = false.
Proof.
  split; [reflexivity|].
  exact (@C6_query_answer net.dottedParser {["app.local." := "172.17.0.5"]} true
           (Samples.query 7 "app.local.") _ [] eq_refl).
Defined.

Lemma C7_services_per_container_witness :
  (container.Names Samples.svc2 = ["svc2"] /\ explicitHostname Samples.svc2 = None) /\
  (@discoverContainer net.dottedParser
     (Some (service "proxy1" "traefik" (net.IPv4 172 17 0 9))) Samples.svc2 []).1 =
  Some [service "svc2" "a.io" (net.IPv4 172 17 0 9);
        service "svc2" "b.io" (net.IPv4 172 17 0 9)].
Proof.
  split; [split; reflexivity|].
  exact (proj2 (@C7_services_per_container net.dottedParser
                  (Some (service "proxy1" "traefik" (net.IPv4 172 17 0 9)))
                  Samples.svc2 [] "svc2" [] eq_refl)
               (service "proxy1" "traefik" (net.IPv4 172 17 0 9)) eq_refl eq_refl).
Defined.

(** C7 as stated fails: one container with two rule labels, behind a
    discovered proxy, yields two Services. *)
Lemma C7_counterexample :
  (@discover net.dottedParser [Samples.proxy1; Samples.svc2]).1 =
    Some [service "svc2" "a.io" (net.IPv4 172 17 0 9);
          service "svc2" "b.io" (net.IPv4 172 17 0 9)] /\
  ~ (exists services,
       (@discover net.dottedParser [Samples.proxy1; Samples.svc2]).1 = Some services /\
       length (filter (fun s => ContainerName s = "svc2") services) <= 1).
Proof.
  split; [by vm_compute|].
  intros (services & Hs & Hlen). vm_compute in Hs. injection Hs as <-.
  vm_compute in Hlen. lia.
Qed.

Lemma C8_entry_values_witness :
  let containers := [Samples.proxy1; Samples.svc1; Samples.bad] in
  Forall named containers /\
  exists tbl,
    (@mainTable net.dottedParser containers).1 = Some tbl /\
    tbl !! "site.io." = Some "172.17.0.9" /\
    tbl !! "bad.local." = Some "<nil>" /\
    forall k v, tbl !! k = Some v ->
      exists h c a,
        k = h +:+ "." /\ c ∈ containers /\
        v = net.IP_String (net.parseIPv4 a) /\
        (net.parseIPv4 a = [] -> v = "<nil>") /\
        (forall w x y z, net.parseIPv4 a = net.IPv4 w x y z -> v = net.dotted w x y z) /\
        ((explicitHostname c = Some h /\ addressText c = Some a) \/
         (explicitHostname c = None /\ h ∈ ruleHosts (container.Labels c) /\
          ((exists before c' after,
              containers = before ++ c' :: after /\
              Forall (fun x => proxyAddressText x = None) before /\
              proxyAddressText c' = Some a) \/
           (Forall (fun x => proxyAddressText x = None) containers /\
            addressText c = Some a)))).
Proof.
  intros containers.
  assert (Hall : Forall named containers) by (repeat constructor; discriminate).
  split; [exact Hall|].
  destruct (@C8_entry_values net.dottedParser containers Hall) as (tbl & Htbl & Hvalues).
  exists tbl. split; [exact Htbl|].
  assert (Hrun : (@mainTable net.dottedParser containers).1 =
                 Some (buildServiceMap [service "svc1" "site.io" (net.IPv4 172 17 0 9);
                                        service "bad" "bad.local" []]))
    by (vm_compute; reflexivity).
  rewrite Hrun in Htbl. injection Htbl as <-.
  split; [vm_compute; reflexivity|]. split; [vm_compute; reflexivity|]. exact Hvalues.
Defined.

Lemma digitChar_not_lt (d : N) : (d < 10)%N -> net.digitChar d <> "<"%char.
Proof.
  intros Hd. destruct d as [|p]; [done|].
  do 4 (destruct p as [p|p|]; try done; try lia).
Qed.

Lemma dotted_not_nil w x y z : (w < 256)%N -> net.dotted w x y z <> "<nil>".
Proof.
  intros Hw. unfold net.dotted, net.utoa.
  assert (H10 : forall d, (d < 10)%N -> forall t, String (net.digitChar d) t <> "<nil>").
  { intros d Hd t [= Hc _]. by apply (digitChar_not_lt d). }
  destruct (w <? 10)%N eqn:H1; [apply N.ltb_lt in H1; by apply H10|].
  destruct (w <? 100)%N eqn:H2.
  - apply N.ltb_lt in H2. apply H10. by apply N.Div0.div_lt_upper_bound.
  - apply H10. apply N.Div0.div_lt_upper_bound. lia.
Qed.

(** C8 as stated fails: the value stored for a hostname whose override
    does not parse is the text of the [nil] address, not an IPv4 text. *)
Lemma C8_counterexample :
  ((@mainTable net.dottedParser [Samples.bad]).1 ≫= (fun tbl => tbl !! "bad.local."))
    = Some "<nil>" /\
  net.IP_String (net.parseIPv4 "not-an-ip") = "<nil>" /\
  ~ isIPv4Text "<nil>".
Proof.
  repeat split; try by vm_compute.
  intros (w & x & y & z & (Hw & _) & Heq). symmetry in Heq. by apply dotted_not_nil in Heq.
Qed.

Lemma C9_unattached_no_entry_witness :
  (Forall named ([Samples.web1] ++ Samples.lonely :: [Samples.proxy1]) /\
   @explicitHostname Samples.lonely = Some "lonely.local" /\
   ipOverride Samples.lonely = None /\
   container.Networks Samples.lonely !! selectedNetwork Samples.lonely = None) /\
  (forall traefikIP d,
     @discoverContainer net.dottedParser traefikIP Samples.lonely d =
     (Some d, [(Warn, "Container `" +:+ name0 Samples.lonely +:+ "` is not on network `"
                      +:+ selectedNetwork Samples.lonely +:+ "`, skipping")])) /\
  (@mainTable net.dottedParser ([Samples.web1] ++ Samples.lonely :: [Samples.proxy1])).1 =
  (@mainTable net.dottedParser ([Samples.web1] ++ [Samples.proxy1])).1.
Proof.
  assert (Hall : Forall named ([Samples.web1] ++ Samples.lonely :: [Samples.proxy1]))
    by (repeat constructor; discriminate).
  split; [repeat split; (exact Hall || reflexivity)|].
  exact (@C9_unattached_no_entry net.dottedParser [Samples.web1] Samples.lonely
           [Samples.proxy1] "lonely.local" Hall eq_refl eq_refl eq_refl).
Defined.



(* ================================================================== *)
(** * The rest of the program *)

Section Binds.

Lemma bind_ext {A B} (m : M A) (f g : A -> M B) :
  (forall a, f a = g a) -> bind m f = bind m g.
Proof. intros Hfg. destruct m as [[a|] l]; cbn; [by rewrite Hfg|done]. Qed.

Lemma bind_panic {A B} (f : A -> M B) : bind panic f = (None, []).
Proof. reflexivity. Qed.

End Binds.

(** Runs the binds of a computation on a container without a name. *)
Ltac run_unnamed Hn :=
  repeat (rewrite ?Hn; cbn [index0]; rewrite ?bind_panic, ?bind_logf; cbn [fst snd]).

Section Unnamed.
Context `{net.Parser}.

Lemma scanLabels_nomatch traefikIP c labels st :
  ruleHosts labels = [] -> scanLabels traefikIP c labels st = (Some st, []).
Proof.
  induction labels as [|[label value] rest IH]; [done|].
  unfold ruleHosts. cbn [omap list_omap]. unfold ruleHost at 1. cbn [fst snd scanLabels].
  destruct (length _ =? 3); [done|]. exact IH.
Qed.

Lemma scanLabels_unnamed traefikIP c labels st :
  container.Names c = [] -> ruleHosts labels <> [] ->
  (scanLabels traefikIP c labels st).1 = None.
Proof.
  intros Hn. induction labels as [|[label value] rest IH]; [done|].
  unfold ruleHosts. cbn [omap list_omap]. unfold ruleHost at 1. cbn [fst snd scanLabels].
  destruct (length _ =? 3); [|exact IH]. intros _. by run_unnamed Hn.
Qed.

Lemma resolveAddress_unnamed c h d :
  container.Names c = [] -> (resolveAddress c h d).1 = None.
Proof.
  intros Hn. unfold resolveAddress.
  destruct (mapIndex (container.Labels c) "com.autodns.ip") as [v ok].
  destruct (ok && negb (String.eqb v "")); [by run_unnamed Hn|].
  destruct (mapIndex (container.Labels c) "com.autodns.network") as [nw ok'].
  cbv zeta. destruct (container.Networks c !! _); by run_unnamed Hn.
Qed.

Lemma explicitHostname_None c :
  explicitHostname c = None ->
  exists ok, mapIndex (container.Labels c) "com.autodns.hostname" = ("", ok).
Proof.
  unfold explicitHostname.
  destruct (mapIndex (container.Labels c) "com.autodns.hostname") as [h ok] eqn:Hh.
  destruct ok; cbn [andb].
  - destruct (String.eqb_spec h "") as [->|]; [eauto|done].
  - intros _. rewrite (mapIndex_absent _ _ _ Hh). eauto.
Qed.

(** A container that names no host is passed over. *)
Lemma discoverContainer_skip traefikIP c d :
  explicitHostname c = None ->
  ruleHosts (container.Labels c) = [] ->
  discoverContainer traefikIP c d = (Some d, []).
Proof.
  intros [ok Hh]%explicitHostname_None Hr. unfold discoverContainer. rewrite Hh.
  replace (negb ok || String.eqb "" "") with true by (by destruct ok).
  by rewrite (scanLabels_nomatch _ _ _ _ Hr).
Qed.

(** When an iteration panics. *)
Lemma discoverContainer_None_iff traefikIP c d :
  (discoverContainer traefikIP c d).1 = None <->
  container.Names c = [] /\
  (explicitHostname c <> None \/ ruleHosts (container.Labels c) <> []).
Proof.
  split.
  - intros Hp. destruct (container.Names c) as [|n ns] eqn:Hn.
    + split; [done|].
      destruct (explicitHostname c) as [h|] eqn:Hh; [by left|right].
      intros Hr. by rewrite (discoverContainer_skip _ _ _ Hh Hr) in Hp.
    + by rewrite (discoverContainer_named _ _ _ _ _ Hn) in Hp.
  - intros [Hn Hsrc]. unfold discoverContainer.
    destruct (explicitHostname c) as [h|] eqn:Hh.
    + apply explicitHostname_Some in Hh as [Hh Hne]. rewrite Hh.
      apply String.eqb_neq in Hne. rewrite Hne. cbn [negb orb].
      rewrite bind_ret_l. cbn [routed hostname discovered]. rewrite Hne.
      by apply resolveAddress_unnamed.
    + destruct Hsrc as [?|Hr]; [done|].
      apply explicitHostname_None in Hh as [ok Hh]. rewrite Hh.
      replace (negb ok || String.eqb "" "") with true by (by destruct ok).
      pose proof (scanLabels_unnamed traefikIP c (container.Labels c)
                    {| hostname := ""; routed := false; discovered := d |} Hn Hr) as Hs.
      destruct (scanLabels _ _ _ _) as [[st|] l]; [done|done].
Qed.

(** X2. A container with no usable [com.autodns.hostname] (absent or
    empty) and no label that matches the routing-rule pattern is passed
    over: the list of Services is unchanged and nothing is logged, and
    its name is not read, so the iteration does not panic even when the
    container has no name. *)
Theorem skip_without_hostname traefikIP c d :
  explicitHostname c = None ->
  ruleHosts (container.Labels c) = [] ->
  discoverContainer traefikIP c d = (Some d, []).
Proof. apply discoverContainer_skip. Qed.

(** X3. An iteration of the loop of [discover] panics (on
    [container.Names[0]]) exactly when the container has no name and
    either has a usable explicit hostname or has a label that matches
    the routing-rule pattern. *)
Theorem discoverContainer_panics_iff traefikIP c d :
  (discoverContainer traefikIP c d).1 = None <->
  container.Names c = [] /\
  (explicitHostname c <> None \/ ruleHosts (container.Labels c) <> []).
Proof. apply discoverContainer_None_iff. Qed.

End Unnamed.

Section Invariants.
Context `{net.Parser}.

Lemma servicesOf_nothing traefikIP c :
  explicitHostname c = None -> ruleHosts (container.Labels c) = [] ->
  servicesOf traefikIP c = [].
Proof.
  intros Hh Hr. unfold servicesOf, containerResult.
  rewrite Hh, scanResult_eq, Hr. destruct traefikIP; reflexivity.
Qed.

(** An iteration that does not panic adds the Services of its container,
    and none for a container without a name. *)
Lemma discoverContainer_Some traefikIP c d r :
  (discoverContainer traefikIP c d).1 = Some r ->
  r = d ++ servicesOf traefikIP c /\
  (container.Names c = [] -> servicesOf traefikIP c = []).
Proof.
  intros Hr. destruct (container.Names c) as [|n ns] eqn:Hn.
  - destruct (explicitHostname c) as [h|] eqn:Hh.
    { assert (Hp : (discoverContainer traefikIP c d).1 = None)
        by (apply discoverContainer_None_iff; split; [done|left; by rewrite Hh]).
      congruence. }
    destruct (ruleHosts (container.Labels c)) as [|h0 hs] eqn:Hrule.
    + rewrite (discoverContainer_skip _ _ _ Hh Hrule) in Hr. injection Hr as <-.
      by rewrite servicesOf_nothing, app_nil_r.
    + assert (Hp : (discoverContainer traefikIP c d).1 = None)
        by (apply discoverContainer_None_iff; split; [done|right; by rewrite Hrule]).
      congruence.
  - rewrite (discoverContainer_named _ _ _ _ _ Hn) in Hr. injection Hr as <-.
    split; [|done]. unfold servicesOf, name0. rewrite Hn. apply containerResult_app.
Qed.

Lemma discoverLoop_Some traefikIP containers d r :
  (discoverLoop traefikIP containers d).1 = Some r ->
  r = d ++ flat_map (servicesOf traefikIP) containers /\
  Forall (fun c => container.Names c = [] -> servicesOf traefikIP c = []) containers.
Proof.
  revert d. induction containers as [|c rest IH]; intros d; cbn [discoverLoop flat_map].
  - intros [= <-]. by rewrite app_nil_r.
  - destruct (discoverContainer traefikIP c d) as [[d1|] l] eqn:Hc; [|done].
    pose proof (discoverContainer_Some traefikIP c d d1) as Hd1. rewrite Hc in Hd1.
    destruct (Hd1 eq_refl) as [-> Hun].
    rewrite (bind_fst_Some _ _ (d ++ servicesOf traefikIP c)) by done.
    intros [-> Hall]%IH. split; [by rewrite <- app_assoc|by constructor].
Qed.

Lemma discover_Some containers services :
  (discover containers).1 = Some services ->
  exists traefikIP,
    (discoverTraefik containers).1 = Some traefikIP /\
    services = flat_map (servicesOf traefikIP) containers /\
    Forall (fun c => container.Names c = [] -> servicesOf traefikIP c = []) containers.
Proof.
  unfold discover. rewrite bind_logf. cbn [fst].
  destruct (discoverTraefik containers) as [[t|] l] eqn:Ht; [|done].
  rewrite (bind_fst_Some _ _ t) by done.
  destruct (discoverLoop t containers []) as [[d1|] l1] eqn:Hl; [|done].
  pose proof (discoverLoop_Some t containers [] d1) as Hd1. rewrite Hl in Hd1.
  destruct (Hd1 eq_refl) as [-> Hall].
  rewrite (bind_fst_Some _ _ (flat_map (servicesOf t) containers)) by done.
  rewrite bind_logf. cbn [fst].
  assert (Hlog : forall l, (logServices l).1 = Some tt).
  { induction l0 as [|x l0 IHl]; [done|]. cbn [logServices]. by rewrite bind_logf. }
  rewrite (bind_fst_Some _ _ tt) by apply Hlog. intros [= <-].
  by exists t.
Qed.

Lemma mainTable_Some containers tbl :
  (mainTable containers).1 = Some tbl ->
  exists services, (discover containers).1 = Some services /\
                   tbl = buildServiceMap services.
Proof.
  unfold mainTable. rewrite bind_logf. cbn [fst].
  destruct (discover containers) as [[services|] l] eqn:Hd; [|done].
  rewrite (bind_fst_Some _ _ services) by done.
  destruct (length services =? 0).
  - rewrite bind_logf. cbn. intros [= <-]. eauto.
  - rewrite bind_ret_l. cbn. intros [= <-]. eauto.
Qed.

(** The Services of a container carry its name and a hostname that is
    not empty and that the container declares. *)
Lemma servicesOf_shape traefikIP c s :
  s ∈ servicesOf traefikIP c ->
  HostnameLabel s <> "" /\ ContainerName s = name0 c /\
  (explicitHostname c = Some (HostnameLabel s) \/
   (explicitHostname c = None /\ HostnameLabel s ∈ ruleHosts (container.Labels c))).
Proof.
  unfold servicesOf, containerResult.
  assert (Hself : forall h, s ∈ selfResolve (name0 c) h c [] ->
                            HostnameLabel s = h /\ ContainerName s = name0 c).
  { intros h. unfold selfResolve. destruct (ipOverride c).
    - by intros ->%list_elem_of_singleton.
    - destruct (container.Networks c !! selectedNetwork c); cbn.
      + by intros ->%list_elem_of_singleton.
      + by intros ?%elem_of_nil. }
  destruct (explicitHostname c) as [h|] eqn:Hh.
  { apply explicitHostname_Some in Hh as [_ Hne].
    intros [<- Hname]%Hself. split; [done|]. split; [done|by left]. }
  rewrite scanResult_eq. cbn [hostname routed discovered orb app].
  destruct traefikIP as [p|].
  - destruct (ruleHosts (container.Labels c)) as [|h0 hs] eqn:Hr; cbn [length Nat.eqb negb].
    + cbn [List.last]. rewrite String.eqb_refl. by intros ?%elem_of_nil.
    + intros (h & -> & Hin)%list_elem_of_fmap. cbn [HostnameLabel ContainerName service].
      split; [|split; [done|by right]].
      rewrite <- Hr in Hin. apply list_elem_of_omap in Hin as (kv & _ & Hkv).
      apply isDomain_nonempty. by apply (ruleHost_domain kv).
  - destruct (String.eqb_spec (List.last (ruleHosts (container.Labels c)) "") "") as [|Hne];
      [by intros ?%elem_of_nil|].
    intros [Hhost Hname]%Hself. rewrite Hhost. split; [done|]. split; [done|]. right.
    split; [done|]. apply last_in_hosts. intros Hnil. by rewrite Hnil in Hne.
Qed.

(** X4. When the start of [main] does not panic, every discovered
    Service has a hostname that is not empty, carries the first name of a
    container of the inventory, and that container declares the hostname:
    it is its usable explicit hostname, or the container has none and the
    hostname is the host of one of its routing-rule labels.  The table is
    built from these Services and hence has no entry for the root name
    [.]. *)
Theorem discovered_services_invariant containers tbl :
  (mainTable containers).1 = Some tbl ->
  exists services,
    (discover containers).1 = Some services /\
    tbl = buildServiceMap services /\
    Forall (fun s =>
              HostnameLabel s <> "" /\
              exists c, c ∈ containers /\
                        container.Names c !! 0 = Some (ContainerName s) /\
                        (explicitHostname c = Some (HostnameLabel s) \/
                         (explicitHostname c = None /\
                          HostnameLabel s ∈ ruleHosts (container.Labels c))))
           services /\
    tbl !! "." = None.
Proof.
  intros (services & Hd & ->)%mainTable_Some. exists services. split; [done|]. split; [done|].
  assert (Hinv : Forall (fun s =>
              HostnameLabel s <> "" /\
              exists c, c ∈ containers /\
                        container.Names c !! 0 = Some (ContainerName s) /\
                        (explicitHostname c = Some (HostnameLabel s) \/
                         (explicitHostname c = None /\
                          HostnameLabel s ∈ ruleHosts (container.Labels c))))
                   services).
  { apply discover_Some in Hd as (t & _ & -> & Hall).
    apply Forall_forall. intros s Hs.
    apply list_elem_of_In, in_flat_map in Hs as (c & Hc%list_elem_of_In & Hs%list_elem_of_In).
    destruct (servicesOf_shape t c s Hs) as (Hne & Hname & Hdecl). split; [done|].
    exists c. split; [done|]. split; [|done].
    destruct (container.Names c) as [|n ns] eqn:Hn.
    - rewrite Forall_forall in Hall. rewrite (Hall c Hc Hn) in Hs.
      by apply elem_of_nil in Hs.
    - unfold name0 in Hname. rewrite Hn in Hname. by rewrite Hname. }
  split; [exact Hinv|].
  destruct (buildServiceMap services !! ".") as [v|] eqn:Hv; [|done].
  apply buildServiceMap_entry in Hv as (s & Hs & Hk & _).
  rewrite Forall_forall in Hinv. destruct (Hinv s Hs) as [Hne _].
  exfalso. apply Hne. apply (append_inj_r _ "" "."). by rewrite <- Hk.
Qed.

End Invariants.


Section ProxySearch.
Context `{net.Parser}.

Lemma discoverTraefikLoop_other c rest :
  imageName c <> "traefik" -> discoverTraefikLoop (c :: rest) = discoverTraefikLoop rest.
Proof.
  intros Himg. cbn [discoverTraefikLoop]. rewrite Split_index0, bind_ret_l.
  unfold imageName in Himg. apply String.eqb_neq in Himg. by rewrite Himg.
Qed.

Lemma discoverTraefikLoop_filter containers :
  discoverTraefikLoop containers = discoverTraefikLoop (filter (fun c => imageName c = "traefik") containers).
Proof.
  induction containers as [|c rest IH]; [done|].
  rewrite filter_cons. destruct (decide (imageName c = "traefik")) as [Himg|Himg].
  - cbn [discoverTraefikLoop]. apply bind_ext. intros img.
    destruct (negb (String.eqb img "traefik")); [done|].
    destruct (mapIndex (container.Labels c) "com.autodns.ip") as [v ok].
    destruct (ok && negb (String.eqb v "")); [done|].
    destruct (mapIndex (container.Labels c) "com.autodns.network") as [nw ok'].
    cbv zeta. destruct (container.Networks c !! _) as [ep|].
    + destruct (String.eqb (network.IPAddress ep) ""); [|done].
      apply bind_ext. intros n. apply bind_ext. by intros [].
    + apply bind_ext. intros n. apply bind_ext. by intros [].
  - by rewrite discoverTraefikLoop_other.
Qed.

(** X5. The proxy search only looks at containers whose image name (the
    image reference up to the first colon) is [traefik]: removing every
    other container from the inventory changes neither its result nor
    what it logs, nor whether it panics. *)
Theorem discoverTraefik_other_images_ignored containers :
  discoverTraefik containers = discoverTraefik (filter (fun c => imageName c = "traefik") containers).
Proof. unfold discoverTraefik. by rewrite discoverTraefikLoop_filter. Qed.

Lemma discoverTraefikLoop_unnamed c rest :
  imageName c = "traefik" -> container.Names c = [] ->
  (discoverTraefikLoop (c :: rest)).1 = None.
Proof.
  intros Himg Hn. cbn [discoverTraefikLoop]. rewrite Split_index0, bind_ret_l.
  unfold imageName in Himg. rewrite Himg. cbn [String.eqb Ascii.eqb Bool.eqb negb].
  destruct (mapIndex (container.Labels c) "com.autodns.ip") as [v ok].
  destruct (ok && negb (String.eqb v "")); [by run_unnamed Hn|].
  destruct (mapIndex (container.Labels c) "com.autodns.network") as [nw ok'].
  cbv zeta. destruct (container.Networks c !! _) as [ep|]; [|by run_unnamed Hn].
  destruct (String.eqb (network.IPAddress ep) ""); by run_unnamed Hn.
Qed.

Lemma proxyOf_other c : imageName c <> "traefik" -> proxyOf c = None.
Proof.
  unfold proxyOf, proxyAddressText. intros Himg.
  apply String.eqb_neq in Himg. by rewrite Himg.
Qed.

(** The proxy search, when it does not panic, returns the first accepted
    container. *)
Lemma discoverTraefikLoop_Some containers r :
  (discoverTraefikLoop containers).1 = Some r -> r = findProxy containers.
Proof.
  induction containers as [|c rest IH]; [by intros [= <-]|].
  destruct (decide (imageName c = "traefik")) as [Himg|Himg].
  - destruct (container.Names c) as [|n ns] eqn:Hn.
    + by rewrite discoverTraefikLoop_unnamed.
    + rewrite (discoverTraefikLoop_cons c rest n ns Hn). cbn [findProxy].
      destruct (proxyOf c); [by intros [= <-]|exact IH].
  - rewrite discoverTraefikLoop_other by done. cbn [findProxy].
    by rewrite proxyOf_other.
Qed.

(** X6. A Service returned by the proxy search has the hostname
    [traefik]; it carries the first name of a container of the inventory
    whose image name is [traefik], and its address is the parse of a text
    that is not empty: the container's non-empty [com.autodns.ip], or,
    without one, its address on the selected network. *)
Theorem discoverTraefik_result_origin containers p :
  (discoverTraefik containers).1 = Some (Some p) ->
  HostnameLabel p = "traefik" /\
  exists c a,
    c ∈ containers /\ imageName c = "traefik" /\
    container.Names c !! 0 = Some (ContainerName p) /\
    a <> "" /\ IPAddress p = net.ParseIP a /\
    (ipOverride c = Some a \/
     (ipOverride c = None /\
      network.IPAddress <$> container.Networks c !! selectedNetwork c = Some a)).
Proof.
  unfold discoverTraefik. rewrite bind_logf. cbn [fst].
  intros Hp. pose proof Hp as Hf%discoverTraefikLoop_Some.
  revert Hp. induction containers as [|c rest IH]; [done|]. intros Hp.
  destruct (decide (imageName c = "traefik")) as [Himg|Himg].
  2:{ rewrite discoverTraefikLoop_other in Hp by done.
      cbn [findProxy] in Hf. rewrite proxyOf_other in Hf by done.
      destruct (IH Hf Hp) as (Hh & c' & a & Hin & Hrest).
      split; [done|]. exists c', a. split; [by apply elem_of_cons; right|done]. }
  destruct (container.Names c) as [|n ns] eqn:Hn.
  { by rewrite discoverTraefikLoop_unnamed in Hp. }
  rewrite (discoverTraefikLoop_cons c rest n ns Hn) in Hp.
  cbn [findProxy] in Hf.
  destruct (proxyOf c) as [p'|] eqn:Hpc.
  2:{ destruct (IH Hf Hp) as (Hh & c' & a & Hin & Hrest).
      split; [done|]. exists c', a. split; [by apply elem_of_cons; right|done]. }
  injection Hf as <-. clear IH Hp.
  unfold proxyOf, proxyAddressText in Hpc. rewrite Himg in Hpc.
  cbn [String.eqb Ascii.eqb Bool.eqb] in Hpc.
  assert (Hname0 : name0 c = n) by (unfold name0; by rewrite Hn).
  destruct (ipOverride c) as [v|] eqn:Hip.
  - injection Hpc as <-. split; [done|]. exists c, v.
    split; [by apply elem_of_cons; left|]. split; [done|]. split; [rewrite Hn; cbn; by rewrite Hname0|].
    split; [|split; [done|by left]].
    unfold ipOverride in Hip.
    destruct (mapIndex (container.Labels c) "com.autodns.ip") as [v' ok].
    destruct ok; [|done]. cbn [andb] in Hip.
    destruct (String.eqb_spec v' ""); [done|]. by injection Hip as <-.
  - destruct (container.Networks c !! selectedNetwork c) as [ep|] eqn:Hnet; [|done].
    destruct (String.eqb_spec (network.IPAddress ep) "") as [|Hne]; [done|].
    injection Hpc as <-. split; [done|]. exists c, (network.IPAddress ep).
    split; [by apply elem_of_cons; left|]. split; [done|]. split; [rewrite Hn; cbn; by rewrite Hname0|].
    split; [done|]. split; [done|]. right. split; [done|]. by rewrite Hnet.
Qed.

End ProxySearch.


Section TableLookup.
Context `{net.Parser}.

(** X7. The table maps a hostname followed by a dot to the address text
    of the last Service with that hostname, in discovery order (a later
    Service overwrites an earlier one), and has no entry for a hostname no
    Service carries; every key of the table ends with a dot. *)
Theorem buildServiceMap_lookup services :
  (forall h,
     buildServiceMap services !! (h +:+ ".") =
     (fun s => net.IP_String (IPAddress s)) <$>
       last (filter (fun s => HostnameLabel s = h) services)) /\
  (forall k, is_Some (buildServiceMap services !! k) -> exists h, k = h +:+ ".").
Proof.
  split.
  - intros h. induction services as [|s l IH] using rev_ind; [done|].
    rewrite buildServiceMap_snoc, filter_app, filter_cons, filter_nil.
    rewrite lookup_insert. case_decide as Hk.
    + apply append_inj_r in Hk. rewrite decide_True by done.
      by rewrite last_snoc.
    + rewrite decide_False by (by intros <-). by rewrite app_nil_r.
  - intros k [v Hv]. apply buildServiceMap_entry in Hv as (s & _ & -> & _). eauto.
Qed.

End TableLookup.

Section Handler.
Context `{net.Parser}.

(** X8. The handler writes nothing for a request without a question.
    For any other request it writes exactly one message, a reply to the
    first question only: the response bit is set, the opcode is that of
    the request, the rcode is success whether or not the name is in the
    table (a miss is not answered with a name error), the question section
    is the first question alone, the authority and additional sections
    are empty and the reply is not marked truncated; it is authoritative
    exactly when the name is in the table, and has no answer exactly when
    it is not.  The type and class of the question are not looked at. *)
Theorem handler_reply serviceMap writeOK r :
  match dns.Questions r with
  | [] => (handler serviceMap writeOK r).1 = Some None
  | q :: _ =>
    exists resp,
      (handler serviceMap writeOK r).1 = Some (Some resp) /\
      dns.Response resp = true /\
      dns.Opcode resp = dns.Opcode r /\
      dns.Rcode resp = dns.RcodeSuccess /\
      dns.Questions resp = [q] /\
      dns.Ns resp = [] /\ dns.Extra resp = [] /\
      dns.Truncated resp = false /\
      (dns.Authoritative resp = true <-> is_Some (serviceMap !! dns.Name q)) /\
      (dns.Answer resp = [] <-> serviceMap !! dns.Name q = None)
  end.
Proof.
  unfold handler. destruct (dns.Questions r) as [|q qs] eqn:Hq.
  - by rewrite bind_logf.
  - destruct (serviceMap !! dns.Name q) as [ip|].
    + unfold makeResponse. rewrite bind_logf. cbn [fst snd ret].
      unfold bind at 1. cbn [fst snd ret].
      destruct writeOK; cbn [negb]; rewrite bind_logf; cbn [fst ret];
        eexists; (split; [reflexivity|]); cbn; rewrite Hq; repeat split; eauto; done.
    + rewrite bind_logf. cbn [fst ret].
      eexists; (split; [reflexivity|]); cbn; rewrite Hq; repeat split; eauto; try done.
Qed.

End Handler.


Module RuleContext.
Import regexp regexpSem regexpFacts Pattern Rule RuleFacts.

Section RuleRunThen.
Context {R : Type}.
Implicit Types (k : list ascii -> Caps -> option R).

Lemma run_domain_group_then f post caps k y :
  Matches domain f ->
  k post ((2, f) :: caps) = Some y ->
  run (Concat (Capture 2 domain) (Literal (Bytes.to_list "`") (Lit ")"%char)))
      (f ++ Bytes.to_list "`)" ++ post) caps k = Some y.
Proof.
  intros Hf Hk. cbn [run Literal Bytes.to_list list_ascii_of_string app].
  apply run_until_delimiter; [done|done|done| |].
  - intros [|a s']; [done|]. destruct (Ascii.eqb_spec a "`") as [->|]; [eauto|done].
  - cbn. change (f ++ "`"%char :: ")"%char :: post) with (f ++ (Bytes.to_list "`)" ++ post)).
    by rewrite consumed_app.
Qed.

Lemma run_rule_then n f post k y :
  n <> [] ->
  forallb (inClass routerClass) n = true ->
  Matches domain f ->
  k post [(2, f); (1, n)] = Some y ->
  run TraefikLabelRegex
      (Bytes.to_list "traefik.http.routers." ++ n ++
       Bytes.to_list ".rule=Host(`" ++ f ++ Bytes.to_list "`)" ++ post) [] k = Some y.
Proof.
  intros Hn Hall Hf Hk. unfold TraefikLabelRegex, lit.
  change (Bytes.to_list "traefik.http.routers." ++ ?x)
    with (Bytes.to_list "traefik" ++ "."%char :: Bytes.to_list "http" ++
          "."%char :: Bytes.to_list "routers" ++ "."%char :: x).
  rewrite run_Literal, run_AnyChar_ascii by done.
  rewrite run_Literal, run_AnyChar_ascii by done.
  rewrite run_Literal, run_AnyChar_ascii by done.
  apply run_router_group; [done|done|done|].
  change (Bytes.to_list ".rule=Host(`" ++ ?x)
    with ("."%char :: Bytes.to_list "rule=Host(`" ++ x).
  rewrite run_AnyChar_ascii, run_Literal by done.
  by apply run_domain_group_then.
Qed.

End RuleRunThen.

Lemma rule_bytes name fqdn :
  Bytes.to_list (key name +:+ "=" +:+ value fqdn) =
  Bytes.to_list "traefik.http.routers." ++ Bytes.to_list name ++
  Bytes.to_list ".rule=Host(`" ++ Bytes.to_list fqdn ++ Bytes.to_list "`)".
Proof. unfold key, value. rewrite !to_list_app, <- !app_assoc. reflexivity. Qed.

Lemma matchHere_rule_then name fqdn post :
  isRouterName name = true -> isDomain fqdn = true ->
  matchHere TraefikLabelRegex (Bytes.to_list (key name +:+ "=" +:+ value fqdn) ++ post) =
  Some (Bytes.to_list (key name +:+ "=" +:+ value fqdn),
        [(2, Bytes.to_list fqdn); (1, Bytes.to_list name)]).
Proof.
  intros [Hne Hname]%andb_prop Hdom%isDomain_Matches.
  unfold matchHere. rewrite rule_bytes at 1. rewrite <- !app_assoc.
  apply run_rule_then; [by destruct name|done|done|].
  cbn beta. by rewrite consumed_app.
Qed.

Lemma append_assoc_r (a b c : string) : a +:+ b +:+ c = (a +:+ b) +:+ c.
Proof.
  rewrite <- (of_to_list (a +:+ b +:+ c)), <- (of_to_list ((a +:+ b) +:+ c)).
  by rewrite !to_list_app, app_assoc.
Qed.

Lemma FindStringSubmatch_rule_then name fqdn post :
  isRouterName name = true -> isDomain fqdn = true ->
  traefikRe_FindStringSubmatch (key name +:+ "=" +:+ value fqdn +:+ post) =
  [key name +:+ "=" +:+ value fqdn; name; fqdn].
Proof.
  intros Hname Hdom.
  unfold traefikRe_FindStringSubmatch, FindStringSubmatch.
  replace (key name +:+ "=" +:+ value fqdn +:+ post)
    with ((key name +:+ "=" +:+ value fqdn) +:+ post) by (by rewrite !append_assoc_r).
  rewrite to_list_app.
  rewrite (search_here _ _ _ (matchHere_rule_then name fqdn (Bytes.to_list post) Hname Hdom)).
  change (NumSubexp TraefikLabelRegex) with 2. cbn [seq map getCap Nat.eqb].
  by rewrite !of_to_list.
Qed.

Lemma search_after_ascii r pre s :
  forallb (fun c => (Bytes.code c <? 128)%N) pre = true ->
  matchHere r s <> None -> search r 0 (pre ++ s) <> None.
Proof.
  intros Hpre Hs. induction pre as [|c pre IH]; cbn [app].
  - destruct (matchHere r s) as [m|] eqn:Hm; [|done]. by rewrite (search_here _ _ _ Hm).
  - apply andb_prop in Hpre as [Hc Hpre].
    destruct (matchHere r (c :: pre ++ s)) as [m|] eqn:Hm.
    + by rewrite (search_here _ _ _ Hm).
    + cbn [search]. rewrite Hm. unfold utf8.DecodeRuneWidth. rewrite Hc. cbn. by apply IH.
Qed.


Lemma ruleHost_after_prefix pre name fqdn post :
  forallb (fun c => (Bytes.code c <? 128)%N) (Bytes.to_list pre) = true ->
  isRouterName name = true -> isDomain fqdn = true ->
  exists h,
    ruleHost (pre +:+ key name, value fqdn +:+ post) = Some h /\ isDomain h = true.
Proof.
  intros Hpre Hname Hdom.
  assert (Hlen : traefikRe_FindStringSubmatch
                   ((pre +:+ key name) +:+ "=" +:+ value fqdn +:+ post) <> []).
  { unfold traefikRe_FindStringSubmatch, FindStringSubmatch.
    replace ((pre +:+ key name) +:+ "=" +:+ value fqdn +:+ post)
      with (pre +:+ (key name +:+ "=" +:+ value fqdn) +:+ post)
      by (by rewrite !append_assoc_r).
    rewrite !to_list_app.
    pose proof (search_after_ascii TraefikLabelRegex (Bytes.to_list pre)
                  (Bytes.to_list (key name +:+ "=" +:+ value fqdn) ++ Bytes.to_list post)
                  Hpre) as Hs.
    rewrite matchHere_rule_then in Hs by done. specialize (Hs ltac:(done)).
    rewrite <- !to_list_app in Hs. rewrite <- !to_list_app.
    destruct (search _ _ _) as [[whole caps]|]; done. }
  destruct (FindStringSubmatch_groups ((pre +:+ key name) +:+ "=" +:+ value fqdn +:+ post))
    as [Hnil|(Hl3 & _ & Hd)]; [done|].
  unfold ruleHost. cbn [fst snd].
  destruct (traefikRe_FindStringSubmatch _) as [|w [|g1 [|g2 [|]]]]; try done.
  eauto.
Qed.

End RuleContext.

(** X9. The pattern is not anchored at the end: a rule label whose
    value goes on after the first [Host(`...`)] (more matchers, a second
    host) still matches, and the groups are the router name and the first
    host; the text after the closing parenthesis is ignored. *)
Theorem rule_with_trailing_text name fqdn post :
  Rule.isRouterName name = true -> Rule.isDomain fqdn = true ->
  traefikRe_FindStringSubmatch (Rule.key name +:+ "=" +:+ Rule.value fqdn +:+ post) =
  [Rule.key name +:+ "=" +:+ Rule.value fqdn; name; fqdn].
Proof. apply RuleContext.FindStringSubmatch_rule_then. Qed.

(** X10. The pattern is not anchored at the start either: a label whose
    key has any ASCII text before [traefik.http.routers.] and whose
    value has any text after the host still yields a host for the scan,
    and that host is a domain. *)
Theorem rule_after_prefix pre name fqdn post :
  forallb (fun c => (Bytes.code c <? 128)%N) (Bytes.to_list pre) = true ->
  Rule.isRouterName name = true -> Rule.isDomain fqdn = true ->
  exists h,
    ruleHost (pre +:+ Rule.key name, Rule.value fqdn +:+ post) = Some h /\
    Rule.isDomain h = true.
Proof. apply RuleContext.ruleHost_after_prefix. Qed.


Section LabelOrder.
Context `{net.Parser}.

Lemma mapIndex_lookup m key :
  mapIndex m key =
  match (list_to_map m : gmap string string) !! key with
  | Some v => (v, true)
  | None => ("", false)
  end.
Proof.
  induction m as [|[k v] m IH]; [done|].
  cbn [mapIndex]. rewrite list_to_map_cons, lookup_insert.
  destruct (String.eqb_spec k key) as [->|Hne].
  - by rewrite decide_True.
  - by rewrite decide_False.
Qed.

Lemma mapIndex_Permutation m m' key :
  labelsOK m -> m' ≡ₚ m -> mapIndex m' key = mapIndex m key.
Proof.
  intros Hok Hp. rewrite !mapIndex_lookup.
  by rewrite (list_to_map_proper (M := gmap string) m m' Hok).
Qed.

Section Relabelled.
Variables c c' : container.Summary.
Hypothesis Hok : labelsOK (container.Labels c).
Hypothesis Hrel : relabelled c c'.

Lemma relabelled_mapIndex key :
  mapIndex (container.Labels c') key = mapIndex (container.Labels c) key.
Proof. destruct Hrel as (_ & _ & _ & Hp). by apply mapIndex_Permutation. Qed.

Lemma relabelled_explicitHostname : explicitHostname c' = explicitHostname c.
Proof. unfold explicitHostname. by rewrite relabelled_mapIndex. Qed.

Lemma relabelled_name0 : name0 c' = name0 c.
Proof. destruct Hrel as (Hn & _). unfold name0. by rewrite Hn. Qed.

Lemma relabelled_proxyOf : proxyOf c' = proxyOf c.
Proof.
  destruct Hrel as (Hn & Hi & Hnet & _).
  unfold proxyOf, proxyAddressText, imageName, ipOverride, selectedNetwork.
  by rewrite relabelled_name0, Hi, Hnet, !relabelled_mapIndex.
Qed.

Lemma relabelled_selfResolve n h d : selfResolve n h c' d = selfResolve n h c d.
Proof.
  destruct Hrel as (_ & _ & Hnet & _).
  apply selfResolve_ext; [done|apply relabelled_mapIndex..].
Qed.

Lemma relabelled_ruleHosts :
  ruleHosts (container.Labels c') ≡ₚ ruleHosts (container.Labels c).
Proof. destruct Hrel as (_ & _ & _ & Hp). unfold ruleHosts. by rewrite Hp. Qed.

End Relabelled.

(** The loop of [main] that fills the table, from a table [m]. *)
Lemma buildServiceMap_app l1 l2 :
  buildServiceMap (l1 ++ l2) =
  foldl (fun serviceMap service =>
           <[HostnameLabel service +:+ "." := net.IP_String (IPAddress service)]> serviceMap)
        (buildServiceMap l1) l2.
Proof. unfold buildServiceMap. by rewrite foldl_app. Qed.

Lemma fill_same_address (m : gmap string string) n ip hs k :
  foldl (fun serviceMap service =>
           <[HostnameLabel service +:+ "." := net.IP_String (IPAddress service)]> serviceMap)
        m (map (fun h => service n h ip) hs) !! k =
  if decide (k ∈ (fun h => h +:+ ".") <$> hs) then Some (net.IP_String ip) else m !! k.
Proof.
  revert m. induction hs as [|h hs IH]; intros m; [done|].
  cbn [map foldl]. rewrite IH. cbn [fmap list_fmap].
  destruct (decide (k ∈ (fun h => h +:+ ".") <$> hs)) as [Hin|Hin].
  - rewrite decide_True; [done|]. by apply elem_of_cons; right.
  - cbn [HostnameLabel IPAddress service]. rewrite lookup_insert. case_decide as Hk.
    + rewrite decide_True; [done|]. apply elem_of_cons. by left.
    + rewrite decide_False; [done|]. intros [?|?]%elem_of_cons; [by subst|done].
Qed.

Lemma fill_Permutation (m : gmap string string) n ip hs hs' :
  hs' ≡ₚ hs ->
  foldl (fun serviceMap service =>
           <[HostnameLabel service +:+ "." := net.IP_String (IPAddress service)]> serviceMap)
        m (map (fun h => service n h ip) hs') =
  foldl (fun serviceMap service =>
           <[HostnameLabel service +:+ "." := net.IP_String (IPAddress service)]> serviceMap)
        m (map (fun h => service n h ip) hs).
Proof.
  intros Hp. apply map_eq. intros k. rewrite !fill_same_address.
  destruct (decide (k ∈ _ <$> hs')) as [Hin|Hin].
  - rewrite decide_True; [done|]. by rewrite <- Hp.
  - rewrite decide_False; [done|]. by rewrite <- Hp.
Qed.

Lemma Permutation_short {A} (l l' : list A) : length l <= 1 -> l' ≡ₚ l -> l' = l.
Proof.
  destruct l as [|x [|y l]]; cbn; intros Hlen Hp; [|  |lia].
  - by apply Permutation_nil_r in Hp.
  - by apply Permutation_singleton_r in Hp.
Qed.

Lemma servicesOf_explicit t c h :
  explicitHostname c = Some h -> servicesOf t c = selfResolve (name0 c) h c [].
Proof. intros Hh. unfold servicesOf, containerResult. by rewrite Hh. Qed.

Lemma relabelled_fill t c c' (m : gmap string string) :
  labelsOK (container.Labels c) -> relabelled c c' ->
  (t = None -> explicitHostname c = None -> length (ruleHosts (container.Labels c)) <= 1) ->
  foldl (fun serviceMap service =>
           <[HostnameLabel service +:+ "." := net.IP_String (IPAddress service)]> serviceMap)
        m (servicesOf t c') =
  foldl (fun serviceMap service =>
           <[HostnameLabel service +:+ "." := net.IP_String (IPAddress service)]> serviceMap)
        m (servicesOf t c).
Proof.
  intros Hok Hrel Hshort.
  pose proof (relabelled_explicitHostname c c' Hok Hrel) as Hh.
  pose proof (relabelled_name0 c c' Hrel) as Hn.
  pose proof (relabelled_ruleHosts c c' Hrel) as Hp.
  destruct (explicitHostname c) as [h|] eqn:Hc.
  - rewrite (servicesOf_explicit t c' h Hh), (servicesOf_explicit t c h Hc).
    by rewrite Hn, (relabelled_selfResolve c c' Hok Hrel).
  - destruct t as [p|].
    + rewrite !servicesOf_routed by done. rewrite Hn. by apply fill_Permutation.
    + rewrite !servicesOf_unrouted by done.
      rewrite (Permutation_short _ _ (Hshort eq_refl eq_refl) Hp).
      destruct (ruleHosts (container.Labels c)) as [|h hs]; [done|].
      by rewrite Hn, (relabelled_selfResolve c c' Hok Hrel).
Qed.

Lemma relabelled_findProxy cs cs' :
  Forall (fun c => labelsOK (container.Labels c)) cs ->
  Forall2 relabelled cs cs' -> findProxy cs' = findProxy cs.
Proof.
  intros Hok Hrel. induction Hrel as [|c c' cs cs' Hc Hcs IH]; [done|].
  apply Forall_cons in Hok as [Hok Hoks]. cbn [findProxy].
  rewrite (relabelled_proxyOf c c' Hok Hc). by rewrite IH.
Qed.

Lemma relabelled_named cs cs' :
  Forall2 relabelled cs cs' -> Forall named cs -> Forall named cs'.
Proof.
  induction 1 as [|c c' cs cs' (Hn & _) Hcs IH]; [done|].
  intros [Hc Hall]%Forall_cons. constructor; [|by apply IH].
  unfold named in *. by rewrite Hn.
Qed.

(** X11. The table does not depend on the order in which the labels of
    a container are met (Go leaves the iteration order of a map open),
    provided the proxy search finds a proxy, or no container without a
    usable explicit hostname has more than one label that matches the
    routing-rule pattern: two inventories that differ only in the order
    of the labels of their (named) containers give the same table. *)
Theorem table_independent_of_label_order containers containers' :
  Forall2 relabelled containers containers' ->
  Forall (fun c => labelsOK (container.Labels c)) containers ->
  Forall named containers ->
  ((exists p, (discoverTraefik containers).1 = Some (Some p)) \/
   Forall (fun c => explicitHostname c = None ->
                    length (ruleHosts (container.Labels c)) <= 1) containers) ->
  (mainTable containers').1 = (mainTable containers).1.
Proof.
  intros Hrel Hok Hnamed Hcases.
  rewrite !mainTable_named by eauto using relabelled_named.
  rewrite (relabelled_findProxy _ _ Hok Hrel). f_equal.
  rewrite discoverTraefik_named in Hcases by done.
  assert (Hshort : Forall (fun c => findProxy containers = None ->
                                    explicitHostname c = None ->
                                    length (ruleHosts (container.Labels c)) <= 1) containers).
  { destruct Hcases as [[p Hp]|Hall].
    - apply Forall_forall. intros c _ Hnone. congruence.
    - eapply Forall_impl; [exact Hall|]. cbn. eauto. }
  clear Hcases Hnamed.
  generalize dependent (findProxy containers). intros t Hshort.
  unfold buildServiceMap. generalize (∅ : gmap string string).
  induction Hrel as [|c c' cs cs' Hc Hcs IH]; intros m; [done|].
  apply Forall_cons in Hok as [Hok Hoks]. apply Forall_cons in Hshort as [Hs Hss].
  cbn [flat_map]. rewrite !foldl_app.
  rewrite (relabelled_fill t c c' m Hok Hc Hs). by apply IH.
Qed.

End LabelOrder.


(* ================================================================== *)
(** * The earlier revisions *)

Section Loops.
Context {S : Type}.
Variable step : container.Summary -> list S -> M (list S).
Variable loop : list container.Summary -> list S -> M (list S).
Variable added : container.Summary -> option S.
Hypothesis loop_nil : forall d, loop [] d = ret d.
Hypothesis loop_cons : forall c rest d,
  loop (c :: rest) d = bind (step c d) (fun d1 => loop rest d1).
Hypothesis step_named : forall c d, named c ->
  (step c d).1 = Some (d ++ from_option (fun s => [s]) [] (added c)).
Hypothesis step_unnamed : forall c d, container.Names c = [] -> (step c d).1 = None.

Lemma loop_result containers d :
  ((loop containers d).1 = None <-> Exists (fun c => container.Names c = []) containers) /\
  (forall r, (loop containers d).1 = Some r -> r = d ++ omap added containers).
Proof.
  revert d. induction containers as [|c rest IH]; intros d.
  - rewrite loop_nil. split; [split; [done|by intros ?%Exists_nil]|].
    intros r [= <-]. by rewrite app_nil_r.
  - rewrite loop_cons. destruct (container.Names c) as [|n ns] eqn:Hn.
    + assert (Hs := step_unnamed c d Hn).
      destruct (step c d) as [[x|] l]; [done|]. cbn.
      split; [split; [by left|done]|done].
    + assert (Hnamed : named c) by (unfold named; by rewrite Hn).
      rewrite (bind_fst_Some _ _ _ (step_named c d Hnamed)).
      destruct (IH (d ++ from_option (fun s => [s]) [] (added c))) as [IHn IHs]. split.
      * rewrite IHn. split; [by right|].
        intros [Hc|Hr]%Exists_cons; [congruence|done].
      * intros r Hr. rewrite (IHs r Hr), <- app_assoc. f_equal.
        cbn [omap list_omap]. by destruct (added c).
Qed.

End Loops.

Section Part000.

Lemma part_000_step_named c d :
  named c ->
  (part_000.discoverContainer c d).1 =
  Some (d ++ from_option (fun s => [s]) [] (part_000.serviceOf c)).
Proof.
  unfold named. destruct (container.Names c) as [|n ns] eqn:Hn; [done|]. intros _.
  unfold part_000.discoverContainer, part_000.serviceOf, selectedNetwork, name0.
  destruct (mapIndex (container.Labels c) "com.autodns.hostname") as [h ok].
  destruct ok; cbn [negb]; [|run_named Hn; by rewrite app_nil_r].
  destruct (mapIndex (container.Labels c) "com.autodns.network") as [nw ok']. cbv zeta.
  destruct (container.Networks c !! _) as [ep|]; run_named Hn; [done|by rewrite app_nil_r].
Qed.

Lemma part_000_step_unnamed c d :
  container.Names c = [] -> (part_000.discoverContainer c d).1 = None.
Proof.
  intros Hn. unfold part_000.discoverContainer.
  destruct (mapIndex (container.Labels c) "com.autodns.hostname") as [h ok].
  destruct ok; cbn [negb]; [|by run_unnamed Hn].
  destruct (mapIndex (container.Labels c) "com.autodns.network") as [nw ok']. cbv zeta.
  destruct (container.Networks c !! _) as [ep|]; by run_unnamed Hn.
Qed.

Lemma part_000_discover_fst containers :
  (part_000.discover containers).1 = (part_000.discoverLoop containers []).1.
Proof.
  unfold part_000.discover. rewrite bind_logf. cbn [fst].
  destruct (part_000.discoverLoop containers []) as [[d|] l]; [|done].
  rewrite (bind_fst_Some _ _ d) by done. by rewrite bind_logf.
Qed.

Lemma part_000_discover_closed containers :
  ((part_000.discover containers).1 = None <->
   Exists (fun c => container.Names c = []) containers) /\
  (forall services, (part_000.discover containers).1 = Some services ->
                    services = omap part_000.serviceOf containers).
Proof.
  rewrite part_000_discover_fst.
  apply (loop_result part_000.discoverContainer part_000.discoverLoop part_000.serviceOf);
    [done|done|apply part_000_step_named|apply part_000_step_unnamed].
Qed.

(** X12. [discover] of the first revision ([src/unnamed/part_000])
    panics exactly when some container of the inventory has no name (every
    path of an iteration reads [container.Names[0]]).  Otherwise it
    returns, in inventory order, one Service for each container that has
    the label [com.autodns.hostname] (even an empty one) and is attached
    to its selected network, with the label value as hostname and the
    address text of that attachment. *)
Theorem part_000_discover_result containers :
  ((part_000.discover containers).1 = None <->
   Exists (fun c => container.Names c = []) containers) /\
  (forall services, (part_000.discover containers).1 = Some services ->
                    services = omap part_000.serviceOf containers).
Proof. apply part_000_discover_closed. Qed.

End Part000.

Section MainGo.

Lemma main_go_scanLabels_named c n ns labels :
  container.Names c = n :: ns ->
  (main_go.scanLabels c labels "").1 = Some (hd "" (ruleHosts labels)).
Proof.
  intros Hn. induction labels as [|[label value] rest IH]; [done|].
  cbn [main_go.scanLabels]. unfold ruleHosts. cbn [omap list_omap].
  unfold ruleHost at 1. cbn [fst snd].
  destruct (length (traefikRe_FindStringSubmatch (label +:+ "=" +:+ value)) =? 3).
  - by run_named Hn.
  - exact IH.
Qed.

Lemma main_go_scanLabels_unnamed c labels :
  container.Names c = [] ->
  (main_go.scanLabels c labels "").1 =
  match ruleHosts labels with [] => Some "" | _ => None end.
Proof.
  intros Hn. induction labels as [|[label value] rest IH]; [done|].
  cbn [main_go.scanLabels]. unfold ruleHosts. cbn [omap list_omap].
  unfold ruleHost at 1. cbn [fst snd].
  destruct (length (traefikRe_FindStringSubmatch (label +:+ "=" +:+ value)) =? 3).
  - by run_unnamed Hn.
  - exact IH.
Qed.

(** The hostname after the scan, for a named container. *)
Lemma main_go_hostname c n ns :
  container.Names c = n :: ns ->
  (let '(hostname0, ok) := mapIndex (container.Labels c) "com.autodns.hostname" in
   if negb ok || String.eqb hostname0 ""
   then main_go.scanLabels c (container.Labels c) hostname0
   else ret hostname0).1 = Some (main_go.hostnameOf c).
Proof.
  intros Hn. unfold main_go.hostnameOf, explicitHostname.
  destruct (mapIndex (container.Labels c) "com.autodns.hostname") as [h ok] eqn:Hidx.
  destruct ok; cbn [negb orb andb].
  - destruct (String.eqb_spec h "") as [->|Hne]; cbn [negb]; [|done].
    by apply (main_go_scanLabels_named c n ns).
  - apply mapIndex_absent in Hidx as ->. by apply (main_go_scanLabels_named c n ns).
Qed.

Lemma main_go_step_named c d :
  named c ->
  (main_go.discoverContainer c d).1 =
  Some (d ++ from_option (fun s => [s]) [] (main_go.serviceOf c)).
Proof.
  unfold named. destruct (container.Names c) as [|n ns] eqn:Hn; [done|]. intros _.
  pose proof (main_go_hostname c n ns Hn) as Hh.
  unfold main_go.discoverContainer, main_go.serviceOf.
  destruct (mapIndex (container.Labels c) "com.autodns.hostname") as [h ok].
  rewrite (bind_fst_Some _ _ _ Hh).
  destruct (String.eqb (main_go.hostnameOf c) ""); [run_named Hn; by rewrite app_nil_r|].
  unfold selectedNetwork, name0.
  destruct (mapIndex (container.Labels c) "com.autodns.network") as [nw ok']. cbv zeta.
  destruct (container.Networks c !! _) as [ep|]; run_named Hn; [done|by rewrite app_nil_r].
Qed.

Lemma main_go_tail_unnamed c d hostname :
  container.Names c = [] ->
  (if String.eqb hostname "" then
     n <- index0 (container.Names c) ;
     logf Debug ("Container `" +:+ n
                 +:+ "` does not have autodns or Traefik hostname, skipping") ;;
     ret d
   else
     let '(network, ok) := mapIndex (container.Labels c) "com.autodns.network" in
     let network := if negb ok then "bridge" else network in
     match container.Networks c !! network with
     | None =>
       n <- index0 (container.Names c) ;
       logf Warn ("Container `" +:+ n +:+ "` is not on network `" +:+ network
                  +:+ "`, skipping") ;;
       ret d
     | Some ep =>
       n <- index0 (container.Names c) ;
       ret (d ++ [{| part_000.ContainerName := n;
                     part_000.HostnameLabel := hostname;
                     part_000.IPAddress := network.IPAddress ep |}])
     end).1 = None.
Proof.
  intros Hn. destruct (String.eqb hostname ""); [by run_unnamed Hn|].
  destruct (mapIndex (container.Labels c) "com.autodns.network") as [nw ok']. cbv zeta.
  destruct (container.Networks c !! _) as [ep|]; by run_unnamed Hn.
Qed.

Lemma main_go_step_unnamed c d :
  container.Names c = [] -> (main_go.discoverContainer c d).1 = None.
Proof.
  intros Hn. unfold main_go.discoverContainer.
  destruct (mapIndex (container.Labels c) "com.autodns.hostname") as [h ok].
  match goal with |- (bind ?m ?f).1 = None => destruct m as [[x|] l] eqn:Hm end; [|done].
  rewrite (bind_fst_Some _ _ x) by done. by apply main_go_tail_unnamed.
Qed.

Lemma main_go_logServices services : (main_go.logServices services).1 = Some tt.
Proof.
  induction services as [|s rest IH]; [done|].
  cbn [main_go.logServices]. by rewrite bind_logf.
Qed.

Lemma main_go_discover_fst containers :
  (main_go.discover containers).1 = (main_go.discoverLoop containers []).1.
Proof.
  unfold main_go.discover. rewrite bind_logf. cbn [fst].
  destruct (main_go.discoverLoop containers []) as [[d|] l]; [|done].
  rewrite (bind_fst_Some _ _ d) by done. rewrite bind_logf. cbn [fst].
  rewrite (bind_fst_Some _ _ tt) by apply main_go_logServices. done.
Qed.

Lemma main_go_discover_closed containers :
  ((main_go.discover containers).1 = None <->
   Exists (fun c => container.Names c = []) containers) /\
  (forall services, (main_go.discover containers).1 = Some services ->
                    services = omap main_go.serviceOf containers).
Proof.
  rewrite main_go_discover_fst.
  apply (loop_result main_go.discoverContainer main_go.discoverLoop main_go.serviceOf);
    [done|done|apply main_go_step_named|apply main_go_step_unnamed].
Qed.

(** X13. [discover] of [src/main.go] panics exactly when some container
    of the inventory has no name.  Otherwise it returns, in inventory
    order, at most one Service per container: a container is registered
    under its usable explicit hostname, else under the host of the first
    of its labels (in iteration order) that matches the routing-rule
    pattern; it is passed over when it has neither, or is not attached to
    its selected network; the address is the text of that attachment. *)
Theorem main_go_discover_result containers :
  ((main_go.discover containers).1 = None <->
   Exists (fun c => container.Names c = []) containers) /\
  (forall services, (main_go.discover containers).1 = Some services ->
                    services = omap main_go.serviceOf containers).
Proof. apply main_go_discover_closed. Qed.

End MainGo.

Section Revisions.
Context `{net.Parser}.

Lemma fst_eq_by_cases {A} (x y : option A) (P : Prop) (r : A) :
  (x = None <-> P) -> (y = None <-> P) ->
  (forall a, x = Some a -> a = r) -> (forall a, y = Some a -> a = r) -> x = y.
Proof.
  intros Hx Hy Hxs Hys. destruct x as [a|], y as [b|]; try done.
  - by rewrite (Hxs a), (Hys b).
  - destruct Hy as [Hy _]. specialize (Hy eq_refl). apply Hx in Hy. done.
  - destruct Hx as [Hx _]. specialize (Hx eq_refl). apply Hy in Hx. done.
Qed.

Lemma serviceOf_agree c :
  ruleHosts (container.Labels c) = [] ->
  mapIndex (container.Labels c) "com.autodns.hostname" <> ("", true) ->
  main_go.serviceOf c = part_000.serviceOf c.
Proof.
  intros Hrule Hne.
  unfold main_go.serviceOf, main_go.hostnameOf, part_000.serviceOf, explicitHostname.
  destruct (mapIndex (container.Labels c) "com.autodns.hostname") as [h ok] eqn:Hidx.
  destruct ok; cbn [andb].
  - destruct (String.eqb_spec h "") as [->|Hh]; [done|]. cbn [negb].
    by rewrite (proj2 (String.eqb_neq h "") Hh).
  - by rewrite Hrule.
Qed.

(** X14. On an inventory in which no label matches the routing-rule
    pattern and no [com.autodns.hostname] label is empty, [discover] of
    [src/main.go] returns what [discover] of the first revision returns,
    and panics when it panics. *)
Theorem main_go_extends_part_000 containers :
  Forall (fun c => ruleHosts (container.Labels c) = [] /\
                   mapIndex (container.Labels c) "com.autodns.hostname" <> ("", true))
         containers ->
  (main_go.discover containers).1 = (part_000.discover containers).1.
Proof.
  intros Hall.
  destruct (main_go_discover_closed containers) as [Hmn Hms].
  destruct (part_000_discover_closed containers) as [Hpn Hps].
  apply (fst_eq_by_cases _ _ _ (omap part_000.serviceOf containers) Hmn Hpn); [|done].
  intros a ->%Hms. clear -Hall.
  induction Hall as [|c cs [Hr Hh] Hcs IH]; [done|].
  cbn [omap list_omap]. by rewrite (serviceOf_agree c Hr Hh), IH.
Qed.

Lemma part_000_buildServiceMap_snoc l s :
  part_000.buildServiceMap (l ++ [s]) =
  <[part_000.HostnameLabel s +:+ "." := part_000.IPAddress s]> (part_000.buildServiceMap l).
Proof. unfold part_000.buildServiceMap. by rewrite foldl_app. Qed.

Lemma part_000_buildServiceMap_dom l k :
  is_Some (part_000.buildServiceMap l !! k) <->
  exists s, s ∈ l /\ k = part_000.HostnameLabel s +:+ ".".
Proof.
  induction l as [|s l IH] using rev_ind.
  - split; [by intros [? ?]|]. by intros (s & ?%elem_of_nil & _).
  - rewrite part_000_buildServiceMap_snoc, lookup_insert. case_decide as Hk.
    + split; [|by eauto]. intros _. exists s. split; [|done]. apply elem_of_app. right. constructor.
    + rewrite IH. split.
      * intros (s' & Hin & ->). exists s'. split; [|done]. apply elem_of_app. by left.
      * intros (s' & [Hin|Hin%list_elem_of_singleton]%elem_of_app & ->); [by eauto|].
        by subst s'.
Qed.

Lemma mainTable_fst_of_discover {S} (discover0 : M (list S)) (build : list S -> gmap string string) :
  (logf Info "Starting AutoDNS..." ;;
   services <- discover0 ;
   (if length services =? 0
    then logf Warn "No services discovered, DNS server will not respond to queries"
    else ret tt) ;;
   ret (build services)).1 = build <$> discover0.1.
Proof.
  rewrite bind_logf. cbn [fst].
  destruct discover0 as [[services|] l]; [|done].
  rewrite (bind_fst_Some _ _ services) by done. cbn [fst fmap option_fmap option_map].
  destruct (length services =? 0); [by rewrite bind_logf|by rewrite bind_ret_l].
Qed.

Lemma part_000_mainTable_fst containers :
  (part_000.mainTable containers).1 =
  part_000.buildServiceMap <$> (part_000.discover containers).1.
Proof. apply mainTable_fst_of_discover. Qed.

Lemma main_go_mainTable_fst containers :
  (main_go.mainTable containers).1 =
  part_000.buildServiceMap <$> (main_go.discover containers).1.
Proof. apply mainTable_fst_of_discover. Qed.

Lemma main_go_serviceOf_hostname c s :
  main_go.serviceOf c = Some s -> part_000.HostnameLabel s <> "".
Proof.
  unfold main_go.serviceOf. destruct (String.eqb_spec (main_go.hostnameOf c) ""); [done|].
  destruct (container.Networks c !! selectedNetwork c); [|done]. by intros [= <-].
Qed.

(** X15. The first revision registers a container whose
    [com.autodns.hostname] label is present and empty: its table has an
    entry for the root name [.] exactly when some container has that
    empty label and is attached to its selected network.  The table of
    [src/main.go] never has an entry for [.]. *)
Theorem empty_hostname_label containers :
  (forall tbl, (part_000.mainTable containers).1 = Some tbl ->
     (is_Some (tbl !! ".") <->
      Exists (fun c => mapIndex (container.Labels c) "com.autodns.hostname" = ("", true) /\
                       is_Some (container.Networks c !! selectedNetwork c)) containers)) /\
  (forall tbl, (main_go.mainTable containers).1 = Some tbl -> tbl !! "." = None).
Proof.
  split.
  - intros tbl. rewrite part_000_mainTable_fst.
    destruct (part_000.discover containers).1 as [services|] eqn:Hd; [|done].
    intros [= <-]. apply (proj2 (part_000_discover_closed containers)) in Hd as ->.
    rewrite part_000_buildServiceMap_dom, Exists_exists. split.
    + intros (s & (c & Hc & Hs)%list_elem_of_omap & Hk). exists c. split; [done|].
      unfold part_000.serviceOf in Hs.
      destruct (mapIndex (container.Labels c) "com.autodns.hostname") as [h ok].
      destruct ok; [|done].
      destruct (container.Networks c !! selectedNetwork c) as [ep|]; [|done].
      injection Hs as <-. cbn in Hk. split; [|done]. f_equal.
      apply (append_inj_r _ _ "."). by rewrite <- Hk.
    + intros (c & Hc & Hidx & [ep Hep]).
      exists {| part_000.ContainerName := name0 c; part_000.HostnameLabel := "";
                part_000.IPAddress := network.IPAddress ep |}.
      split; [|done]. apply list_elem_of_omap. exists c. split; [done|].
      unfold part_000.serviceOf. by rewrite Hidx, Hep.
  - intros tbl. rewrite main_go_mainTable_fst.
    destruct (main_go.discover containers).1 as [services|] eqn:Hd; [|done].
    intros [= <-]. apply (proj2 (main_go_discover_closed containers)) in Hd as ->.
    destruct (part_000.buildServiceMap _ !! ".") as [v|] eqn:Hv; [|done].
    assert (Hs : is_Some (part_000.buildServiceMap (omap main_go.serviceOf containers) !! "."))
      by eauto.
    apply part_000_buildServiceMap_dom in Hs as (s & (c & _ & Hs)%list_elem_of_omap & Hk).
    apply main_go_serviceOf_hostname in Hs. exfalso. apply Hs.
    apply (append_inj_r _ _ "."). by rewrite <- Hk.
Qed.

(** The Service of the current revision for one of [main.go]. *)
Lemma buildServiceMap_parsed l :
  buildServiceMap
    (map (fun s => service (part_000.ContainerName s) (part_000.HostnameLabel s)
                           (net.ParseIP (part_000.IPAddress s))) l) =
  (fun a => net.IP_String (net.ParseIP a)) <$> part_000.buildServiceMap l.
Proof.
  induction l as [|s l IH] using rev_ind; [symmetry; apply fmap_empty|].
  rewrite map_app. cbn [map]. rewrite buildServiceMap_snoc, part_000_buildServiceMap_snoc.
  by rewrite fmap_insert, IH.
Qed.

Lemma servicesOf_as_main_go c :
  ipOverride c = None ->
  (explicitHostname c = None -> length (ruleHosts (container.Labels c)) <= 1) ->
  servicesOf None c =
  map (fun s => service (part_000.ContainerName s) (part_000.HostnameLabel s)
                        (net.ParseIP (part_000.IPAddress s)))
      (from_option (fun s => [s]) [] (main_go.serviceOf c)).
Proof.
  intros Hip Hshort. unfold main_go.serviceOf, main_go.hostnameOf.
  destruct (explicitHostname c) as [h|] eqn:Hh.
  - rewrite (servicesOf_explicit None c h Hh).
    assert (Hne : h <> "").
    { unfold explicitHostname in Hh.
      destruct (mapIndex (container.Labels c) "com.autodns.hostname") as [h' ok].
      destruct ok; [|done]. cbn [andb] in Hh.
      destruct (String.eqb_spec h' ""); [done|]. by injection Hh as <-. }
    rewrite (proj2 (String.eqb_neq h "") Hne).
    unfold selfResolve. rewrite Hip.
    by destruct (container.Networks c !! selectedNetwork c).
  - rewrite (servicesOf_unrouted c Hh). specialize (Hshort eq_refl).
    destruct (ruleHosts (container.Labels c)) as [|h [|h' hs]]; [done| |cbn in Hshort; lia].
    cbn [List.last hd]. destruct (String.eqb h ""); [done|].
    unfold selfResolve. rewrite Hip.
    by destruct (container.Networks c !! selectedNetwork c).
Qed.

(** X16. On an inventory of named containers in which the proxy search
    finds no proxy, no container has a non-empty [com.autodns.ip], and no
    container without a usable explicit hostname has more than one label
    that matches the routing-rule pattern, the table of the current
    revision has the keys of the table of [src/main.go], and each value
    is the text of the parse of the value [src/main.go] stores. *)
Theorem table_of_main_go containers :
  Forall named containers ->
  (discoverTraefik containers).1 = Some None ->
  Forall (fun c => ipOverride c = None /\
                   (explicitHostname c = None ->
                    length (ruleHosts (container.Labels c)) <= 1)) containers ->
  exists tbl,
    (main_go.mainTable containers).1 = Some tbl /\
    (mainTable containers).1 = Some ((fun a => net.IP_String (net.ParseIP a)) <$> tbl).
Proof.
  intros Hnamed Hproxy Hall.
  rewrite discoverTraefik_named in Hproxy by done. injection Hproxy as Hproxy.
  rewrite mainTable_named, Hproxy by done.
  rewrite main_go_mainTable_fst.
  destruct (main_go_discover_closed containers) as [Hn Hs].
  destruct (main_go.discover containers).1 as [services|].
  2:{ destruct Hn as [Hn _]. specialize (Hn eq_refl).
      apply Exists_exists in Hn as (c & Hc & Hnil).
      rewrite Forall_forall in Hnamed. by destruct (Hnamed c Hc). }
  rewrite (Hs services eq_refl). eexists. split; [reflexivity|]. f_equal.
  rewrite <- buildServiceMap_parsed. f_equal. clear -Hall.
  induction Hall as [|c cs [Hip Hshort] Hcs IH]; [done|].
  cbn [flat_map omap list_omap]. rewrite IH, (servicesOf_as_main_go c Hip Hshort).
  by destruct (main_go.serviceOf c).
Qed.

End Revisions.

(* ================================================================== *)
(** * More concrete runs *)

Lemma skip_without_hostname_witness :
  (explicitHostname Cases.anonymous = None /\
   ruleHosts (container.Labels Cases.anonymous) = []) /\
  @discoverContainer net.dottedParser None Cases.anonymous [] = (Some [], []).
Proof.
  assert (Hh : explicitHostname Cases.anonymous = None) by reflexivity.
  assert (Hr : ruleHosts (container.Labels Cases.anonymous) = [])
    by (vm_compute; reflexivity).
  split; [by split|].
  exact (@skip_without_hostname net.dottedParser None Cases.anonymous [] Hh Hr).
Defined.

Lemma discovered_services_invariant_witness :
  let containers := [Samples.web1; Samples.proxy1; Samples.svc1] in
  let tbl := buildServiceMap
               [service "web1" "app.local" (net.IPv4 172 17 0 5);
                service "svc1" "site.io" (net.IPv4 172 17 0 9)] in
  (@mainTable net.dottedParser containers).1 = Some tbl /\
  exists services,
    (@discover net.dottedParser containers).1 = Some services /\
    tbl = buildServiceMap services /\
    Forall (fun s =>
              HostnameLabel s <> "" /\
              exists c, c ∈ containers /\
                        container.Names c !! 0 = Some (ContainerName s) /\
                        (explicitHostname c = Some (HostnameLabel s) \/
                         (explicitHostname c = None /\
                          HostnameLabel s ∈ ruleHosts (container.Labels c))))
           services /\
    tbl !! "." = None.
Proof.
  intros containers tbl.
  assert (Ht : (@mainTable net.dottedParser containers).1 = Some tbl)
    by (vm_compute; reflexivity).
  split; [exact Ht|].
  exact (@discovered_services_invariant net.dottedParser containers tbl Ht).
Defined.

Lemma discoverTraefik_result_origin_witness :
  let containers := [Samples.web1; Samples.proxy1] in
  let p := service "proxy1" "traefik" (net.IPv4 172 17 0 9) in
  (@discoverTraefik net.dottedParser containers).1 = Some (Some p) /\
  HostnameLabel p = "traefik" /\
  exists c a,
    c ∈ containers /\ imageName c = "traefik" /\
    container.Names c !! 0 = Some (ContainerName p) /\
    a <> "" /\ IPAddress p = net.parseIPv4 a /\
    (ipOverride c = Some a \/
     (ipOverride c = None /\
      network.IPAddress <$> container.Networks c !! selectedNetwork c = Some a)).
Proof.
  intros containers p.
  assert (Hp : (@discoverTraefik net.dottedParser containers).1 = Some (Some p))
    by (vm_compute; reflexivity).
  split; [exact Hp|].
  exact (@discoverTraefik_result_origin net.dottedParser containers p Hp).
Defined.

Lemma rule_with_trailing_text_witness :
  (Rule.isRouterName "svc" = true /\ Rule.isDomain "site.io" = true) /\
  traefikRe_FindStringSubmatch
    (Rule.key "svc" +:+ "=" +:+ Rule.value "site.io" +:+ " && PathPrefix(`/api`)") =
  [Rule.key "svc" +:+ "=" +:+ Rule.value "site.io"; "svc"; "site.io"].
Proof.
  assert (Hn : Rule.isRouterName "svc" = true) by (vm_compute; reflexivity).
  assert (Hd : Rule.isDomain "site.io" = true) by (vm_compute; reflexivity).
  split; [by split|].
  exact (rule_with_trailing_text "svc" "site.io" " && PathPrefix(`/api`)" Hn Hd).
Defined.

Lemma rule_after_prefix_witness :
  (forallb (fun c => (Bytes.code c <? 128)%N) (Bytes.to_list "x-") = true /\
   Rule.isRouterName "svc" = true /\ Rule.isDomain "site.io" = true) /\
  exists h,
    ruleHost ("x-" +:+ Rule.key "svc",
              Rule.value "site.io" +:+ " || Host(`other.io`)") = Some h /\
    Rule.isDomain h = true.
Proof.
  assert (Hp : forallb (fun c => (Bytes.code c <? 128)%N) (Bytes.to_list "x-") = true)
    by (vm_compute; reflexivity).
  assert (Hn : Rule.isRouterName "svc" = true) by (vm_compute; reflexivity).
  assert (Hd : Rule.isDomain "site.io" = true) by (vm_compute; reflexivity).
  split; [by repeat split|].
  exact (rule_after_prefix "x-" "svc" "site.io" " || Host(`other.io`)" Hp Hn Hd).
Defined.

Lemma table_independent_of_label_order_witness :
  let containers := [Samples.svc2; Samples.proxy1] in
  let containers' := [Cases.svc2r; Samples.proxy1] in
  (Forall2 relabelled containers containers' /\
   Forall (fun c => labelsOK (container.Labels c)) containers /\
   Forall named containers /\
   exists p, (@discoverTraefik net.dottedParser containers).1 = Some (Some p)) /\
  (@mainTable net.dottedParser containers').1 = (@mainTable net.dottedParser containers).1.
Proof.
  intros containers containers'.
  assert (Hrel : Forall2 relabelled containers containers').
  { constructor; [|constructor; [|constructor]].
    - split; [reflexivity|]. split; [reflexivity|]. split; [reflexivity|]. apply perm_swap.
    - split; [reflexivity|]. split; [reflexivity|]. split; [reflexivity|]. reflexivity. }
  assert (Hok : Forall (fun c => labelsOK (container.Labels c)) containers).
  { repeat apply Forall_cons_2; try apply Forall_nil_2;
      unfold labelsOK; refine (bool_decide_unpack _ _); vm_compute; exact I. }
  assert (Hnamed : Forall named containers) by (repeat constructor; discriminate).
  assert (Hp : exists p, (@discoverTraefik net.dottedParser containers).1 = Some (Some p))
    by (eexists; vm_compute; reflexivity).
  split; [by repeat split|].
  exact (@table_independent_of_label_order net.dottedParser containers containers'
           Hrel Hok Hnamed (or_introl Hp)).
Defined.

Lemma main_go_extends_part_000_witness :
  let containers := [Samples.web1; Samples.lonely] in
  Forall (fun c => ruleHosts (container.Labels c) = [] /\
                   mapIndex (container.Labels c) "com.autodns.hostname" <> ("", true))
         containers /\
  (main_go.discover containers).1 = (part_000.discover containers).1.
Proof.
  intros containers.
  assert (Hall : Forall (fun c => ruleHosts (container.Labels c) = [] /\
                   mapIndex (container.Labels c) "com.autodns.hostname" <> ("", true))
                   containers).
  { repeat apply Forall_cons_2; try apply Forall_nil_2;
      (split; [vm_compute; reflexivity|vm_compute; discriminate]). }
  split; [exact Hall|].
  exact (main_go_extends_part_000 containers Hall).
Defined.

Lemma table_of_main_go_witness :
  let containers := [Samples.web1; Samples.svc1] in
  (Forall named containers /\
   (@discoverTraefik net.dottedParser containers).1 = Some None /\
   Forall (fun c => ipOverride c = None /\
                    (explicitHostname c = None ->
                     length (ruleHosts (container.Labels c)) <= 1)) containers) /\
  exists tbl,
    (main_go.mainTable containers).1 = Some tbl /\
    (@mainTable net.dottedParser containers).1 =
    Some ((fun a => net.IP_String (net.parseIPv4 a)) <$> tbl).
Proof.
  intros containers.
  assert (Hnamed : Forall named containers) by (repeat constructor; discriminate).
  assert (Hp : (@discoverTraefik net.dottedParser containers).1 = Some None)
    by (vm_compute; reflexivity).
  assert (Hall : Forall (fun c => ipOverride c = None /\
                    (explicitHostname c = None ->
                     length (ruleHosts (container.Labels c)) <= 1)) containers).
  { repeat apply Forall_cons_2; try apply Forall_nil_2;
      (split; [vm_compute; reflexivity|intros _; vm_compute; lia]). }
  split; [by repeat split|].
  exact (@table_of_main_go net.dottedParser containers Hnamed Hp Hall).
Defined.
